(** * Arctan-MB2BSP: the Multiboot2 information parser [read_mb2i]

    A shallow embedding of [src/c/multiboot/mbparse.c] and of the structures
    of [src/c/include/arctan.h], with the properties of the tag walk, of the
    boot metadata it fills in and of the construction of the higher-half
    direct map (HHDM).

    The bootstrapper is entered by a Multiboot2 loader in 32-bit protected
    mode and builds the page tables that long mode will use, so the C code
    is compiled for ILP32: [int], [size_t] and [uintptr_t] are 32 bits wide.
    Unsigned arithmetic is written out with its wrap-around; addresses are
    integers in [Z]; memory is byte addressed and little endian. *)

From Stdlib Require Import ZArith Bool Lia String Ascii List Sorted.
Import ListNotations.
Open Scope Z_scope.

(** ** Machine integers *)

Module MachInt.

Definition wrap (bits : Z) (z : Z) : Z := z mod 2 ^ bits.

Definition u8 (z : Z) : Z := wrap 8 z.
Definition u32 (z : Z) : Z := wrap 32 z.
Definition u64 (z : Z) : Z := wrap 64 z.

(** [size_t] and [uintptr_t] of the 32-bit build. *)
Definition size_t (z : Z) : Z := u32 z.
Definition uintptr_t (z : Z) : Z := u32 z.

(** Conversion of an unsigned 32-bit value to [int] (two's complement). *)
Definition int (z : Z) : Z :=
  let w := u32 z in if w <? 2 ^ 31 then w else w - 2 ^ 32.

Definition in_u64 (z : Z) : Prop := 0 <= z < 2 ^ 64.

End MachInt.
Export MachInt.

(** ** Byte-addressed memory *)

Module Memory.

(** One byte per address. *)
Definition mem : Type := Z -> Z.

Definition load8 (m : mem) (a : Z) : Z := u8 (m a).

Fixpoint load_le (n : nat) (m : mem) (a : Z) : Z :=
  match n with
  | O => 0
  | S k => load8 m a + 256 * load_le k m (a + 1)
  end.

Definition load32 (m : mem) (a : Z) : Z := load_le 4 m a.
Definition load64 (m : mem) (a : Z) : Z := load_le 8 m a.

Definition store8 (m : mem) (a v : Z) : mem :=
  fun x => if x =? a then u8 v else m x.

Fixpoint store_le (n : nat) (m : mem) (a v : Z) : mem :=
  match n with
  | O => m
  | S k => store_le k (store8 m a v) (a + 1) (v / 256)
  end.

Definition store32 (m : mem) (a v : Z) : mem := store_le 4 m a v.
Definition store64 (m : mem) (a v : Z) : mem := store_le 8 m a v.

(** [memset(p, c, n)]: [n] bytes from [p] take the value [c]. *)
Definition memset (m : mem) (p c n : Z) : mem :=
  fun x => if (p <=? x) && (x <? p + n) then u8 c else m x.

(** A memory holding the bytes [l] from address [base] on, zero elsewhere. *)
Definition mem_of_bytes (base : Z) (l : list Z) : mem :=
  fun x =>
    if (base <=? x) && (x <? base + Z.of_nat (length l))
    then nth (Z.to_nat (x - base)) l 0 else 0.

Fixpoint le_bytes (n : nat) (v : Z) : list Z :=
  match n with
  | O => []
  | S k => (v mod 256) :: le_bytes k (v / 256)
  end.

Definition le32 (v : Z) : list Z := le_bytes 4 v.
Definition le64 (v : Z) : list Z := le_bytes 8 v.

End Memory.
Export Memory.

(** ** Structures of [arctan.h] *)

(** [struct ARC_MMap], packed: [int type] at offset 0, [uint64_t base] at
    offset 4, [uint64_t len] at offset 12. *)
Record ARC_MMap : Type := mkARC_MMap {
  type : Z;
  base : Z;
  len : Z
}.

Definition sizeof_ARC_MMap : Z := 20.

Record ARC_BootMeta : Type := mkARC_BootMeta {
  boot_proc : Z;
  boot_info : Z;
  pmm_state : Z;
  highest_address : Z;
  kernel_elf : Z;
  initramfs : Z;
  initramfs_size : Z;
  state : Z;
  hhdm_vaddr : Z;
  arc_mmap : Z;
  arc_mmap_len : Z;
  rsdp : Z
}.

Definition set_boot_info (v : Z) (b : ARC_BootMeta) : ARC_BootMeta :=
  mkARC_BootMeta (boot_proc b) v (pmm_state b) (highest_address b)
    (kernel_elf b) (initramfs b) (initramfs_size b) (state b) (hhdm_vaddr b)
    (arc_mmap b) (arc_mmap_len b) (rsdp b).

Definition set_highest_address (v : Z) (b : ARC_BootMeta) : ARC_BootMeta :=
  mkARC_BootMeta (boot_proc b) (boot_info b) (pmm_state b) v
    (kernel_elf b) (initramfs b) (initramfs_size b) (state b) (hhdm_vaddr b)
    (arc_mmap b) (arc_mmap_len b) (rsdp b).

Definition set_kernel_elf (v : Z) (b : ARC_BootMeta) : ARC_BootMeta :=
  mkARC_BootMeta (boot_proc b) (boot_info b) (pmm_state b) (highest_address b)
    v (initramfs b) (initramfs_size b) (state b) (hhdm_vaddr b)
    (arc_mmap b) (arc_mmap_len b) (rsdp b).

Definition set_initramfs (v : Z) (b : ARC_BootMeta) : ARC_BootMeta :=
  mkARC_BootMeta (boot_proc b) (boot_info b) (pmm_state b) (highest_address b)
    (kernel_elf b) v (initramfs_size b) (state b) (hhdm_vaddr b)
    (arc_mmap b) (arc_mmap_len b) (rsdp b).

Definition set_initramfs_size (v : Z) (b : ARC_BootMeta) : ARC_BootMeta :=
  mkARC_BootMeta (boot_proc b) (boot_info b) (pmm_state b) (highest_address b)
    (kernel_elf b) (initramfs b) v (state b) (hhdm_vaddr b)
    (arc_mmap b) (arc_mmap_len b) (rsdp b).

Definition set_hhdm_vaddr (v : Z) (b : ARC_BootMeta) : ARC_BootMeta :=
  mkARC_BootMeta (boot_proc b) (boot_info b) (pmm_state b) (highest_address b)
    (kernel_elf b) (initramfs b) (initramfs_size b) (state b) v
    (arc_mmap b) (arc_mmap_len b) (rsdp b).

Definition set_arc_mmap (v : Z) (b : ARC_BootMeta) : ARC_BootMeta :=
  mkARC_BootMeta (boot_proc b) (boot_info b) (pmm_state b) (highest_address b)
    (kernel_elf b) (initramfs b) (initramfs_size b) (state b) (hhdm_vaddr b)
    v (arc_mmap_len b) (rsdp b).

Definition set_arc_mmap_len (v : Z) (b : ARC_BootMeta) : ARC_BootMeta :=
  mkARC_BootMeta (boot_proc b) (boot_info b) (pmm_state b) (highest_address b)
    (kernel_elf b) (initramfs b) (initramfs_size b) (state b) (hhdm_vaddr b)
    (arc_mmap b) v (rsdp b).

Definition set_rsdp (v : Z) (b : ARC_BootMeta) : ARC_BootMeta :=
  mkARC_BootMeta (boot_proc b) (boot_info b) (pmm_state b) (highest_address b)
    (kernel_elf b) (initramfs b) (initramfs_size b) (state b) (hhdm_vaddr b)
    (arc_mmap b) (arc_mmap_len b) v.

(** The all-zero record a C global without initialiser starts as. *)
Definition zero_boot_meta : ARC_BootMeta :=
  mkARC_BootMeta 0 0 0 0 0 0 0 0 0 0 0 0.

(** ** Structures of [mbparse.c] *)

Record ARC_MB2BootInfo : Type := mkARC_MB2BootInfo {
  mbi_phys : Z;
  fb : Z
}.

(** ** The Multiboot2 header *)

(** Modelled from the spec: [multiboot/multiboot2.h] is not among the
    sources.  The record header is [{kind: u32, byteLength: u32}], the end
    kind is 0, and the closed set of recognised kinds is {MemoryMap, Module,
    Framebuffer, LoaderName, BasicMemInfo, LoadBaseAddr, AcpiNew, AcpiOld};
    the numbers are the ones the Multiboot2 protocol assigns. *)
Definition MULTIBOOT_TAG_TYPE_END : Z := 0.
Definition MULTIBOOT_TAG_TYPE_BOOT_LOADER_NAME : Z := 2.
Definition MULTIBOOT_TAG_TYPE_MODULE : Z := 3.
Definition MULTIBOOT_TAG_TYPE_BASIC_MEMINFO : Z := 4.
Definition MULTIBOOT_TAG_TYPE_MMAP : Z := 6.
Definition MULTIBOOT_TAG_TYPE_FRAMEBUFFER : Z := 8.
Definition MULTIBOOT_TAG_TYPE_ACPI_OLD : Z := 14.
Definition MULTIBOOT_TAG_TYPE_ACPI_NEW : Z := 15.
Definition MULTIBOOT_TAG_TYPE_LOAD_BASE_ADDR : Z := 21.

(** Modelled from the spec: sizes of the protocol's structures, which
    [multiboot2.h] declares.  [struct multiboot_tag] is the 8-byte record
    header; [struct multiboot_tag_mmap] is the header followed by
    [entry_size] and [entry_version], then the entries;
    [struct multiboot_mmap_entry] is [{addr: u64, len: u64, type: u32,
    zero: u32}].  The offsets of the module and framebuffer fields used
    further down are the protocol's as well. *)
Definition sizeof_multiboot_tag : Z := 8.
Definition sizeof_multiboot_tag_mmap : Z := 16.
Definition sizeof_multiboot_mmap_entry : Z := 24.

Record multiboot_mmap_entry : Type := mk_mmap_entry {
  e_addr : Z;
  e_len : Z;
  e_type : Z
}.

(** [mmap->entries[i]], read from memory. *)
Definition mmap_entry_at (mmap i : Z) : Z :=
  mmap + sizeof_multiboot_tag_mmap + sizeof_multiboot_mmap_entry * i.

Definition load_mmap_entry (m : mem) (mmap i : Z) : multiboot_mmap_entry :=
  let a := mmap_entry_at mmap i in
  mk_mmap_entry (load64 m a) (load64 m (a + 8)) (load32 m (a + 16)).

(** Modelled from the spec: [ALIGN] is defined outside the sources; the next
    record begins at [currentOffset + align(record.byteLength, 8)], the
    length rounded up to a multiple of 8. *)
Definition ALIGN (v a : Z) : Z := (v + (a - 1)) / a * a.

(** Modelled from the spec: [strcmp] comes from the bootstrapper's own
    utilities, outside the sources; names are compared as exact
    NUL-terminated strings.  The second argument is a string literal. *)
Fixpoint strcmp_bytes (m : mem) (a : Z) (lit : list Z) : Z :=
  match lit with
  | [] => load8 m a
  | c :: rest =>
      let x := load8 m a in
      if x =? c then strcmp_bytes m (a + 1) rest else x - c
  end.

Definition bytes_of_string (s : string) : list Z :=
  map (fun c => Z.of_nat (nat_of_ascii c)) (list_ascii_of_string s).

Definition strcmp (m : mem) (a : Z) (lit : string) : Z :=
  strcmp_bytes m a (bytes_of_string lit).

(** ** Collaborators and the state of the bootstrapper *)

(** Calls into the collaborators outside [mbparse.c], in the order made.
    [Arc_ListContiguousAlloc] and [map_page] are recorded with what they
    returned ([0] is [NULL]). *)
Inductive call : Type :=
| Call_Arc_SetTerm (framebuffer width height pitch : Z)
| Call_init_pmm (mmap bootstrap_end : Z)
| Call_Arc_ListContiguousAlloc (objects ret : Z)
| Call_map_page (pml4 vaddr paddr flag ret : Z).

(** Modelled from the spec: the physical allocator
    ([allocateContiguous(size) -> physicalAddress | failure]) and the page
    mapper ([mapPage(rootTable, virtualAddr, physicalAddr, writable) ->
    newRootTable | failure]) live in [mm/], outside the sources.  What one
    returns may depend on every call made before it. *)
Record Collaborators : Type := mkCollaborators {
  Arc_ListContiguousAlloc : list call -> Z -> Z;
  map_page : list call -> Z -> Z -> Z -> Z -> Z
}.

(** Addresses fixed at link time: the linker symbol [__BOOTSTRAP_END__] and
    the static [mb2_boot_info]. *)
Record Image : Type := mkImage {
  __BOOTSTRAP_END__ : Z;
  addr_mb2_boot_info : Z
}.

(** The globals [read_mb2i] touches ([_boot_meta], [mb2_boot_info] and the
    page-table root [pml4]), the memory behind its pointers and the calls
    it has made. *)
Record machine : Type := mkMachine {
  memory : mem;
  _boot_meta : ARC_BootMeta;
  mb2_boot_info : ARC_MB2BootInfo;
  pml4 : Z;
  calls : list call
}.

Definition with_memory (m : mem) (s : machine) : machine :=
  mkMachine m (_boot_meta s) (mb2_boot_info s) (pml4 s) (calls s).

Definition with_boot_meta (b : ARC_BootMeta) (s : machine) : machine :=
  mkMachine (memory s) b (mb2_boot_info s) (pml4 s) (calls s).

Definition with_mb2_boot_info (i : ARC_MB2BootInfo) (s : machine) : machine :=
  mkMachine (memory s) (_boot_meta s) i (pml4 s) (calls s).

Definition with_pml4 (p : Z) (s : machine) : machine :=
  mkMachine (memory s) (_boot_meta s) (mb2_boot_info s) p (calls s).

Definition record_call (c : call) (s : machine) : machine :=
  mkMachine (memory s) (_boot_meta s) (mb2_boot_info s) (pml4 s)
    (calls s ++ [c]).

(** The locals of [read_mb2i] that live across the walk.  [visited] is a
    ghost: the addresses of the records the loop body ran on, in order. *)
Record frame : Type := mkFrame {
  mmap : Z;
  bootstrap_end : Z;
  entries : Z;
  visited : list Z
}.

(** How a run ends: it completes, it reaches [ARC_HANG], it divides by zero
    (line 67 has no guard), or the model's fuel is used up.

    Modelled from the spec: [ARC_HANG] is defined outside the sources; a
    failed map request "is fatal and halts the system immediately", so
    nothing runs after it.  [ARC_DEBUG] prints diagnostics and changes no
    state; it is left out. *)
Inductive outcome (A : Type) : Type :=
| Done (a : A)
| Hang (s : machine)
| DivideError (s : machine)
| OutOfFuel.

Arguments Done {A} a.
Arguments Hang {A} s.
Arguments DivideError {A} s.
Arguments OutOfFuel {A}.

Definition bind {A B : Type} (o : outcome A) (k : A -> outcome B) : outcome B :=
  match o with
  | Done a => k a
  | Hang s => Hang s
  | DivideError s => DivideError s
  | OutOfFuel => OutOfFuel
  end.

Notation "'do' x <- o ; k" := (bind o (fun x => k))
  (at level 10, x pattern, o at level 100, k at level 200).

(** ** The tag walk *)

(** [for (int i = 0; i < n; i++)]: the values [i] takes. *)
Definition int_range (n : Z) : list Z := map Z.of_nat (seq 0 (Z.to_nat n)).

(** Lines 80-82. *)
Definition update_highest (e : multiboot_mmap_entry) (b : ARC_BootMeta)
  : ARC_BootMeta :=
  if highest_address b <? u64 (e_addr e + e_len e)
  then set_highest_address (u64 (e_addr e + e_len e)) b
  else b.

(** Line 67. *)
Definition count_entries (size entry_size : Z) : Z :=
  int (u32 (size - size_t sizeof_multiboot_tag_mmap) / entry_size).

(** [case MULTIBOOT_TAG_TYPE_MMAP]. *)
Definition case_mmap (tag : Z) (f : frame) (s : machine)
  : outcome (frame * machine) :=
  let m := memory s in
  let size := load32 m (tag + 4) in
  let entry_size := load32 m (tag + 8) in
  if entry_size =? 0 then DivideError s
  else
    let n := count_entries size entry_size in
    let b := fold_left
               (fun b i => update_highest (load_mmap_entry m tag i) b)
               (int_range n) (_boot_meta s) in
    Done (mkFrame tag (bootstrap_end f) n (visited f), with_boot_meta b s).

Definition kernel_name : string := "arctan-module.kernel.elf".
Definition initramfs_name : string := "arctan-module.initramfs.cpio".

(** [case MULTIBOOT_TAG_TYPE_MODULE]: [mod_start] at offset 8, [mod_end] at
    offset 12, [cmdline] from offset 16. *)
Definition case_module (tag : Z) (f : frame) (s : machine) : frame * machine :=
  let m := memory s in
  let mod_start := load32 m (tag + 8) in
  let mod_end := load32 m (tag + 12) in
  let cmdline := tag + 16 in
  let b := _boot_meta s in
  let b' :=
    if strcmp m cmdline kernel_name =? 0 then
      set_kernel_elf mod_start b
    else if strcmp m cmdline initramfs_name =? 0 then
      set_initramfs_size (u32 (mod_end - mod_start)) (set_initramfs mod_start b)
    else b in
  let bootstrap_end' :=
    if bootstrap_end f <? mod_end then mod_end else bootstrap_end f in
  (mkFrame (mmap f) bootstrap_end' (entries f) (visited f), with_boot_meta b' s).

(** [case MULTIBOOT_TAG_TYPE_FRAMEBUFFER]: in the common part,
    [framebuffer_addr] (u64) is at offset 8, [framebuffer_pitch] at 16,
    [framebuffer_width] at 20 and [framebuffer_height] at 24. *)
Definition case_framebuffer (tag : Z) (f : frame) (s : machine)
  : frame * machine :=
  let m := memory s in
  let s1 := record_call
              (Call_Arc_SetTerm (uintptr_t (load64 m (tag + 8)))
                 (load32 m (tag + 20)) (load32 m (tag + 24))
                 (load32 m (tag + 16))) s in
  (f, with_mb2_boot_info (mkARC_MB2BootInfo (mbi_phys (mb2_boot_info s1)) tag) s1).

(** [(uint64_t)p] for a pointer [p] of the 32-bit build.  GCC widens a
    pointer to a larger integer as it widens a signed integer: the sign is
    extended, so an address at or above 2 GiB gets its upper 32 bits set. *)
Definition pointer_to_u64 (p : Z) : Z := u64 (int (uintptr_t p)).

(** [case MULTIBOOT_TAG_TYPE_ACPI_NEW: case MULTIBOOT_TAG_TYPE_ACPI_OLD:]
    (line 157): the byte pointer 8 past [tag], cast to [uint64_t]. *)
Definition case_acpi (tag : Z) (f : frame) (s : machine) : frame * machine :=
  (f, with_boot_meta (set_rsdp (pointer_to_u64 (tag + 8)) (_boot_meta s)) s).

(** [case MULTIBOOT_TAG_TYPE_LOAD_BASE_ADDR]: a diagnostic, and no [break]:
    control runs on into the next label. *)
Definition case_load_base_addr (tag : Z) (f : frame) (s : machine)
  : frame * machine :=
  case_acpi tag f s.

(** The [switch] of lines 62-159. *)
Definition dispatch (tag : Z) (f : frame) (s : machine)
  : outcome (frame * machine) :=
  let kind := load32 (memory s) tag in
  if kind =? MULTIBOOT_TAG_TYPE_MMAP then case_mmap tag f s
  else if kind =? MULTIBOOT_TAG_TYPE_MODULE then Done (case_module tag f s)
  else if kind =? MULTIBOOT_TAG_TYPE_FRAMEBUFFER then
    Done (case_framebuffer tag f s)
  else if kind =? MULTIBOOT_TAG_TYPE_BOOT_LOADER_NAME then Done (f, s)
  else if kind =? MULTIBOOT_TAG_TYPE_BASIC_MEMINFO then Done (f, s)
  else if kind =? MULTIBOOT_TAG_TYPE_LOAD_BASE_ADDR then
    Done (case_load_base_addr tag f s)
  else if kind =? MULTIBOOT_TAG_TYPE_ACPI_NEW then Done (case_acpi tag f s)
  else if kind =? MULTIBOOT_TAG_TYPE_ACPI_OLD then Done (case_acpi tag f s)
  else Done (f, s).

Definition visit (tag : Z) (f : frame) : frame :=
  mkFrame (mmap f) (bootstrap_end f) (entries f) (visited f ++ [tag]).

(** Line 161. *)
Definition next_tag (m : mem) (tag : Z) : Z :=
  uintptr_t (tag + ALIGN (load32 m (tag + 4)) 8).

(** The loop of lines 61-162.  The condition reads [tag->type] before it
    compares [tag] with [end].  The result carries the position the loop
    stopped at. *)
Fixpoint walk (fuel : nat) (end_ tag : Z) (f : frame) (s : machine)
  : outcome (Z * frame * machine) :=
  match fuel with
  | O => OutOfFuel
  | S fuel' =>
      if negb (load32 (memory s) tag =? MULTIBOOT_TAG_TYPE_END) && (tag <? end_)
      then
        do (f', s') <- dispatch tag (visit tag f) s ;
        walk fuel' end_ (next_tag (memory s') tag) f' s'
      else Done (tag, f, s)
  end.

(** ** The direct map *)

(** [ARC_HHDM_VADDR] of [arctan.h]. *)
Definition ARC_HHDM_VADDR (s : machine) : Z := hhdm_vaddr (_boot_meta s).

(** The inner loop of lines 189-197, from a given [j]. *)
Fixpoint map_region (fuel : nat) (co : Collaborators)
  (entry : multiboot_mmap_entry) (j : Z) (s : machine) : outcome machine :=
  match fuel with
  | O => OutOfFuel
  | S fuel' =>
      if j <? e_len entry then
        let linear := u64 (e_addr entry + j) in
        let vaddr := u64 (linear + ARC_HHDM_VADDR s) in
        let ret := map_page co (calls s) (pml4 s) vaddr linear 1 in
        let s' := with_pml4 ret
                    (record_call (Call_map_page (pml4 s) vaddr linear 1 ret) s) in
        if ret =? 0 then Hang s'
        else map_region fuel' co entry (u64 (j + 0x1000)) s'
      else Done s
  end.

(** Lines 183-185: the three fields of [mmap_entries[i]], at [p]. *)
Definition store_ARC_MMap (m : mem) (p : Z) (e : ARC_MMap) : mem :=
  let m1 := store64 m (p + 4) (base e) in
  let m2 := store64 m1 (p + 12) (len e) in
  store32 m2 p (type e).

Definition load_ARC_MMap (m : mem) (p : Z) : ARC_MMap :=
  mkARC_MMap (int (load32 m p)) (load64 m (p + 4)) (load64 m (p + 12)).

Definition arc_mmap_slot (mmap_entries i : Z) : Z :=
  mmap_entries + sizeof_ARC_MMap * i.

(** The outer loop of lines 180-198, over the values of [i] that remain. *)
Fixpoint hhdm_entries (fuel : nat) (co : Collaborators)
  (mmap mmap_entries : Z) (idx : list Z) (s : machine) : outcome machine :=
  match idx with
  | [] => Done s
  | i :: rest =>
      let entry := load_mmap_entry (memory s) mmap i in
      let slot := mkARC_MMap (int (e_type entry)) (e_addr entry) (e_len entry) in
      let s1 := with_memory
                  (store_ARC_MMap (memory s) (arc_mmap_slot mmap_entries i) slot)
                  s in
      do s2 <- map_region fuel co entry 0 s1 ;
      hhdm_entries fuel co mmap mmap_entries rest s2
  end.

(** Line 169. *)
Definition arc_mmap_pages (entries : Z) : Z :=
  int (size_t (size_t entries * size_t sizeof_ARC_MMap) / size_t 0x1000).

(** Lines 167-177: the allocator is set up, the buffer for the normalized
    map is asked for and cleared, and three fields are published.  The
    result carries [mmap_entries]. *)
Definition prepare (co : Collaborators) (f : frame) (s : machine)
  : Z * machine :=
  let s := record_call
             (Call_init_pmm (mmap f) (uintptr_t (bootstrap_end f))) s in
  let arc_mmap_size := arc_mmap_pages (entries f) in
  let mmap_entries := Arc_ListContiguousAlloc co (calls s) arc_mmap_size in
  let s := record_call
             (Call_Arc_ListContiguousAlloc arc_mmap_size mmap_entries) s in
  let s := with_memory
             (memset (memory s) mmap_entries 0 (size_t arc_mmap_size)) s in
  let s := with_boot_meta (set_arc_mmap (uintptr_t mmap_entries) (_boot_meta s)) s in
  let s := with_boot_meta (set_arc_mmap_len (entries f) (_boot_meta s)) s in
  let s := with_boot_meta
             (set_hhdm_vaddr 0xFFFFC00000000000 (_boot_meta s)) s in
  (mmap_entries, s).

(** Line 200. *)
Definition publish_boot_info (img : Image) (s : machine) : machine :=
  with_boot_meta
    (set_boot_info (uintptr_t (addr_mb2_boot_info img)) (_boot_meta s)) s.

(** Lines 167-202, after the walk. *)
Definition bootstrap (co : Collaborators) (img : Image) (fuel : nat)
  (f : frame) (s : machine) : outcome (Z * machine) :=
  let (mmap_entries, s) := prepare co f s in
  do s <- hhdm_entries fuel co (mmap f) mmap_entries (int_range (entries f)) s ;
  Done (0, publish_boot_info img s).

(** Where the walk starts and what it is bounded by (lines 51-57).  [tag +
    tag->type] is arithmetic on a [struct multiboot_tag *]: it advances by
    whole 8-byte headers, and the sum is a 32-bit pointer, so it wraps. *)
Definition walk_end (m : mem) (mb2i : Z) : Z :=
  uintptr_t (mb2i + sizeof_multiboot_tag * load32 m mb2i).

Definition walk_start (mb2i : Z) : Z := uintptr_t (mb2i + 8).

Definition initial_frame (img : Image) : frame :=
  mkFrame 0 (uintptr_t (__BOOTSTRAP_END__ img)) 0 [].

(** [int read_mb2i(void *mb2i)]. *)
Definition read_mb2i (co : Collaborators) (img : Image) (fuel : nat)
  (mb2i : Z) (s : machine) : outcome (Z * machine) :=
  let s := with_mb2_boot_info
             (mkARC_MB2BootInfo (uintptr_t mb2i) (fb (mb2_boot_info s))) s in
  do (_, f, s) <- walk fuel (walk_end (memory s) mb2i) (walk_start mb2i)
                     (initial_frame img) s ;
  bootstrap co img fuel f s.

(** ** The records of a stream *)

(** [records m end_ tag ps last]: over the memory [m] and with the bound
    [end_], the loop condition of line 61 holds at the positions [ps], each
    the successor of the one before and the first being [tag], and fails at
    [last]. *)
Inductive records (m : mem) (end_ : Z) : Z -> list Z -> Z -> Prop :=
| records_stop (tag : Z) :
    load32 m tag = MULTIBOOT_TAG_TYPE_END \/ end_ <= tag ->
    records m end_ tag [] tag
| records_next (tag : Z) (ps : list Z) (last : Z) :
    load32 m tag <> MULTIBOOT_TAG_TYPE_END ->
    tag < end_ ->
    records m end_ (next_tag m tag) ps last ->
    records m end_ tag (tag :: ps) last.

(** The loop body run on the records [ps], one after the other. *)
Fixpoint dispatch_all (ps : list Z) (f : frame) (s : machine)
  : outcome (frame * machine) :=
  match ps with
  | [] => Done (f, s)
  | p :: rest =>
      do (f', s') <- dispatch p (visit p f) s ;
      dispatch_all rest f' s'
  end.

Definition has_kind (m : mem) (kind tag : Z) : bool := load32 m tag =? kind.

Definition mmap_records (m : mem) (ps : list Z) : list Z :=
  filter (has_kind m MULTIBOOT_TAG_TYPE_MMAP) ps.

(** The [entry_size] of a memory-map record is not zero. *)
Definition divisible (m : mem) (tag : Z) : Prop := load32 m (tag + 8) <> 0.

Definition entry_count (m : mem) (tag : Z) : Z :=
  count_entries (load32 m (tag + 4)) (load32 m (tag + 8)).

(** The entries of a memory-map record, as [mmap->entries[i]] reads them. *)
Definition raw_entries (m : mem) (tag : Z) : list multiboot_mmap_entry :=
  map (load_mmap_entry m tag) (int_range (entry_count m tag)).

Definition all_raw_entries (m : mem) (ps : list Z) : list multiboot_mmap_entry :=
  flat_map (raw_entries m) (mmap_records m ps).

(** [(uint64_t)(entry.addr + entry.len)]. *)
Definition entry_end (e : multiboot_mmap_entry) : Z := u64 (e_addr e + e_len e).

Definition last_of (l : list Z) : option Z :=
  match rev l with
  | [] => None
  | x :: _ => Some x
  end.

(** A module record whose command line compares equal to [name]. *)
Definition names_module (m : mem) (name : string) (tag : Z) : bool :=
  has_kind m MULTIBOOT_TAG_TYPE_MODULE tag && (strcmp m (tag + 16) name =? 0).

(** The records that assign [_boot_meta.rsdp]: control reaches line 157
    from the two ACPI labels and from the label above them. *)
Definition writes_rsdp (m : mem) (tag : Z) : bool :=
  has_kind m MULTIBOOT_TAG_TYPE_LOAD_BASE_ADDR tag ||
  has_kind m MULTIBOOT_TAG_TYPE_ACPI_NEW tag ||
  has_kind m MULTIBOOT_TAG_TYPE_ACPI_OLD tag.

(** The bytes from [a] on are exactly those of [lit], then a NUL. *)
Definition c_string_at (m : mem) (a : Z) (lit : list Z) : Prop :=
  map (fun i => load8 m (a + Z.of_nat i)) (seq 0 (S (length lit))) = lit ++ [0].

(** A stream as the protocol lays it out: from [tag] on, the records at
    [ps] follow one another, each of a kind other than 0 and no shorter
    than its header, and an end record fills the last 8 bytes before
    [stop]. *)
Inductive laid_out (m : mem) : Z -> list Z -> Z -> Prop :=
| laid_out_end (tag : Z) :
    load32 m tag = MULTIBOOT_TAG_TYPE_END ->
    laid_out m tag [] (tag + 8)
| laid_out_record (tag : Z) (ps : list Z) (stop : Z) :
    load32 m tag <> MULTIBOOT_TAG_TYPE_END ->
    8 <= load32 m (tag + 4) ->
    laid_out m (tag + ALIGN (load32 m (tag + 4)) 8) ps stop ->
    laid_out m tag (tag :: ps) stop.

(** The stream at [mb2i] is laid out over exactly the length its first word
    declares, inside the 32-bit address space. *)
Definition terminated (m : mem) (mb2i : Z) (ps : list Z) : Prop :=
  0 <= mb2i /\ mb2i + load32 m mb2i < 2 ^ 32 /\
  laid_out m (mb2i + 8) ps (mb2i + load32 m mb2i).

(** ** Requests to the page mapper *)

Definition request_of (c : call) : list (Z * Z * Z) :=
  match c with
  | Call_map_page _ vaddr paddr flag _ => [(vaddr, paddr, flag)]
  | _ => []
  end.

(** The [(vaddr, paddr, flag)] of the [map_page] calls, in order. *)
Definition map_requests (cs : list call) : list (Z * Z * Z) :=
  flat_map request_of cs.

(** Number of 4 KiB steps the loop of line 189 takes over [len] bytes. *)
Definition page_steps (len : Z) : Z := (len + 0xFFF) / 0x1000.

(** The request the loop of line 189 makes at its step [k]. *)
Definition page_request (hhdm : Z) (e : multiboot_mmap_entry) (k : Z)
  : Z * Z * Z :=
  (u64 (u64 (e_addr e + 0x1000 * k) + hhdm), u64 (e_addr e + 0x1000 * k), 1).

(** The requests of one region: one per step, from the region's base. *)
Definition region_requests (hhdm : Z) (e : multiboot_mmap_entry)
  : list (Z * Z * Z) :=
  map (page_request hhdm e) (int_range (page_steps (e_len e))).

(** The values [k0], [k0 + 1], ... ([n] of them). *)
Definition steps_from (k0 : Z) (n : nat) : list Z :=
  map (fun i => k0 + Z.of_nat i) (seq 0 n).

(** ** The normalized memory map *)

(** What lines 183-185 store for a raw entry. *)
Definition normalized (e : multiboot_mmap_entry) : ARC_MMap :=
  mkARC_MMap (int (e_type e)) (e_addr e) (e_len e).

(** The memory after the copies of the outer loop alone. *)
Fixpoint copy_entries (m : mem) (mmap mmap_entries : Z) (idx : list Z) : mem :=
  match idx with
  | [] => m
  | i :: rest =>
      copy_entries
        (store_ARC_MMap m (arc_mmap_slot mmap_entries i)
           (normalized (load_mmap_entry m mmap i)))
        mmap mmap_entries rest
  end.

(** The memory map the walk leaves in [mmap] and [entries], starting from
    [NULL] and 0: the last memory-map record among [ps]. *)
Definition found_mmap (m : mem) (ps : list Z) : Z :=
  match last_of (mmap_records m ps) with
  | Some t => t
  | None => 0
  end.

Definition found_entries (m : mem) (ps : list Z) : Z :=
  match last_of (mmap_records m ps) with
  | Some t => entry_count m t
  | None => 0
  end.

(** Two memories hold the same bytes from [lo] up to [hi]. *)
Definition agree (lo hi : Z) (m1 m2 : mem) : Prop :=
  forall x, lo <= x < hi -> m1 x = m2 x.

(** The allocator's buffer for [n] entries does not overlap the [n] raw
    entries behind [mmap]. *)
Definition apart (mmap_entries mmap n : Z) : Prop :=
  mmap_entries + sizeof_ARC_MMap * n <= mmap + sizeof_multiboot_tag_mmap \/
  mmap + sizeof_multiboot_tag_mmap + sizeof_multiboot_mmap_entry * n
    <= mmap_entries.

Definition is_terminal_call (c : call) : Prop :=
  match c with
  | Call_Arc_SetTerm _ _ _ _ => True
  | _ => False
  end.

(** ** Conditions on a run *)

Definition HHDM_VADDR : Z := 0xFFFFC00000000000.

(** Every request of the direct map, for the [n] raw entries behind [raw]:
    region by region, in the order of the raw map. *)
Definition all_requests (m : mem) (raw n : Z) : list (Z * Z * Z) :=
  flat_map (fun i => region_requests HHDM_VADDR (load_mmap_entry m raw i))
    (int_range n).

(** The loop of line 189 ends on every region: no length is within a page
    of [2 ^ 64], where [j += 0x1000] would wrap. *)
Definition mappable (m : mem) (raw n : Z) : Prop :=
  forall i, 0 <= i < n ->
            e_len (load_mmap_entry m raw i) <= 2 ^ 64 - 0x1000.

(** The fuel covers the records of the walk and the steps of every
    region. *)
Definition enough_fuel (m : mem) (raw n : Z) (ps : list Z) (fuel : nat)
  : Prop :=
  (length ps < fuel)%nat /\
  forall i, 0 <= i < n ->
            (Z.to_nat (page_steps (e_len (load_mmap_entry m raw i))) < fuel)%nat.

Definition never_fails (co : Collaborators) : Prop :=
  forall cs pml4 vaddr paddr flag, map_page co cs pml4 vaddr paddr flag <> 0.

(** ** Example streams *)

(** Builders for information structures as a Multiboot2 loader lays them
    out: records padded to 8 bytes, an end record of kind 0 and length 8,
    and the total length in the first word. *)
Definition pad8 (l : list Z) : list Z :=
  l ++ repeat 0 (Z.to_nat ((- Z.of_nat (length l)) mod 8)).

Definition record (kind : Z) (payload : list Z) : list Z :=
  pad8 (le32 kind ++ le32 (8 + Z.of_nat (length payload)) ++ payload).

Definition mmap_payload (es : list (Z * Z * Z)) : list Z :=
  le32 24 ++ le32 0 ++
  flat_map (fun e => match e with
                     | (a, l, t) => le64 a ++ le64 l ++ le32 t ++ le32 0
                     end) es.

Definition module_payload (mod_start mod_end : Z) (name : string) : list Z :=
  le32 mod_start ++ le32 mod_end ++ bytes_of_string name ++ [0].

Definition end_record : list Z := le32 0 ++ le32 8.

Definition unterminated_stream (records : list (list Z)) : list Z :=
  let body := concat records in
  le32 (8 + Z.of_nat (length body)) ++ le32 0 ++ body.

Definition stream (records : list (list Z)) : list Z :=
  unterminated_stream (records ++ [end_record]).

Definition boot_machine (m : mem) : machine :=
  mkMachine m zero_boot_meta (mkARC_MB2BootInfo 0 0) 0x1000 [].

(** Collaborators that always succeed: the allocator hands out [buffer], the
    page mapper answers with the root table at [0x1000]. *)
Definition steady (buffer : Z) : Collaborators :=
  mkCollaborators (fun _ _ => buffer) (fun _ _ _ _ _ => 0x1000).

Definition example_image : Image := mkImage 0x180000 0x170000.

(** Where the example streams are placed. *)
Definition example_mb2i : Z := 0x10000.

(** One memory map of two regions: [{Available, 0x100000, 0x1000000}] and
    [{Reserved, 0x0, 0x100000}]. *)
Definition two_region_stream : list Z :=
  stream [record MULTIBOOT_TAG_TYPE_MMAP
            (mmap_payload [(0x100000, 0x1000000, 1); (0, 0x100000, 2)])].

Definition two_region_memory : mem := mem_of_bytes example_mb2i two_region_stream.

(** Two modules named as the kernel, at [0x200000] and at [0x400000], and
    an initramfs. *)
Definition two_kernel_stream : list Z :=
  stream [record MULTIBOOT_TAG_TYPE_MODULE
            (module_payload 0x200000 0x300000 kernel_name);
          record MULTIBOOT_TAG_TYPE_MODULE
            (module_payload 0x400000 0x500000 kernel_name);
          record MULTIBOOT_TAG_TYPE_MODULE
            (module_payload 0x600000 0x700800 initramfs_name)].

Definition two_kernel_memory : mem := mem_of_bytes example_mb2i two_kernel_stream.

(** A load-base-address record and nothing else. *)
Definition load_base_stream : list Z :=
  stream [record MULTIBOOT_TAG_TYPE_LOAD_BASE_ADDR (le32 0x100000)].

Definition load_base_memory : mem := mem_of_bytes example_mb2i load_base_stream.

(** A stream of declared length 24 whose one record fills it, with no end
    record; the memory behind it happens to hold bytes that read as an ACPI
    record. *)
Definition overrun_bytes : list Z :=
  unterminated_stream
    [record MULTIBOOT_TAG_TYPE_BASIC_MEMINFO (le32 640 ++ le32 0x7FC00)]
  ++ record MULTIBOOT_TAG_TYPE_ACPI_OLD (le64 0x2052545020445352).

Definition overrun_memory : mem := mem_of_bytes example_mb2i overrun_bytes.

(** What a run leaves behind, for inspection. *)
Definition final_meta (o : outcome (Z * machine)) : option ARC_BootMeta :=
  match o with
  | Done (_, s) => Some (_boot_meta s)
  | _ => None
  end.

Definition final_calls (o : outcome (Z * machine)) : option (list call) :=
  match o with
  | Done (_, s) => Some (calls s)
  | _ => None
  end.

Definition walked (o : outcome (Z * frame * machine))
  : option (Z * list Z * ARC_BootMeta) :=
  match o with
  | Done (last, f, s) => Some (last, visited f, _boot_meta s)
  | _ => None
  end.

(** One memory map of two small regions: two and a half pages at
    [0x100000], one page at 0. *)
Definition small_map_stream : list Z :=
  stream [record MULTIBOOT_TAG_TYPE_MMAP
            (mmap_payload [(0x100000, 0x2800, 1); (0, 0x1000, 2)])].

Definition small_map_memory : mem := mem_of_bytes example_mb2i small_map_stream.

(** A memory map whose [entry_size] is [entry_size], with one 24-byte
    entry behind the header. *)
Definition odd_entry_size_stream (entry_size : Z) : list Z :=
  stream [record MULTIBOOT_TAG_TYPE_MMAP
            (le32 entry_size ++ le32 0 ++
             le64 0x100000 ++ le64 0x2000 ++ le32 1 ++ le32 0)].

Definition odd_entry_size_memory (entry_size : Z) : mem :=
  mem_of_bytes example_mb2i (odd_entry_size_stream entry_size).

(** The small map again, in a memory whose page at [0x500000] is filled
    with [0xAA]. *)
Definition dirty_memory : mem :=
  fun x =>
    if (0x500000 <=? x) && (x <? 0x501000) then 0xAA else small_map_memory x.

Definition returned (o : outcome (Z * machine)) : option Z :=
  match o with
  | Done (r, _) => Some r
  | _ => None
  end.

Definition final_byte (a : Z) (o : outcome (Z * machine)) : option Z :=
  match o with
  | Done (_, s) => Some (load8 (memory s) a)
  | _ => None
  end.

Definition divided_by_zero {A : Type} (o : outcome A) : bool :=
  match o with
  | DivideError _ => true
  | _ => false
  end.

(** ** The address macros of [arctan.h] *)

(** [ARC_PHYS_TO_HHDM(physical)] and [ARC_TO_HHDM_PHYS(hhdm)] (lines 34-35):
    both operands are cast to [uintptr_t] before they are added or
    subtracted. *)
Definition ARC_PHYS_TO_HHDM (s : machine) (physical : Z) : Z :=
  uintptr_t (uintptr_t physical + uintptr_t (ARC_HHDM_VADDR s)).

Definition ARC_TO_HHDM_PHYS (s : machine) (hhdm : Z) : Z :=
  uintptr_t (uintptr_t hhdm - uintptr_t (ARC_HHDM_VADDR s)).

(** ** Kinds of records *)

Definition module_records (m : mem) (ps : list Z) : list Z :=
  filter (has_kind m MULTIBOOT_TAG_TYPE_MODULE) ps.

Definition framebuffer_records (m : mem) (ps : list Z) : list Z :=
  filter (has_kind m MULTIBOOT_TAG_TYPE_FRAMEBUFFER) ps.

(** The call line 121 makes for the framebuffer record at [tag]. *)
Definition terminal_call (m : mem) (tag : Z) : call :=
  Call_Arc_SetTerm (uintptr_t (load64 m (tag + 8)))
    (load32 m (tag + 20)) (load32 m (tag + 24)) (load32 m (tag + 16)).

(** The kinds whose case changes something: the memory map, modules, the
    framebuffer, and the three labels that reach line 157. *)
Definition acts (m : mem) (tag : Z) : bool :=
  has_kind m MULTIBOOT_TAG_TYPE_MMAP tag ||
  has_kind m MULTIBOOT_TAG_TYPE_MODULE tag ||
  has_kind m MULTIBOOT_TAG_TYPE_FRAMEBUFFER tag ||
  writes_rsdp m tag.

(** A [map_page] call of the direct map that did not return [NULL]. *)
Definition mapped (c : call) : Prop :=
  match c with
  | Call_map_page _ _ _ flag ret => flag = 1 /\ ret <> 0
  | _ => False
  end.

(** A stream whose one record, a command line (kind 1), has a length field
    of 0. *)
Definition stalled_bytes : list Z :=
  le32 24 ++ le32 0 ++ le32 1 ++ le32 0 ++ le32 0 ++ le32 8.

Definition stalled_memory : mem := mem_of_bytes example_mb2i stalled_bytes.

(** A framebuffer at [0xFD000000], 1024 by 768 with a pitch of 4096, between
    a loader name and a record of a kind the switch does not know (17). *)
Definition framebuffer_stream : list Z :=
  stream [record MULTIBOOT_TAG_TYPE_BOOT_LOADER_NAME
            (bytes_of_string "GRUB" ++ [0]);
          record MULTIBOOT_TAG_TYPE_FRAMEBUFFER
            (le64 0xFD000000 ++ le32 4096 ++ le32 1024 ++ le32 768 ++
             [32; 1; 0; 0]);
          record 17 (le32 48 ++ le32 1)].

Definition framebuffer_memory : mem :=
  mem_of_bytes example_mb2i framebuffer_stream.

(** A loader name, the basic memory information and an unknown kind. *)
Definition passive_stream : list Z :=
  stream [record MULTIBOOT_TAG_TYPE_BOOT_LOADER_NAME
            (bytes_of_string "GRUB" ++ [0]);
          record MULTIBOOT_TAG_TYPE_BASIC_MEMINFO (le32 640 ++ le32 0x7FC00);
          record 17 (le32 48 ++ le32 1)].

Definition passive_memory : mem := mem_of_bytes example_mb2i passive_stream.

(** The small map followed by two modules and an ACPI record. *)
Definition full_stream : list Z :=
  stream [record MULTIBOOT_TAG_TYPE_MMAP
            (mmap_payload [(0x100000, 0x2800, 1); (0, 0x1000, 2)]);
          record MULTIBOOT_TAG_TYPE_MODULE
            (module_payload 0x200000 0x300000 kernel_name);
          record MULTIBOOT_TAG_TYPE_MODULE
            (module_payload 0x100000 0x140000 initramfs_name);
          record MULTIBOOT_TAG_TYPE_ACPI_NEW (le64 0x2052545020445352)].

Definition full_memory : mem := mem_of_bytes example_mb2i full_stream.

(** A region that covers the whole 64-bit address space but its last
    byte. *)
Definition whole_space : multiboot_mmap_entry :=
  mk_mmap_entry 0 (2 ^ 64 - 1) 1.

(** ** The page mapper, request by request *)

(** The requests [reqs] put to the page mapper one after the other, as line
    191 does: each is made after the calls made so far and with the root
    the request before it returned, and nothing is asked after a request
    that returned [NULL].  The result is the calls made and the root left,
    [None] after a failure. *)
Fixpoint serve (co : Collaborators) (reqs : list (Z * Z * Z))
  (cs : list call) (root : Z) : list call * option Z :=
  match reqs with
  | [] => (cs, Some root)
  | (vaddr, paddr, flag) :: rest =>
      let ret := map_page co cs root vaddr paddr flag in
      let cs' := cs ++ [Call_map_page root vaddr paddr flag ret] in
      if ret =? 0 then (cs', None) else serve co rest cs' ret
  end.

(** The page mapper fails none of the requests [reqs] put to it that
    way. *)
Definition served (co : Collaborators) (reqs : list (Z * Z * Z))
  (cs : list call) (root : Z) : bool :=
  match snd (serve co reqs cs root) with
  | Some _ => true
  | None => false
  end.

(** [maps] are [map_page] calls that succeeded, the first made with the
    root [root] and each later one with the root the one before returned;
    [final] is the root the last one returned. *)
Fixpoint chained (root : Z) (maps : list call) (final : Z) : Prop :=
  match maps with
  | [] => final = root
  | Call_map_page pml4 _ _ _ ret :: rest =>
      pml4 = root /\ ret <> 0 /\ chained ret rest final
  | _ :: _ => False
  end.

(** The state a loop of the direct map leaves when its requests were served
    as [r] says and its memory ended as [m]. *)
Definition after_serve (s : machine) (m : mem) (r : list call * option Z)
  : outcome machine :=
  match r with
  | (cs, Some root) =>
      Done (mkMachine m (_boot_meta s) (mb2_boot_info s) root cs)
  | (cs, None) =>
      Hang (mkMachine m (_boot_meta s) (mb2_boot_info s) 0 cs)
  end.

(** A [map_page] call whose virtual address is its physical address plus
    [hhdm], in 64 bits, with the flag 1. *)
Definition offset_by (hhdm : Z) (c : call) : Prop :=
  match c with
  | Call_map_page _ vaddr paddr flag _ =>
      flag = 1 /\ 0 <= paddr < 2 ^ 64 /\ vaddr = u64 (paddr + hhdm) /\
      u64 (vaddr - hhdm) = paddr
  | _ => False
  end.

(** ** The calls made before the direct map *)

(** What line 167 hands to [init_pmm] as the end of the bootstrapper: the
    largest of the link-time end and the [mod_end] of the module records
    among [ps]. *)
Definition footprint (m : mem) (img : Image) (ps : list Z) : Z :=
  fold_left Z.max (map (fun t => load32 m (t + 12)) (module_records m ps))
    (uintptr_t (__BOOTSTRAP_END__ img)).

(** The calls made when line 170 is reached, after a walk over the records
    [ps]: those made before the call of [read_mb2i], one [Arc_SetTerm] per
    framebuffer record, and [init_pmm]. *)
Definition calls_before_alloc (img : Image) (s : machine) (ps : list Z)
  : list call :=
  let m := memory s in
  calls s ++ map (terminal_call m) (framebuffer_records m ps) ++
  [Call_init_pmm (found_mmap m ps) (uintptr_t (footprint m img ps))].

(** What the allocator returns at line 170. *)
Definition buffer_of (co : Collaborators) (img : Image) (s : machine)
  (ps : list Z) : Z :=
  Arc_ListContiguousAlloc co (calls_before_alloc img s ps)
    (arc_mmap_pages (found_entries (memory s) ps)).

(** The calls made when the loop of line 180 is reached. *)
Definition calls_before_map (co : Collaborators) (img : Image) (s : machine)
  (ps : list Z) : list call :=
  calls_before_alloc img s ps ++
  [Call_Arc_ListContiguousAlloc (arc_mmap_pages (found_entries (memory s) ps))
     (buffer_of co img s ps)].

(** ** Streams placed high *)

(** An ACPI record in a stream placed above 2 GiB. *)
Definition high_mb2i : Z := 0x90000000.

Definition high_acpi_memory : mem :=
  mem_of_bytes high_mb2i
    (stream [record MULTIBOOT_TAG_TYPE_ACPI_NEW (le64 0x2052545020445352)]).

(** The small map in a stream placed 256 bytes below 4 GiB: eight times its
    length of 80 bytes reaches past the top of the address space. *)
Definition top_mb2i : Z := 0xFFFFFF00.

Definition top_memory : mem := mem_of_bytes top_mb2i small_map_stream.

(** The calls of a run that stopped in [ARC_HANG]. *)
Definition hung_calls (o : outcome (Z * machine)) : option (list call) :=
  match o with
  | Hang s => Some (calls s)
  | _ => None
  end.

(** The page-table root a run that returned has left. *)
Definition final_root (o : outcome (Z * machine)) : option Z :=
  match o with
  | Done (_, s) => Some (pml4 s)
  | _ => None
  end.

(** Collaborators whose page mapper answers every request with a new root,
    [0x1000] above the root it was given. *)
Definition growing (buffer : Z) : Collaborators :=
  mkCollaborators (fun _ _ => buffer) (fun _ pml4 _ _ _ => pml4 + 0x1000).

(** The same, except that the page mapper fails a request for the physical
    address [bad], whenever it is made. *)
Definition picky (buffer bad : Z) : Collaborators :=
  mkCollaborators (fun _ _ => buffer)
    (fun _ pml4 _ paddr _ => if paddr =? bad then 0 else pml4 + 0x1000).

(** A memory map whose length field, 12, is below the 16 bytes of its own
    header, with an [entry_size] of 1. *)
Definition short_map_memory : mem :=
  mem_of_bytes example_mb2i (stream [record MULTIBOOT_TAG_TYPE_MMAP (le32 1)]).

(** * Properties *)

(** ** Machine integers and memory *)

Arguments load32 : simpl never.
Arguments load64 : simpl never.
Arguments strcmp : simpl never.
Arguments u32 : simpl never.
Arguments u64 : simpl never.

Lemma u32_small (z : Z) : 0 <= z < 2 ^ 32 -> u32 z = z.
Proof. intros H. unfold u32, wrap. apply Z.mod_small. exact H. Qed.

Lemma u64_small (z : Z) : 0 <= z < 2 ^ 64 -> u64 z = z.
Proof. intros H. unfold u64, wrap. apply Z.mod_small. exact H. Qed.

Lemma u32_range (z : Z) : 0 <= u32 z < 2 ^ 32.
Proof. unfold u32, wrap. apply Z.mod_pos_bound. reflexivity. Qed.

Lemma u64_range (z : Z) : 0 <= u64 z < 2 ^ 64.
Proof. unfold u64, wrap. apply Z.mod_pos_bound. reflexivity. Qed.

Lemma int_small (z : Z) : 0 <= z < 2 ^ 31 -> int z = z.
Proof.
  intros H. unfold int. rewrite u32_small by lia.
  destruct (Z.ltb_spec z (2 ^ 31)); lia.
Qed.

Lemma load8_range (m : mem) (a : Z) : 0 <= load8 m a < 256.
Proof. unfold load8, u8, wrap. apply Z.mod_pos_bound. reflexivity. Qed.

Lemma load_le_range (n : nat) :
  forall m a, 0 <= load_le n m a < 256 ^ Z.of_nat n.
Proof.
  induction n as [|n IH]; intros m a.
  - simpl. lia.
  - cbn [load_le]. rewrite Nat2Z.inj_succ, Z.pow_succ_r by lia.
    pose proof (load8_range m a). pose proof (IH m (a + 1)). lia.
Qed.

Lemma load32_range (m : mem) (a : Z) : 0 <= load32 m a < 2 ^ 32.
Proof. exact (load_le_range 4 m a). Qed.

Lemma load64_range (m : mem) (a : Z) : 0 <= load64 m a < 2 ^ 64.
Proof. exact (load_le_range 8 m a). Qed.

(** A load sees only the bytes it covers. *)
Lemma load_le_ext (n : nat) :
  forall m1 m2 a,
    (forall x, a <= x < a + Z.of_nat n -> m1 x = m2 x) ->
    load_le n m1 a = load_le n m2 a.
Proof.
  induction n as [|n IH]; intros m1 m2 a H; [reflexivity|].
  cbn [load_le]. unfold load8. rewrite (H a) by lia.
  rewrite (IH m1 m2 (a + 1)); [reflexivity|].
  intros x Hx. apply H. lia.
Qed.

(** A store changes only the bytes it covers. *)
Lemma store_le_outside (n : nat) :
  forall m a v x,
    x < a \/ a + Z.of_nat n <= x -> store_le n m a v x = m x.
Proof.
  induction n as [|n IH]; intros m a v x H; [reflexivity|].
  cbn [store_le]. rewrite IH by lia.
  unfold store8. destruct (Z.eqb_spec x a); [lia|reflexivity].
Qed.

Lemma load_le_store_le (n : nat) :
  forall m a v, load_le n (store_le n m a v) a = v mod 256 ^ Z.of_nat n.
Proof.
  induction n as [|n IH]; intros m a v.
  - simpl. now rewrite Z.mod_1_r.
  - cbn [load_le store_le]. rewrite IH.
    unfold load8. rewrite store_le_outside by lia.
    unfold store8. rewrite Z.eqb_refl.
    unfold u8, wrap. rewrite Z.mod_mod by discriminate.
    rewrite Nat2Z.inj_succ, Z.pow_succ_r by lia.
    change (2 ^ 8) with 256.
    rewrite (Z.rem_mul_r v 256 (256 ^ Z.of_nat n)); [reflexivity|lia|].
    apply Z.pow_pos_nonneg; lia.
Qed.

Lemma load_le_store_le_disjoint (n k : nat) (m : mem) (a b v : Z) :
  a + Z.of_nat n <= b \/ b + Z.of_nat k <= a ->
  load_le n (store_le k m b v) a = load_le n m a.
Proof.
  intros H. apply load_le_ext. intros x Hx.
  apply store_le_outside. lia.
Qed.

Lemma load64_store64 (m : mem) (a v : Z) :
  0 <= v < 2 ^ 64 -> load64 (store64 m a v) a = v.
Proof.
  intros H. unfold load64, store64. rewrite load_le_store_le.
  apply Z.mod_small. exact H.
Qed.

Lemma load32_store32 (m : mem) (a v : Z) :
  load32 (store32 m a v) a = u32 v.
Proof. unfold load32, store32. now rewrite load_le_store_le. Qed.

Lemma memset_outside (m : mem) (p c n x : Z) :
  x < p \/ p + n <= x -> memset m p c n x = m x.
Proof.
  intros H. unfold memset.
  destruct (Z.leb_spec p x); destruct (Z.ltb_spec x (p + n)); simpl;
    try reflexivity; lia.
Qed.

(** ** The loop body *)

Ltac break_if :=
  match goal with
  | |- context [if ?c then _ else _] => destruct c eqn:?
  | H : context [if ?c then _ else _] |- _ => destruct c eqn:?
  end.

Ltac break_if_in H :=
  match type of H with
  | context [if ?c then _ else _] => destruct c eqn:?
  end.

Ltac dispatch_cases H :=
  unfold dispatch, case_mmap, case_module, case_framebuffer,
    case_load_base_addr, case_acpi in H;
  repeat break_if_in H; inversion H; subst; clear H.

(** What no record changes: memory, the page-table root and the ghost. *)
Lemma dispatch_keeps (tag : Z) (f f' : frame) (s s' : machine) :
  dispatch tag f s = Done (f', s') ->
  memory s' = memory s /\ pml4 s' = pml4 s /\ visited f' = visited f /\
  mbi_phys (mb2_boot_info s') = mbi_phys (mb2_boot_info s) /\
  map_requests (calls s') = map_requests (calls s).
Proof.
  intros H. dispatch_cases H; cbn; repeat split; try reflexivity.
  unfold map_requests. rewrite flat_map_app. cbn. now rewrite app_nil_r.
Qed.

Lemma dispatch_memory (tag : Z) (f f' : frame) (s s' : machine) :
  dispatch tag f s = Done (f', s') -> memory s' = memory s.
Proof. intros H. now apply dispatch_keeps in H. Qed.

Lemma dispatch_all_app (ps qs : list Z) :
  forall f s,
    dispatch_all (ps ++ qs) f s =
    do (f', s') <- dispatch_all ps f s ; dispatch_all qs f' s'.
Proof.
  induction ps as [|p ps IH]; intros f s; [reflexivity|].
  cbn [dispatch_all app].
  destruct (dispatch p (visit p f) s) as [[f1 s1]| | |]; cbn [bind];
    [apply IH|reflexivity..].
Qed.

Lemma dispatch_all_keeps (ps : list Z) :
  forall f s f' s',
    dispatch_all ps f s = Done (f', s') ->
    memory s' = memory s /\ pml4 s' = pml4 s /\
    visited f' = visited f ++ ps /\
    mbi_phys (mb2_boot_info s') = mbi_phys (mb2_boot_info s) /\
    map_requests (calls s') = map_requests (calls s).
Proof.
  induction ps as [|p ps IH]; intros f s f' s' H.
  - inversion H; subst. rewrite app_nil_r. repeat split; reflexivity.
  - cbn [dispatch_all] in H.
    destruct (dispatch p (visit p f) s) as [[f1 s1]| | |] eqn:E;
      cbn [bind] in H; try discriminate.
    apply dispatch_keeps in E. apply IH in H.
    destruct E as (E1 & E2 & E3 & E4 & E5).
    destruct H as (H1 & H2 & H3 & H4 & H5).
    repeat split; try congruence.
    rewrite H3, E3. cbn. now rewrite <- app_assoc.
Qed.

(** A record faults only if it is a memory map whose [entry_size] is 0. *)
Lemma dispatch_done (tag : Z) (f : frame) (s : machine) :
  (has_kind (memory s) MULTIBOOT_TAG_TYPE_MMAP tag = true ->
   divisible (memory s) tag) ->
  exists f' s', dispatch tag f s = Done (f', s').
Proof.
  intros H. unfold dispatch, case_mmap. unfold has_kind, divisible in H.
  destruct (load32 (memory s) tag =? MULTIBOOT_TAG_TYPE_MMAP).
  - specialize (H eq_refl).
    destruct (Z.eqb_spec (load32 (memory s) (tag + 8)) 0); [contradiction|].
    eauto.
  - repeat break_if;
      match goal with
      | |- exists f' s', Done ?x = _ =>
          exists (fst x), (snd x); destruct x; reflexivity
      end.
Qed.

Lemma dispatch_all_done (ps : list Z) :
  forall f s,
    Forall (divisible (memory s)) (mmap_records (memory s) ps) ->
    exists f' s', dispatch_all ps f s = Done (f', s').
Proof.
  induction ps as [|p ps IH]; intros f s H; [cbn; eauto|].
  cbn [dispatch_all].
  destruct (dispatch_done p (visit p f) s) as (f1 & s1 & E).
  - intros K. unfold mmap_records in H. cbn [filter] in H. rewrite K in H.
    now inversion H.
  - rewrite E. cbn [bind]. apply IH.
    rewrite (dispatch_memory _ _ _ _ _ E).
    unfold mmap_records in *. cbn [filter] in H.
    destruct (has_kind (memory s) MULTIBOOT_TAG_TYPE_MMAP p);
      [now inversion H|exact H].
Qed.

(** ** The walk follows the records *)

Lemma walk_records (m : mem) (end_ tag : Z) (ps : list Z) (last : Z) :
  records m end_ tag ps last ->
  forall fuel f s,
    memory s = m -> (length ps < fuel)%nat ->
    walk fuel end_ tag f s =
    do (f', s') <- dispatch_all ps f s ; Done (last, f', s').
Proof.
  induction 1 as [tag Hstop|tag ps last Hkind Hlt Hrec IH];
    intros fuel f s Hm Hfuel.
  - destruct fuel as [|fuel]; [inversion Hfuel|]. cbn [walk dispatch_all bind].
    rewrite Hm.
    destruct Hstop as [Hz|Hge].
    + rewrite Hz. reflexivity.
    + destruct (Z.ltb_spec tag end_); [lia|]. now rewrite andb_false_r.
  - destruct fuel as [|fuel]; [inversion Hfuel|]. cbn [walk dispatch_all].
    rewrite Hm.
    destruct (Z.eqb_spec (load32 m tag) MULTIBOOT_TAG_TYPE_END);
      [contradiction|].
    destruct (Z.ltb_spec tag end_); [|lia]. cbn [negb andb].
    destruct (dispatch tag (visit tag f) s) as [[f1 s1]| | |] eqn:E;
      cbn [bind]; try reflexivity.
    pose proof (dispatch_memory _ _ _ _ _ E) as Hm1.
    rewrite Hm1, Hm. apply IH; [congruence|].
    cbn [length] in Hfuel. lia.
Qed.

(** The converse: a walk that completes went through records. *)
Lemma walk_done_records (fuel : nat) :
  forall end_ tag f s last f' s',
    walk fuel end_ tag f s = Done (last, f', s') ->
    exists ps,
      records (memory s) end_ tag ps last /\ (length ps < fuel)%nat /\
      dispatch_all ps f s = Done (f', s').
Proof.
  induction fuel as [|fuel IH]; intros end_ tag f s last f' s' H;
    [discriminate|].
  cbn [walk] in H.
  destruct (Z.eqb_spec (load32 (memory s) tag) MULTIBOOT_TAG_TYPE_END) as [Hz|Hz];
    cbn [negb andb] in H.
  - inversion H; subst. exists []. split; [|split; [cbn; lia|reflexivity]].
    constructor. now left.
  - destruct (Z.ltb_spec tag end_) as [Hlt|Hge].
    + destruct (dispatch tag (visit tag f) s) as [[f1 s1]| | |] eqn:E;
        cbn [bind] in H; try discriminate.
      pose proof (dispatch_memory _ _ _ _ _ E) as Hm1.
      apply IH in H. destruct H as (ps & Hrec & Hlen & Hd).
      exists (tag :: ps). rewrite Hm1 in Hrec. split; [|split].
      * now constructor.
      * cbn. lia.
      * cbn [dispatch_all]. rewrite E. exact Hd.
    + inversion H; subst. exists []. split; [|split; [cbn; lia|reflexivity]].
      constructor. now right.
Qed.

(** ** The highest physical address *)

Lemma update_highest_max (e : multiboot_mmap_entry) (b : ARC_BootMeta) :
  highest_address (update_highest e b) = Z.max (highest_address b) (entry_end e).
Proof.
  unfold update_highest, entry_end.
  destruct (Z.ltb_spec (highest_address b) (u64 (e_addr e + e_len e))); cbn; lia.
Qed.

Lemma fold_update_highest (g : Z -> multiboot_mmap_entry) (l : list Z) :
  forall b,
    highest_address (fold_left (fun b i => update_highest (g i) b) l b) =
    fold_left Z.max (map (fun i => entry_end (g i)) l) (highest_address b).
Proof.
  induction l as [|i l IH]; intros b; [reflexivity|].
  cbn [fold_left map]. rewrite IH, update_highest_max. reflexivity.
Qed.

Lemma fold_max_ge (l : list Z) :
  forall a, a <= fold_left Z.max l a.
Proof.
  induction l as [|x l IH]; intros a; cbn; [lia|].
  specialize (IH (Z.max a x)). lia.
Qed.

Lemma fold_max_upper (l : list Z) :
  forall a x, In x l -> x <= fold_left Z.max l a.
Proof.
  induction l as [|y l IH]; intros a x Hin; [contradiction|].
  cbn. destruct Hin as [->|Hin]; [|now apply IH].
  pose proof (fold_max_ge l (Z.max a x)). lia.
Qed.

Lemma fold_max_attained (l : list Z) :
  forall a, fold_left Z.max l a = a \/ In (fold_left Z.max l a) l.
Proof.
  induction l as [|y l IH]; intros a; cbn; [now left|].
  destruct (IH (Z.max a y)) as [E|Hin]; [|now right; right].
  rewrite E. destruct (Z.max_spec a y) as [[_ ->]|[_ ->]]; [right|]; auto.
Qed.

Lemma dispatch_highest (tag : Z) (f f' : frame) (s s' : machine) :
  dispatch tag f s = Done (f', s') ->
  highest_address (_boot_meta s') =
  fold_left Z.max
    (map entry_end
       (if has_kind (memory s) MULTIBOOT_TAG_TYPE_MMAP tag
        then raw_entries (memory s) tag else []))
    (highest_address (_boot_meta s)).
Proof.
  intros H. unfold has_kind.
  destruct (load32 (memory s) tag =? MULTIBOOT_TAG_TYPE_MMAP) eqn:K.
  - unfold dispatch in H. rewrite K in H. unfold case_mmap in H.
    break_if; inversion H; subst; clear H. cbn [_boot_meta with_boot_meta].
    rewrite fold_update_highest. unfold raw_entries, entry_count.
    now rewrite map_map.
  - unfold dispatch in H. rewrite K in H. dispatch_cases H; reflexivity.
Qed.

Lemma dispatch_all_highest (ps : list Z) :
  forall f s f' s',
    dispatch_all ps f s = Done (f', s') ->
    highest_address (_boot_meta s') =
    fold_left Z.max (map entry_end (all_raw_entries (memory s) ps))
      (highest_address (_boot_meta s)).
Proof.
  induction ps as [|p ps IH]; intros f s f' s' H.
  - inversion H; subst. reflexivity.
  - cbn [dispatch_all] in H.
    destruct (dispatch p (visit p f) s) as [[f1 s1]| | |] eqn:E;
      cbn [bind] in H; try discriminate.
    apply IH in H. rewrite H, (dispatch_highest _ _ _ _ _ E).
    rewrite (dispatch_memory _ _ _ _ _ E).
    unfold all_raw_entries, mmap_records. cbn [filter].
    destruct (has_kind (memory s) MULTIBOOT_TAG_TYPE_MMAP p).
    + cbn [flat_map]. now rewrite map_app, fold_left_app.
    + reflexivity.
Qed.

Lemma firstn_prefix {A : Type} (l : list A) :
  forall k j, (k <= j)%nat -> exists r, firstn j l = firstn k l ++ r.
Proof.
  induction l as [|x l IH]; intros k j Hkj.
  - exists []. now rewrite !firstn_nil.
  - destruct k as [|k].
    + exists (firstn j (x :: l)). reflexivity.
    + destruct j as [|j]; [lia|].
      destruct (IH k j) as (r & E); [lia|].
      exists r. cbn. now rewrite E.
Qed.

(** C2. After a walk, [highest_address] is the maximum of its value before
    the walk and of [addr + len] (as the code adds them, in 64 bits) over
    the entries of every memory-map record: it bounds them all and is one
    of them.  It never decreases from one record of the walk to a later
    one, and the one assignment to it replaces it by a strictly larger
    value. *)
Theorem highest_address_running_maximum
  (m : mem) (end_ tag : Z) (ps : list Z) (last : Z) (f : frame) (s : machine) :
  records m end_ tag ps last ->
  memory s = m ->
  Forall (divisible m) (mmap_records m ps) ->
  exists f' s',
    walk (S (length ps)) end_ tag f s = Done (last, f', s') /\
    let before := highest_address (_boot_meta s) in
    let after := highest_address (_boot_meta s') in
    let ends := map entry_end (all_raw_entries m ps) in
    after = fold_left Z.max ends before /\
    before <= after /\
    (forall x, In x ends -> x <= after) /\
    (after = before \/ In after ends) /\
    (forall k j f1 s1 f2 s2,
        (k <= j)%nat ->
        dispatch_all (firstn k ps) f s = Done (f1, s1) ->
        dispatch_all (firstn j ps) f s = Done (f2, s2) ->
        highest_address (_boot_meta s1) <= highest_address (_boot_meta s2)) /\
    (forall e b,
        highest_address (update_highest e b) = highest_address b \/
        highest_address b < highest_address (update_highest e b) /\
        highest_address (update_highest e b) = entry_end e).
Proof.
  intros Hrec Hm Hdiv.
  destruct (dispatch_all_done ps f s) as (f' & s' & Hd);
    [now rewrite Hm|].
  exists f', s'. split.
  - rewrite (walk_records _ _ _ _ _ Hrec) by (auto; lia).
    now rewrite Hd.
  - pose proof (dispatch_all_highest _ _ _ _ _ Hd) as Hh. rewrite Hm in Hh.
    cbv zeta. rewrite Hh. repeat split.
    + apply fold_max_ge.
    + intros x Hx. now apply fold_max_upper.
    + apply fold_max_attained.
    + intros k j f1 s1 f2 s2 Hkj H1 H2.
      destruct (firstn_prefix ps k j Hkj) as (r & E).
      rewrite E, dispatch_all_app, H1 in H2. cbn [bind] in H2.
      rewrite (dispatch_all_highest _ _ _ _ _ H2). apply fold_max_ge.
    + intros e b. rewrite update_highest_max.
      destruct (Z.max_spec (highest_address b) (entry_end e)) as [[Hlt ->]|[_ ->]];
        [right; split; [exact Hlt|reflexivity]|now left].
Qed.

(** Discharges [records] on a concrete memory, position by position. *)
Ltac eval_position :=
  match goal with
  | |- records ?m ?e ?t ?ps ?l =>
      let t' := eval vm_compute in t in
      tryif constr_eq t t' then idtac
      else replace t with t' by (vm_compute; reflexivity)
  end.

Ltac step_records :=
  eval_position;
  match goal with
  | |- records ?m ?e ?t [] _ =>
      apply records_stop; vm_compute;
      first [left; reflexivity | right; discriminate]
  | |- records ?m ?e ?t (_ :: _) _ =>
      apply records_next;
      [ vm_compute; discriminate
      | vm_compute; reflexivity
      | ]
  end.

Ltac solve_records := repeat step_records.

(** Discharges [Forall P l] on a concrete list, element by element. *)
Ltac solve_forall :=
  match goal with
  | |- Forall ?P ?l =>
      let l' := eval vm_compute in l in
      replace l with l' by (vm_compute; reflexivity);
      repeat constructor
  end.

(** On the map of the regions [0x100000 .. 0x1100000) and [0 .. 0x100000)
    the walk ends with [highest_address = 0x1100000]. *)
Lemma highest_address_running_maximum_witness :
  exists f' s',
    walk 2 (walk_end two_region_memory example_mb2i) (walk_start example_mb2i)
      (initial_frame example_image) (boot_machine two_region_memory)
    = Done (0x10048, f', s') /\
    highest_address (_boot_meta s') = 0x1100000.
Proof.
  destruct (highest_address_running_maximum two_region_memory
              (walk_end two_region_memory example_mb2i)
              (walk_start example_mb2i) [0x10008] 0x10048
              (initial_frame example_image) (boot_machine two_region_memory))
    as (f' & s' & Hw & Hmax & _).
  - solve_records.
  - reflexivity.
  - solve_forall. vm_compute. discriminate.
  - exists f', s'. split; [exact Hw|].
    rewrite Hmax. vm_compute. reflexivity.
Defined.

(** ** Comparing names *)

Lemma seq_map_shift {A : Type} (g : nat -> A) (n : nat) :
  map g (seq 1 n) = map (fun i => g (S i)) (seq 0 n).
Proof. now rewrite <- seq_shift, map_map. Qed.

(** [strcmp] returns 0 exactly on the literal followed by a NUL. *)
Lemma strcmp_bytes_zero_iff (m : mem) (lit : list Z) :
  forall a, strcmp_bytes m a lit = 0 <-> c_string_at m a lit.
Proof.
  unfold c_string_at.
  induction lit as [|c lit IH]; intros a.
  - cbn. rewrite Z.add_0_r. split; [now intros ->|now intros [= ->]].
  - cbn [strcmp_bytes length app].
    change (seq 0 (S (S (length lit)))) with (0%nat :: seq 1 (S (length lit))).
    cbn [map]. rewrite seq_map_shift.
    change (Z.of_nat 0) with 0. rewrite Z.add_0_r.
    assert (Hshift :
      map (fun i => load8 m (a + Z.of_nat (S i))) (seq 0 (S (length lit))) =
      map (fun i => load8 m (a + 1 + Z.of_nat i)) (seq 0 (S (length lit)))).
    { apply map_ext. intros i. f_equal. lia. }
    rewrite Hshift.
    destruct (Z.eqb_spec (load8 m a) c) as [->|Hne].
    + split.
      * intros H. apply IH in H. f_equal. exact H.
      * intros [= E]. apply IH. exact E.
    + split; [lia|intros [= E _]; contradiction].
Qed.

Lemma strcmp_bytes_diverge (m : mem) (pre : list Z) :
  forall a c1 r1 c2 r2,
    c1 <> c2 ->
    strcmp_bytes m a (pre ++ c1 :: r1) = 0 ->
    strcmp_bytes m a (pre ++ c2 :: r2) <> 0.
Proof.
  induction pre as [|p pre IH]; intros a c1 r1 c2 r2 Hne H.
  - cbn [app strcmp_bytes] in *.
    destruct (Z.eqb_spec (load8 m a) c1) as [E|E]; [|lia].
    destruct (Z.eqb_spec (load8 m a) c2) as [E'|E']; [congruence|lia].
  - cbn [app strcmp_bytes] in *.
    destruct (Z.eqb_spec (load8 m a) p) as [E|E]; [|lia].
    now apply IH with (c1 := c1) (r1 := r1).
Qed.

(** No command line is both names. *)
Lemma kernel_name_not_initramfs (m : mem) (a : Z) :
  strcmp m a kernel_name = 0 -> strcmp m a initramfs_name <> 0.
Proof.
  unfold strcmp.
  replace (bytes_of_string kernel_name)
    with (bytes_of_string "arctan-module." ++
          107 :: bytes_of_string "ernel.elf") by (vm_compute; reflexivity).
  replace (bytes_of_string initramfs_name)
    with (bytes_of_string "arctan-module." ++
          105 :: bytes_of_string "nitramfs.cpio") by (vm_compute; reflexivity).
  apply strcmp_bytes_diverge. discriminate.
Qed.

(** ** The last record of a kind decides *)

Lemma last_of_cons (x : Z) (l : list Z) :
  last_of (x :: l) = match last_of l with
                     | Some y => Some y
                     | None => Some x
                     end.
Proof.
  unfold last_of. cbn [rev]. destruct (rev l); reflexivity.
Qed.

(** A quantity that every record either leaves alone or overwrites holds,
    after the records [ps], what the last overwriting record put there. *)
Lemma last_writer {A : Type} (get : frame -> machine -> A)
  (writes : Z -> bool) (value : Z -> A) (m : mem) :
  (forall p f s, get (visit p f) s = get f s) ->
  (forall p f s f' s',
      memory s = m -> dispatch p f s = Done (f', s') ->
      get f' s' = if writes p then value p else get f s) ->
  forall ps f s f' s',
    memory s = m ->
    dispatch_all ps f s = Done (f', s') ->
    get f' s' = match last_of (filter writes ps) with
                | Some t => value t
                | None => get f s
                end.
Proof.
  intros Hvisit Hstep.
  induction ps as [|p ps IH]; intros f s f' s' Hm H.
  - inversion H; subst. reflexivity.
  - cbn [dispatch_all] in H.
    destruct (dispatch p (visit p f) s) as [[f1 s1]| | |] eqn:E;
      cbn [bind] in H; try discriminate.
    pose proof (Hstep _ _ _ _ _ Hm E) as H1. rewrite Hvisit in H1.
    apply IH in H; [|now rewrite (dispatch_memory _ _ _ _ _ E)].
    rewrite H. cbn [filter].
    destruct (writes p).
    + rewrite last_of_cons.
      destruct (last_of (filter writes ps)); [reflexivity|exact H1].
    + destruct (last_of (filter writes ps)); [reflexivity|exact H1].
Qed.

Lemma fold_update_highest_only (g : Z -> multiboot_mmap_entry) (l : list Z) :
  forall b, exists v,
    fold_left (fun b i => update_highest (g i) b) l b = set_highest_address v b.
Proof.
  induction l as [|i l IH]; intros b; cbn [fold_left].
  - exists (highest_address b). now destruct b.
  - destruct (IH (update_highest (g i) b)) as [v E]. exists v. rewrite E.
    unfold update_highest.
    destruct (highest_address b <? u64 (e_addr (g i) + e_len (g i)));
      reflexivity.
Qed.

Ltac name_eqs :=
  repeat match goal with
    | H : (_ =? _) = true |- _ => apply Z.eqb_eq in H
    | H : (_ =? _) = false |- _ => apply Z.eqb_neq in H
    end.

Ltac after_mmap :=
  match goal with
  | |- context [fold_left (fun acc k => update_highest (@?g k) acc) ?l ?b] =>
      let v := fresh "v" in
      let E := fresh "E" in
      destruct (fold_update_highest_only g l b) as [v E];
      cbv beta in E; rewrite E; clear E
  end.

Ltac settle_kinds tag :=
  name_eqs;
  repeat match goal with
    | H : load32 _ tag = _ |- _ => rewrite H
    | H : strcmp _ _ _ = 0 |- _ => rewrite H
    end; cbn; try reflexivity;
  repeat match goal with
    | |- context [load32 ?m tag =? ?k] =>
        destruct (Z.eqb_spec (load32 m tag) k); try contradiction; cbn
    | |- context [strcmp ?m ?a ?n =? 0] =>
        destruct (Z.eqb_spec (strcmp m a n) 0); try contradiction; cbn
    end; try reflexivity; try congruence.

Ltac dispatch_effect H tag :=
  dispatch_cases H;
  cbn [_boot_meta with_boot_meta with_mb2_boot_info record_call
       mmap entries bootstrap_end];
  try after_mmap; settle_kinds tag.

Lemma dispatch_kernel_elf (tag : Z) (f f' : frame) (s s' : machine) :
  dispatch tag f s = Done (f', s') ->
  kernel_elf (_boot_meta s') =
  if names_module (memory s) kernel_name tag
  then load32 (memory s) (tag + 8) else kernel_elf (_boot_meta s).
Proof.
  intros H. unfold names_module, has_kind. dispatch_effect H tag.
Qed.

Lemma dispatch_initramfs (tag : Z) (f f' : frame) (s s' : machine) :
  dispatch tag f s = Done (f', s') ->
  (initramfs (_boot_meta s'), initramfs_size (_boot_meta s')) =
  if names_module (memory s) initramfs_name tag
  then (load32 (memory s) (tag + 8),
        u32 (load32 (memory s) (tag + 12) - load32 (memory s) (tag + 8)))
  else (initramfs (_boot_meta s), initramfs_size (_boot_meta s)).
Proof.
  intros H. unfold names_module, has_kind. dispatch_effect H tag.
  all: exfalso; eapply kernel_name_not_initramfs; eassumption.
Qed.

Lemma dispatch_rsdp (tag : Z) (f f' : frame) (s s' : machine) :
  dispatch tag f s = Done (f', s') ->
  rsdp (_boot_meta s') =
  if writes_rsdp (memory s) tag then pointer_to_u64 (tag + 8)
  else rsdp (_boot_meta s).
Proof.
  intros H. unfold writes_rsdp, has_kind. dispatch_effect H tag.
Qed.

Lemma dispatch_mmap (tag : Z) (f f' : frame) (s s' : machine) :
  dispatch tag f s = Done (f', s') ->
  (mmap f', entries f') =
  if has_kind (memory s) MULTIBOOT_TAG_TYPE_MMAP tag
  then (tag, entry_count (memory s) tag) else (mmap f, entries f).
Proof.
  intros H. unfold has_kind, entry_count. dispatch_effect H tag.
Qed.

(** ** Modules *)

Lemma names_module_exact (m : mem) (name : string) (tag : Z) :
  names_module m name tag = true <->
  load32 m tag = MULTIBOOT_TAG_TYPE_MODULE /\
  c_string_at m (tag + 16) (bytes_of_string name).
Proof.
  unfold names_module, has_kind, strcmp.
  rewrite andb_true_iff, !Z.eqb_eq, strcmp_bytes_zero_iff. reflexivity.
Qed.

(** C5, amended.  Module names are compared as exact strings, and the last
    match wins: after the walk [kernel_elf] is the [mod_start] of the last
    module record named as the kernel, and [initramfs] and [initramfs_size]
    are the [mod_start] and [mod_end - mod_start] of the last module record
    named as the initramfs; without such a record the fields keep their
    values. *)
Theorem last_matching_module_wins
  (m : mem) (end_ tag : Z) (ps : list Z) (last : Z) (f : frame) (s : machine) :
  records m end_ tag ps last ->
  memory s = m ->
  Forall (divisible m) (mmap_records m ps) ->
  exists f' s',
    walk (S (length ps)) end_ tag f s = Done (last, f', s') /\
    kernel_elf (_boot_meta s') =
      match last_of (filter (names_module m kernel_name) ps) with
      | Some t => load32 m (t + 8)
      | None => kernel_elf (_boot_meta s)
      end /\
    (initramfs (_boot_meta s'), initramfs_size (_boot_meta s')) =
      match last_of (filter (names_module m initramfs_name) ps) with
      | Some t => (load32 m (t + 8), u32 (load32 m (t + 12) - load32 m (t + 8)))
      | None => (initramfs (_boot_meta s), initramfs_size (_boot_meta s))
      end /\
    (forall name t,
        names_module m name t = true <->
        load32 m t = MULTIBOOT_TAG_TYPE_MODULE /\
        c_string_at m (t + 16) (bytes_of_string name)).
Proof.
  intros Hrec Hm Hdiv.
  destruct (dispatch_all_done ps f s) as (f' & s' & Hd);
    [now rewrite Hm|].
  exists f', s'. split; [|split; [|split]].
  - rewrite (walk_records _ _ _ _ _ Hrec) by (auto; lia).
    now rewrite Hd.
  - apply (last_writer (fun _ s => kernel_elf (_boot_meta s))
             (names_module m kernel_name) (fun t => load32 m (t + 8)) m)
      with (f := f) (f' := f'); auto.
    intros p f0 s0 f1 s1 Hm0 H. rewrite <- Hm0.
    now apply dispatch_kernel_elf with (f := f0) (f' := f1).
  - apply (last_writer
             (fun _ s => (initramfs (_boot_meta s), initramfs_size (_boot_meta s)))
             (names_module m initramfs_name)
             (fun t => (load32 m (t + 8),
                        u32 (load32 m (t + 12) - load32 m (t + 8)))) m)
      with (f := f) (f' := f'); auto.
    intros p f0 s0 f1 s1 Hm0 H. rewrite <- Hm0.
    now apply dispatch_initramfs with (f := f0) (f' := f1).
  - intros name t. apply names_module_exact.
Qed.

(** On the stream with two kernel modules the second base is kept. *)
Lemma last_matching_module_wins_witness :
  exists f' s',
    walk 4 (walk_end two_kernel_memory example_mb2i) (walk_start example_mb2i)
      (initial_frame example_image) (boot_machine two_kernel_memory)
    = Done (0x10098, f', s') /\
    kernel_elf (_boot_meta s') = 0x400000 /\
    (initramfs (_boot_meta s'), initramfs_size (_boot_meta s')) =
    (0x600000, 0x100800).
Proof.
  destruct (last_matching_module_wins two_kernel_memory
              (walk_end two_kernel_memory example_mb2i)
              (walk_start example_mb2i) [0x10008; 0x10038; 0x10068] 0x10098
              (initial_frame example_image) (boot_machine two_kernel_memory))
    as (f' & s' & Hw & Hk & Hi & _).
  - solve_records.
  - reflexivity.
  - solve_forall.
  - exists f', s'. split; [exact Hw|]. split.
    + rewrite Hk. vm_compute. reflexivity.
    + rewrite Hi. vm_compute. reflexivity.
Defined.

(** C5 as stated fails: with two modules named as the kernel, at
    [0x200000] and then at [0x400000], [kernel_elf] ends as the base of the
    second. *)
Lemma first_matching_module_does_not_win :
  let m := two_kernel_memory in
  names_module m kernel_name 0x10008 = true /\
  names_module m kernel_name 0x10038 = true /\
  load32 m (0x10008 + 8) = 0x200000 /\
  load32 m (0x10038 + 8) = 0x400000 /\
  option_map kernel_elf
    (final_meta (read_mb2i (steady 0x500000) example_image 4 example_mb2i
                   (boot_machine m))) = Some 0x400000.
Proof. vm_compute. repeat split; reflexivity. Qed.

(** ** The ACPI root pointer *)

Lemma rsdp_after_walk
  (m : mem) (end_ tag : Z) (ps : list Z) (last : Z) (f : frame) (s : machine) :
  records m end_ tag ps last ->
  memory s = m ->
  Forall (divisible m) (mmap_records m ps) ->
  exists f' s',
    walk (S (length ps)) end_ tag f s = Done (last, f', s') /\
    rsdp (_boot_meta s') =
      match last_of (filter (writes_rsdp m) ps) with
      | Some t => pointer_to_u64 (t + 8)
      | None => rsdp (_boot_meta s)
      end.
Proof.
  intros Hrec Hm Hdiv.
  destruct (dispatch_all_done ps f s) as (f' & s' & Hd);
    [now rewrite Hm|].
  exists f', s'. split.
  - rewrite (walk_records _ _ _ _ _ Hrec) by (auto; lia).
    now rewrite Hd.
  - apply (last_writer (fun _ s => rsdp (_boot_meta s))
             (writes_rsdp m) (fun t => pointer_to_u64 (t + 8)) m)
      with (f := f) (f' := f'); auto.
    intros p f0 s0 f1 s1 Hm0 H. rewrite <- Hm0.
    now apply dispatch_rsdp with (f := f0) (f' := f1).
Qed.

(** C9 at its failing input: the stream holds one load-base-address record
    and no ACPI record, and the walk leaves [rsdp] 8 bytes past that
    record. *)
Theorem load_base_addr_record_writes_rsdp :
  let m := load_base_memory in
  walked (walk 2 (walk_end m example_mb2i) (walk_start example_mb2i)
            (initial_frame example_image) (boot_machine m))
  = Some (0x10018, [0x10008], set_rsdp (0x10008 + 8) zero_boot_meta) /\
  load32 m 0x10008 = MULTIBOOT_TAG_TYPE_LOAD_BASE_ADDR /\
  option_map rsdp
    (final_meta (read_mb2i (steady 0x500000) example_image 2 example_mb2i
                   (boot_machine m))) = Some 0x10010.
Proof. vm_compute. repeat split; reflexivity. Qed.

(** ** The bound of the walk *)

Lemma walk_end_scaled (m : mem) (mb2i : Z) :
  walk_end m mb2i = uintptr_t (mb2i + 8 * load32 m mb2i).
Proof. reflexivity. Qed.

Lemma ALIGN_8_ge (v : Z) : v <= ALIGN v 8 < v + 8.
Proof.
  unfold ALIGN.
  pose proof (Z.div_mod (v + (8 - 1)) 8).
  pose proof (Z.mod_pos_bound (v + (8 - 1)) 8). lia.
Qed.

Lemma laid_out_records (m : mem) (end_ : Z) (tag : Z) (ps : list Z) (stop : Z) :
  laid_out m tag ps stop ->
  0 <= tag -> stop < 2 ^ 32 -> stop <= end_ ->
  records m end_ tag ps (stop - 8) /\
  tag + 8 <= stop /\
  Forall (fun p => tag <= p /\ p + 16 <= stop) ps /\
  StronglySorted Z.lt ps.
Proof.
  induction 1 as [tag Hz|tag ps stop Hk Hsize Hrest IH]; intros H0 Hs He.
  - replace (tag + 8 - 8) with tag by lia.
    repeat split; [constructor; now left|lia|constructor|constructor].
  - pose proof (ALIGN_8_ge (load32 m (tag + 4))) as Ha.
    destruct IH as (Hrec & Hle & Hall & Hsorted); [lia|lia|lia|].
    repeat split.
    + constructor; [exact Hk|lia|].
      unfold next_tag, uintptr_t. rewrite u32_small by lia. exact Hrec.
    + lia.
    + constructor; [lia|].
      eapply Forall_impl; [|exact Hall]. cbv beta. intros p Hp. lia.
    + constructor; [exact Hsorted|].
      eapply Forall_impl; [|exact Hall]. cbv beta. intros p Hp. lia.
Qed.

(** Over a stream that ends in an end record within its declared length,
    and whose scaled bound stays inside the 32-bit address space, the walk
    runs the loop body on the records, each once and in the order of their
    offsets, reads no header outside the declared length and stops at the
    end record. *)
Lemma walk_of_terminated_stream (m : mem) (mb2i : Z) (ps : list Z)
  (f : frame) (s : machine) :
  terminated m mb2i ps ->
  mb2i + 8 * load32 m mb2i < 2 ^ 32 ->
  memory s = m ->
  Forall (divisible m) (mmap_records m ps) ->
  exists f' s',
    walk (S (length ps)) (walk_end m mb2i) (walk_start mb2i) f s =
      Done (mb2i + load32 m mb2i - 8, f', s') /\
    visited f' = visited f ++ ps /\
    StronglySorted Z.lt ps /\
    Forall (fun p => mb2i + 8 <= p /\ p + 16 <= mb2i + load32 m mb2i) ps.
Proof.
  intros (H0 & Hs & Hlaid) Hw Hm Hdiv.
  pose proof (load32_range m mb2i) as Hr.
  destruct (laid_out_records m (walk_end m mb2i) _ _ _ Hlaid)
    as (Hrec & Hlen & Hall & Hsorted);
    [lia|lia|
     unfold walk_end, sizeof_multiboot_tag, uintptr_t;
     rewrite u32_small; lia|].
  destruct (dispatch_all_done ps f s) as (f' & s' & Hd); [now rewrite Hm|].
  exists f', s'. repeat split; auto.
  - unfold walk_start, uintptr_t. rewrite u32_small by lia.
    rewrite (walk_records _ _ _ _ _ Hrec) by (auto; lia). now rewrite Hd.
  - now apply dispatch_all_keeps in Hd.
Qed.

(** C1 at its failing input: the stream declares 24 bytes, which its one
    record fills.  The bound of the walk is 192 bytes past the start, the
    walk reads the header at offset 24 and runs the loop body on it, and
    [rsdp] is taken from there. *)
Theorem walk_runs_past_declared_length :
  let m := overrun_memory in
  load32 m example_mb2i = 24 /\
  walk_end m example_mb2i = example_mb2i + 192 /\
  walked (walk 3 (walk_end m example_mb2i) (walk_start example_mb2i)
            (initial_frame example_image) (boot_machine m))
  = Some (example_mb2i + 40,
          [example_mb2i + 8; example_mb2i + 24],
          set_rsdp (example_mb2i + 32) zero_boot_meta).
Proof. vm_compute. repeat split; reflexivity. Qed.

(** ** One region of the direct map *)

Lemma map_requests_app (cs ds : list call) :
  map_requests (cs ++ ds) = map_requests cs ++ map_requests ds.
Proof. apply flat_map_app. Qed.

Lemma steps_from_succ (k0 : Z) (n : nat) :
  steps_from k0 (S n) = k0 :: steps_from (k0 + 1) n.
Proof.
  unfold steps_from. cbn [seq map]. rewrite Z.add_0_r. f_equal.
  rewrite <- seq_shift, map_map. apply map_ext. intros i. lia.
Qed.

Lemma page_steps_done (len k : Z) :
  page_steps len = k -> len <= 0x1000 * k.
Proof.
  unfold page_steps. intros <-.
  pose proof (Z.mul_div_le (len + 0xFFF) 0x1000 eq_refl).
  pose proof (Z.mod_pos_bound (len + 0xFFF) 0x1000 eq_refl).
  pose proof (Z.div_mod (len + 0xFFF) 0x1000). lia.
Qed.

Lemma page_steps_more (len k : Z) :
  k < page_steps len -> 0x1000 * k < len.
Proof.
  unfold page_steps. intros H.
  pose proof (Z.mod_pos_bound (len + 0xFFF) 0x1000 eq_refl).
  pose proof (Z.div_mod (len + 0xFFF) 0x1000). lia.
Qed.

(** The inner loop touches the page-table root and the calls only. *)
Lemma map_region_keeps (co : Collaborators) (e : multiboot_mmap_entry)
  (fuel : nat) :
  forall j s s',
    map_region fuel co e j s = Done s' \/ map_region fuel co e j s = Hang s' ->
    memory s' = memory s /\ _boot_meta s' = _boot_meta s /\
    mb2_boot_info s' = mb2_boot_info s.
Proof.
  induction fuel as [|fuel IH]; intros j s s' H;
    [destruct H; discriminate|].
  cbn [map_region] in H. destruct (j <? e_len e).
  - match type of H with
    | context [if ?c then _ else _] => destruct c
    end.
    + destruct H as [H|H]; [discriminate|]. inversion H; subst.
      repeat split; reflexivity.
    + apply IH in H. cbn in H. exact H.
  - destruct H as [H|H]; [|discriminate]. inversion H; subst.
    repeat split; reflexivity.
Qed.

(** ** Slots of the normalized map *)

Lemma store_ARC_MMap_outside (m : mem) (p : Z) (e : ARC_MMap) (x : Z) :
  x < p \/ p + sizeof_ARC_MMap <= x -> store_ARC_MMap m p e x = m x.
Proof.
  unfold sizeof_ARC_MMap, store_ARC_MMap, store32, store64. intros H. cbv zeta.
  rewrite !store_le_outside; [reflexivity|cbn; lia..].
Qed.

Lemma int_u32 (z : Z) : int (u32 z) = int z.
Proof.
  unfold int. now rewrite (u32_small (u32 z)) by apply u32_range.
Qed.

Lemma u32_int (z : Z) : u32 (int z) = u32 z.
Proof.
  unfold int. pose proof (u32_range z).
  destruct (Z.ltb_spec (u32 z) (2 ^ 31)).
  - apply u32_small. lia.
  - unfold u32, wrap.
    replace (z mod 2 ^ 32 - 2 ^ 32) with (z mod 2 ^ 32 + (-1) * 2 ^ 32) by lia.
    rewrite Z.mod_add by discriminate. apply Z.mod_mod. discriminate.
Qed.

Lemma int_int (z : Z) : int (int z) = int z.
Proof. unfold int at 1. rewrite u32_int. reflexivity. Qed.

Lemma load_store_ARC_MMap (m : mem) (p : Z) (e : multiboot_mmap_entry) :
  in_u64 (e_addr e) -> in_u64 (e_len e) ->
  load_ARC_MMap (store_ARC_MMap m p (normalized e)) p = normalized e.
Proof.
  unfold in_u64. intros Ha Hl.
  unfold load_ARC_MMap, store_ARC_MMap, normalized. cbn [type base len].
  f_equal.
  - rewrite load32_store32, int_u32. apply int_int.
  - unfold load64, store32. rewrite load_le_store_le_disjoint by (cbn; lia).
    unfold store64. rewrite load_le_store_le_disjoint by (cbn; lia).
    fold (store64 m (p + 4) (e_addr e)) (load64 (store64 m (p + 4) (e_addr e)) (p + 4)).
    now apply load64_store64.
  - unfold load64, store32. rewrite load_le_store_le_disjoint by (cbn; lia).
    fold (store64 (store64 m (p + 4) (e_addr e)) (p + 12) (e_len e)).
    fold (load64 (store64 (store64 m (p + 4) (e_addr e)) (p + 12) (e_len e)) (p + 12)).
    now apply load64_store64.
Qed.

Lemma load_ARC_MMap_ext (m1 m2 : mem) (p : Z) :
  agree p (p + sizeof_ARC_MMap) m1 m2 ->
  load_ARC_MMap m1 p = load_ARC_MMap m2 p.
Proof.
  unfold agree, sizeof_ARC_MMap. intros H. unfold load_ARC_MMap, load32, load64.
  rewrite (load_le_ext 4 m1 m2 p), (load_le_ext 8 m1 m2 (p + 4)),
    (load_le_ext 8 m1 m2 (p + 12)); [reflexivity|intros x Hx; apply H; lia..].
Qed.

Lemma load_mmap_entry_ext (m1 m2 : mem) (mmap n i : Z) :
  agree (mmap + sizeof_multiboot_tag_mmap)
    (mmap + sizeof_multiboot_tag_mmap + sizeof_multiboot_mmap_entry * n) m1 m2 ->
  0 <= i < n ->
  load_mmap_entry m1 mmap i = load_mmap_entry m2 mmap i.
Proof.
  unfold agree, sizeof_multiboot_tag_mmap, sizeof_multiboot_mmap_entry.
  intros H Hi.
  unfold load_mmap_entry, mmap_entry_at, sizeof_multiboot_tag_mmap,
    sizeof_multiboot_mmap_entry, load32, load64.
  cbv zeta.
  rewrite (load_le_ext 8 m1 m2 (mmap + 16 + 24 * i)),
    (load_le_ext 8 m1 m2 (mmap + 16 + 24 * i + 8)),
    (load_le_ext 4 m1 m2 (mmap + 16 + 24 * i + 16));
    [reflexivity|intros x Hx; apply H; lia..].
Qed.

Lemma load_mmap_entry_range (m : mem) (mmap i : Z) :
  in_u64 (e_addr (load_mmap_entry m mmap i)) /\
  in_u64 (e_len (load_mmap_entry m mmap i)).
Proof. split; apply load64_range. Qed.

(** Storing a slot of the buffer leaves the raw entries alone. *)
Lemma store_slot_agree (m0 m : mem) (mmap p n i : Z) (e : ARC_MMap) :
  apart p mmap n -> 0 <= i < n ->
  agree (mmap + sizeof_multiboot_tag_mmap)
    (mmap + sizeof_multiboot_tag_mmap + sizeof_multiboot_mmap_entry * n) m0 m ->
  agree (mmap + sizeof_multiboot_tag_mmap)
    (mmap + sizeof_multiboot_tag_mmap + sizeof_multiboot_mmap_entry * n) m0
    (store_ARC_MMap m (arc_mmap_slot p i) e).
Proof.
  unfold apart, agree, arc_mmap_slot, sizeof_multiboot_tag_mmap,
    sizeof_multiboot_mmap_entry.
  intros Hap Hi H x Hx.
  rewrite store_ARC_MMap_outside; [now apply H|].
  unfold sizeof_ARC_MMap in *. lia.
Qed.

Lemma int_range_steps (n : Z) : int_range n = steps_from 0 (Z.to_nat n).
Proof. reflexivity. Qed.

(** After the copies, every slot written holds its raw entry, and nothing
    outside the slots has changed. *)
Lemma copy_entries_spec (m0 : mem) (mmap p n : Z) (cnt : nat) :
  forall (i0 : Z) (m : mem),
    apart p mmap n -> 0 <= i0 -> i0 + Z.of_nat cnt <= n ->
    agree (mmap + sizeof_multiboot_tag_mmap)
      (mmap + sizeof_multiboot_tag_mmap + sizeof_multiboot_mmap_entry * n) m0 m ->
    let m' := copy_entries m mmap p (steps_from i0 cnt) in
    (forall x,
        x < arc_mmap_slot p i0 \/ arc_mmap_slot p (i0 + Z.of_nat cnt) <= x ->
        m' x = m x) /\
    (forall i,
        i0 <= i < i0 + Z.of_nat cnt ->
        load_ARC_MMap m' (arc_mmap_slot p i) =
        normalized (load_mmap_entry m0 mmap i)).
Proof.
  induction cnt as [|cnt IH]; intros i0 m Hap Hi0 Hn Hag; cbv zeta.
  - cbn. split; [reflexivity|intros i Hi; lia].
  - rewrite steps_from_succ. cbn [copy_entries].
    set (m1 := store_ARC_MMap m (arc_mmap_slot p i0)
                 (normalized (load_mmap_entry m mmap i0))).
    assert (Hag1 : agree (mmap + sizeof_multiboot_tag_mmap)
                     (mmap + sizeof_multiboot_tag_mmap +
                      sizeof_multiboot_mmap_entry * n) m0 m1).
    { subst m1. apply store_slot_agree; [exact Hap|lia|exact Hag]. }
    destruct (IH (i0 + 1) m1 Hap) as [Hout Hin]; [lia|lia|exact Hag1|].
    replace (i0 + 1 + Z.of_nat cnt) with (i0 + Z.of_nat (S cnt)) in * by lia.
    split.
    + intros x Hx. rewrite Hout.
      * subst m1. apply store_ARC_MMap_outside.
        unfold arc_mmap_slot, sizeof_ARC_MMap in *. lia.
      * unfold arc_mmap_slot, sizeof_ARC_MMap in *. lia.
    + intros i Hi. destruct (Z.eq_dec i i0) as [->|Hne].
      * rewrite (load_ARC_MMap_ext _ m1).
        -- subst m1.
           rewrite (load_mmap_entry_ext m m0 mmap n i0); [|intros x Hx; symmetry; now apply Hag|lia].
           apply load_store_ARC_MMap; apply load_mmap_entry_range.
        -- intros x Hx. apply Hout.
           unfold arc_mmap_slot, sizeof_ARC_MMap in *. lia.
      * apply Hin. lia.
Qed.

(** ** The outer loop *)

Lemma hhdm_entries_memory (co : Collaborators) (fuel : nat) (mmap p : Z)
  (idx : list Z) :
  forall s s',
    hhdm_entries fuel co mmap p idx s = Done s' ->
    memory s' = copy_entries (memory s) mmap p idx.
Proof.
  induction idx as [|i idx IH]; intros s s' H.
  - inversion H; subst. reflexivity.
  - cbn [hhdm_entries copy_entries] in *.
    match type of H with
    | bind ?o _ = _ => destruct o as [s2| | |] eqn:E
    end; cbn [bind] in H; try discriminate.
    apply IH in H. rewrite H.
    destruct (map_region_keeps co _ fuel _ _ s2 (or_introl E)) as (Hm & _).
    rewrite Hm. reflexivity.
Qed.

Lemma region_requests_length (hhdm : Z) (e : multiboot_mmap_entry) :
  length (region_requests hhdm e) = Z.to_nat (page_steps (e_len e)).
Proof.
  unfold region_requests, int_range. now rewrite !length_map, length_seq.
Qed.

Lemma page_steps_nonneg (len : Z) : 0 <= len -> 0 <= page_steps len.
Proof. intros H. unfold page_steps. apply Z.div_pos; lia. Qed.

(** ** From the walk to the direct map *)

Lemma dispatch_boot_info (tag : Z) (f f' : frame) (s s' : machine) :
  dispatch tag f s = Done (f', s') ->
  boot_info (_boot_meta s') = boot_info (_boot_meta s) /\
  exists l, calls s' = calls s ++ l /\ Forall is_terminal_call l.
Proof.
  intros H.
  dispatch_cases H;
    cbn [_boot_meta with_boot_meta with_mb2_boot_info record_call calls];
    try after_mmap; (split; [reflexivity|]);
    first [ exists []; split; [now rewrite app_nil_r|constructor]
          | eexists; split; [reflexivity|repeat constructor] ].
Qed.

Lemma dispatch_all_boot_info (ps : list Z) :
  forall f s f' s',
    dispatch_all ps f s = Done (f', s') ->
    boot_info (_boot_meta s') = boot_info (_boot_meta s) /\
    exists l, calls s' = calls s ++ l /\ Forall is_terminal_call l.
Proof.
  induction ps as [|p ps IH]; intros f s f' s' H.
  - inversion H; subst. split; [reflexivity|].
    exists []. split; [now rewrite app_nil_r|constructor].
  - cbn [dispatch_all] in H.
    destruct (dispatch p (visit p f) s) as [[f1 s1]| | |] eqn:E;
      cbn [bind] in H; try discriminate.
    apply dispatch_boot_info in E. apply IH in H.
    destruct E as (E1 & l1 & E2 & E3). destruct H as (H1 & l2 & H2 & H3).
    split; [congruence|].
    exists (l1 ++ l2). split.
    + now rewrite H2, E2, app_assoc.
    + apply Forall_app. now split.
Qed.

Lemma dispatch_all_found (ps : list Z) (f f' : frame) (s s' : machine) :
  dispatch_all ps f s = Done (f', s') ->
  (mmap f', entries f') =
  match last_of (mmap_records (memory s) ps) with
  | Some t => (t, entry_count (memory s) t)
  | None => (mmap f, entries f)
  end.
Proof.
  intros H.
  apply (last_writer (fun f _ => (mmap f, entries f))
           (has_kind (memory s) MULTIBOOT_TAG_TYPE_MMAP)
           (fun t => (t, entry_count (memory s) t)) (memory s))
    with (f := f) (f' := f') (s := s) (s' := s'); auto.
  intros p f0 s0 f1 s1 Hm0 H0. rewrite <- Hm0.
  now apply dispatch_mmap with (s' := s1).
Qed.

(** Over a stream whose walk ends, [read_mb2i] goes on to the direct map
    with the memory map the walk found. *)
Lemma read_mb2i_after_walk (co : Collaborators) (img : Image) (fuel : nat)
  (mb2i : Z) (s : machine) (ps : list Z) (last : Z) :
  let m := memory s in
  records m (walk_end m mb2i) (walk_start mb2i) ps last ->
  Forall (divisible m) (mmap_records m ps) ->
  (length ps < fuel)%nat ->
  exists f' s1,
    read_mb2i co img fuel mb2i s = bootstrap co img fuel f' s1 /\
    memory s1 = m /\ pml4 s1 = pml4 s /\
    mmap f' = found_mmap m ps /\ entries f' = found_entries m ps /\
    map_requests (calls s1) = map_requests (calls s) /\
    boot_info (_boot_meta s1) = boot_info (_boot_meta s) /\
    exists l, calls s1 = calls s ++ l /\ Forall is_terminal_call l.
Proof.
  intros m Hrec Hdiv Hfuel. unfold read_mb2i.
  set (s0 := with_mb2_boot_info _ s).
  destruct (dispatch_all_done ps (initial_frame img) s0) as (f' & s1 & Hd);
    [exact Hdiv|].
  change (memory s0) with m.
  rewrite (walk_records _ _ _ _ _ Hrec) by (auto; lia).
  rewrite Hd. cbn [bind]. exists f', s1. split; [reflexivity|].
  destruct (dispatch_all_keeps _ _ _ _ _ Hd) as (K1 & K2 & _ & _ & K5).
  destruct (dispatch_all_boot_info _ _ _ _ _ Hd) as (B1 & B2).
  pose proof (dispatch_all_found _ _ _ _ _ Hd) as Hf.
  change (memory s0) with m in Hf.
  unfold found_mmap, found_entries.
  destruct (last_of (mmap_records m ps)); inversion Hf; subst;
    repeat split; auto.
Qed.

Lemma int_bound (z : Z) : - 2 ^ 31 <= int z < 2 ^ 31.
Proof.
  unfold int. pose proof (u32_range z).
  destruct (Z.ltb_spec (u32 z) (2 ^ 31)); lia.
Qed.

Lemma found_entries_bound (m : mem) (ps : list Z) : found_entries m ps < 2 ^ 31.
Proof.
  unfold found_entries. destruct (last_of (mmap_records m ps)); [|lia].
  unfold entry_count, count_entries. apply int_bound.
Qed.

(** Line 169 divides and drops the remainder. *)
Lemma arc_mmap_pages_floor (n : Z) :
  0 <= n < 2 ^ 31 ->
  arc_mmap_pages n = u32 (n * 20) / 0x1000 /\
  0 <= arc_mmap_pages n <= n * 20 / 0x1000.
Proof.
  intros H. unfold arc_mmap_pages, size_t, sizeof_ARC_MMap.
  rewrite (u32_small n), (u32_small 20), (u32_small 0x1000) by lia.
  pose proof (u32_range (n * 20)) as Hr.
  assert (Hq : 0 <= u32 (n * 20) / 0x1000 < 2 ^ 20).
  { split; [apply Z.div_pos; lia|].
    apply Z.div_lt_upper_bound; lia. }
  rewrite int_small by lia. split; [reflexivity|]. split; [lia|].
  apply Z.div_le_mono; [lia|].
  unfold u32, wrap. apply Z.mod_le; lia.
Qed.

(** Clearing the buffer leaves the raw entries alone. *)
Lemma prepare_agree (co : Collaborators) (f : frame) (s : machine) :
  entries f < 2 ^ 31 ->
  apart (fst (prepare co f s)) (mmap f) (entries f) ->
  agree (mmap f + sizeof_multiboot_tag_mmap)
    (mmap f + sizeof_multiboot_tag_mmap +
     sizeof_multiboot_mmap_entry * entries f)
    (memory s) (memory (snd (prepare co f s))).
Proof.
  intros Hn Hap x Hx. cbn. symmetry. apply memset_outside.
  unfold sizeof_multiboot_mmap_entry, sizeof_multiboot_tag_mmap in Hx.
  assert (Hpos : 0 < entries f) by lia.
  destruct (arc_mmap_pages_floor (entries f)) as [_ Hb]; [lia|].
  unfold size_t. rewrite (u32_small (arc_mmap_pages (entries f))).
  2:{ split; [lia|].
      apply Z.le_lt_trans with (entries f * 20 / 0x1000); [lia|].
      apply Z.div_lt_upper_bound; lia. }
  assert (entries f * 20 / 0x1000 <= entries f * 20).
  { apply Z.div_le_upper_bound; lia. }
  cbn [prepare fst record_call calls] in Hap.
  match goal with
  | |- context [Arc_ListContiguousAlloc co ?cs ?pg] =>
      set (p := Arc_ListContiguousAlloc co cs pg) in *
  end.
  unfold apart, sizeof_ARC_MMap, sizeof_multiboot_tag_mmap,
    sizeof_multiboot_mmap_entry in Hap.
  lia.
Qed.

Lemma in_int_range (n i : Z) : In i (int_range n) <-> 0 <= i < n.
Proof.
  unfold int_range. rewrite in_map_iff. split.
  - intros (j & <- & Hj). apply in_seq in Hj. lia.
  - intros Hi. exists (Z.to_nat i). split; [lia|]. apply in_seq. lia.
Qed.

Lemma page_steps_fuel (len : Z) :
  0 <= len <= 2 ^ 64 - 0x1000 ->
  (Z.to_nat (page_steps len) < Z.to_nat (2 ^ 52))%nat.
Proof.
  intros H. unfold page_steps.
  assert ((len + 0xFFF) / 0x1000 < 2 ^ 52)
    by (apply Z.div_lt_upper_bound; lia).
  assert (0 <= (len + 0xFFF) / 0x1000) by (apply Z.div_pos; lia).
  lia.
Qed.

Lemma fuel_exists (m : mem) (raw n : Z) (ps : list Z) :
  mappable m raw n ->
  enough_fuel m raw n ps (S (length ps) + Z.to_nat (2 ^ 52)).
Proof.
  intros H. split; [lia|]. intros i Hi.
  pose proof (page_steps_fuel (e_len (load_mmap_entry m raw i))) as Hf.
  pose proof (load64_range m (mmap_entry_at raw i + 8)) as Hr.
  specialize (H i Hi). unfold e_len, load_mmap_entry in *.
  cbv zeta in *. lia.
Qed.

(** ** The small map *)

(** Case analysis on an index below 2. *)
Ltac two_indices i Hi :=
  match type of Hi with
  | 0 <= i < ?n =>
      replace n with 2 in Hi by (vm_compute; reflexivity);
      let H := fresh in
      assert (H : i = 0 \/ i = 1) by lia;
      destruct H; subst i
  end.

Lemma small_map_records :
  records small_map_memory (walk_end small_map_memory example_mb2i)
    (walk_start example_mb2i) [0x10008] 0x10048.
Proof. solve_records. Qed.

Lemma small_map_divisible :
  Forall (divisible small_map_memory) (mmap_records small_map_memory [0x10008]).
Proof. solve_forall. vm_compute. discriminate. Qed.

Lemma small_map_mappable :
  mappable small_map_memory (found_mmap small_map_memory [0x10008])
    (found_entries small_map_memory [0x10008]).
Proof.
  intros i Hi. two_indices i Hi; vm_compute; discriminate.
Qed.

Lemma small_map_fuel :
  enough_fuel small_map_memory (found_mmap small_map_memory [0x10008])
    (found_entries small_map_memory [0x10008]) [0x10008] 4.
Proof.
  split; [cbn; lia|].
  intros i Hi. two_indices i Hi; vm_compute; lia.
Qed.

Lemma steady_never_fails (buffer : Z) : never_fails (steady buffer).
Proof. intros cs pml4 vaddr paddr flag. cbn. discriminate. Qed.

(** ** A stream without a memory map *)

(** C10, amended.  Over a stream with no memory-map record whose walk
    ends, [read_mb2i] returns 0.  After the calls the walk made to the
    terminal, it calls [init_pmm] with [NULL] for the memory map and asks
    the allocator for 0 pages; [arc_mmap_len] is 0 and no request goes to
    the page mapper. *)
Theorem no_memory_map_still_completes (co : Collaborators) (img : Image)
  (mb2i : Z) (s : machine) (ps : list Z) (last : Z) :
  let m := memory s in
  records m (walk_end m mb2i) (walk_start mb2i) ps last ->
  mmap_records m ps = [] ->
  exists s' terminal bootstrap_end mmap_entries,
    read_mb2i co img (S (length ps)) mb2i s = Done (0, s') /\
    calls s' = calls s ++ terminal ++
               [Call_init_pmm 0 bootstrap_end;
                Call_Arc_ListContiguousAlloc 0 mmap_entries] /\
    Forall is_terminal_call terminal /\
    arc_mmap_len (_boot_meta s') = 0 /\
    map_requests (calls s') = map_requests (calls s).
Proof.
  intros m Hrec Hnone.
  destruct (read_mb2i_after_walk co img (S (length ps)) mb2i s ps last Hrec)
    as (f' & sw & Hrun & Hm & _ & Hraw & Hn & Hreq & _ & l & Hl & Hterm).
  - fold m. rewrite Hnone. constructor.
  - lia.
  - fold m in Hraw, Hn. unfold found_mmap, found_entries in Hraw, Hn.
    rewrite Hnone in Hraw, Hn. cbn in Hraw, Hn.
    rewrite Hrun. unfold bootstrap, prepare. rewrite Hraw, Hn.
    change (int_range 0) with (@nil Z). cbn [hhdm_entries bind].
    eexists _, l, _, _. split; [reflexivity|].
    cbn. change (arc_mmap_pages 0) with 0.
    split; [|split; [exact Hterm|split; [reflexivity|]]].
    + rewrite Hl, <- !app_assoc. reflexivity.
    + rewrite !flat_map_app. cbn. rewrite !app_nil_r. exact Hreq.
Qed.

(** On the stream of three modules and no memory map. *)
Lemma no_memory_map_still_completes_witness :
  exists s',
    read_mb2i (steady 0x500000) example_image 4 example_mb2i
      (boot_machine two_kernel_memory) = Done (0, s') /\
    arc_mmap_len (_boot_meta s') = 0 /\
    map_requests (calls s') = [].
Proof.
  destruct (no_memory_map_still_completes (steady 0x500000) example_image
              example_mb2i (boot_machine two_kernel_memory)
              [0x10008; 0x10038; 0x10068] 0x10098)
    as (s' & l & be & p & Hrun & _ & _ & Hlen & Hreq).
  - solve_records.
  - vm_compute. reflexivity.
  - exists s'. repeat split; assumption.
Defined.

(** ** The entry count *)

(** C7, amended.  On a memory-map record the walk computes [entries] as
    [(size - 16) / entry_size] in unsigned 32-bit arithmetic, converted to
    [int], whenever [entry_size] is not 0: no divisor is compared with the
    header size and none is rejected, and a record of zero entries
    ([size = 16]) gives 0. *)
Theorem entry_count_is_unguarded_division (tag : Z) (f : frame) (s : machine) :
  let m := memory s in
  let size := load32 m (tag + 4) in
  let entry_size := load32 m (tag + 8) in
  load32 m tag = MULTIBOOT_TAG_TYPE_MMAP ->
  entry_size <> 0 ->
  exists f' s',
    dispatch tag f s = Done (f', s') /\
    mmap f' = tag /\
    entries f' = int (u32 (size - 16) / entry_size) /\
    (16 <= size -> entries f' = int ((size - 16) / entry_size)) /\
    (size = 16 -> entries f' = 0).
Proof.
  intros m size entry_size Hkind Hes.
  unfold dispatch. fold m. rewrite Hkind. cbn [Z.eqb Pos.eqb].
  unfold case_mmap. fold m entry_size size.
  destruct (Z.eqb_spec entry_size 0); [contradiction|].
  eexists _, _. split; [reflexivity|]. cbn [mmap entries].
  split; [reflexivity|]. unfold count_entries, size_t, sizeof_multiboot_tag_mmap.
  rewrite (u32_small 16) by lia.
  split; [reflexivity|]. split.
  - intros Hsize. rewrite u32_small; [reflexivity|].
    pose proof (load32_range m (tag + 4)). fold size in H. lia.
  - intros ->. change (u32 (16 - 16)) with (u32 0).
    rewrite (u32_small 0) by lia. now rewrite Z.div_0_l.
Qed.

(** On the map of two regions: [(64 - 16) / 24 = 2]. *)
Lemma entry_count_is_unguarded_division_witness :
  exists f' s',
    dispatch 0x10008 (initial_frame example_image)
      (boot_machine two_region_memory) = Done (f', s') /\
    entries f' = 2.
Proof.
  destruct (entry_count_is_unguarded_division 0x10008
              (initial_frame example_image) (boot_machine two_region_memory))
    as (f' & s' & Hd & _ & He & _).
  - vm_compute. reflexivity.
  - vm_compute. discriminate.
  - exists f', s'. split; [exact Hd|]. rewrite He. vm_compute. reflexivity.
Defined.

(** C7 as stated fails.  With [entry_size = 0] the division of line 67 is
    carried out on a zero divisor; with [entry_size = 8], which is not
    larger than the 16-byte header, the run returns 0 with 3 entries and no
    error is raised. *)
Lemma bad_entry_size_is_not_rejected :
  load32 (odd_entry_size_memory 0) (0x10008 + 8) = 0 /\
  divided_by_zero
    (read_mb2i (steady 0x500000) example_image 4 example_mb2i
       (boot_machine (odd_entry_size_memory 0))) = true /\
  load32 (odd_entry_size_memory 8) (0x10008 + 8) = 8 /\
  returned
    (read_mb2i (steady 0x500000) example_image 4 example_mb2i
       (boot_machine (odd_entry_size_memory 8))) = Some 0 /\
  option_map arc_mmap_len
    (final_meta (read_mb2i (steady 0x500000) example_image 4 example_mb2i
                   (boot_machine (odd_entry_size_memory 8)))) = Some 3.
Proof. vm_compute. repeat split; reflexivity. Qed.

(** ** The buffer of the normalized map *)

(** C6 at its failing input: the small map has 2 entries, 40 bytes.  Line
    169 asks for 0 pages, not 1; [memset] clears 0 bytes, so the byte
    behind the two slots keeps its [0xAA]; and when the allocator answers
    [NULL] the run still returns 0. *)
Theorem normalized_map_buffer_unchecked :
  arc_mmap_pages 2 = 0 /\
  final_calls
    (read_mb2i (steady 0x500000) example_image 4 example_mb2i
       (boot_machine dirty_memory)) =
  Some [Call_init_pmm 0x10008 0x180000;
        Call_Arc_ListContiguousAlloc 0 0x500000;
        Call_map_page 0x1000 (HHDM_VADDR + 0x100000) 0x100000 1 0x1000;
        Call_map_page 0x1000 (HHDM_VADDR + 0x101000) 0x101000 1 0x1000;
        Call_map_page 0x1000 (HHDM_VADDR + 0x102000) 0x102000 1 0x1000;
        Call_map_page 0x1000 HHDM_VADDR 0 1 0x1000] /\
  final_byte (0x500000 + 40)
    (read_mb2i (steady 0x500000) example_image 4 example_mb2i
       (boot_machine dirty_memory)) = Some 0xAA /\
  returned
    (read_mb2i (steady 0) example_image 4 example_mb2i
       (boot_machine dirty_memory)) = Some 0 /\
  option_map arc_mmap
    (final_meta (read_mb2i (steady 0) example_image 4 example_mb2i
                   (boot_machine dirty_memory))) = Some 0.
Proof. vm_compute. repeat split; reflexivity. Qed.

(** ** The example streams are laid out as the protocol asks *)

Ltac step_laid_out :=
  match goal with
  | |- laid_out ?m ?t ?ps ?stop =>
      let t' := eval vm_compute in t in
      tryif constr_eq t t' then idtac
      else replace t with t' by (vm_compute; reflexivity)
  end;
  match goal with
  | |- laid_out ?m ?t [] ?stop =>
      let stop' := eval vm_compute in stop in
      replace stop with (t + 8) by (vm_compute; reflexivity);
      apply laid_out_end; vm_compute; reflexivity
  | |- laid_out ?m ?t (_ :: _) _ =>
      apply laid_out_record;
      [ vm_compute; discriminate
      | vm_compute; discriminate
      | ]
  end.

Lemma two_kernel_stream_terminated :
  terminated two_kernel_memory example_mb2i [0x10008; 0x10038; 0x10068].
Proof.
  split; [vm_compute; discriminate|].
  split; [vm_compute; reflexivity|].
  repeat step_laid_out.
Qed.

Lemma small_map_stream_terminated :
  terminated small_map_memory example_mb2i [0x10008].
Proof.
  split; [vm_compute; discriminate|].
  split; [vm_compute; reflexivity|].
  repeat step_laid_out.
Qed.

(** * Further properties of the walk *)

(** ** A record that does not advance *)

Lemma next_tag_stalls (m : mem) (tag : Z) :
  0 <= tag < 2 ^ 32 ->
  load32 m (tag + 4) = 0 \/ 2 ^ 32 - 8 < load32 m (tag + 4) ->
  next_tag m tag = tag.
Proof.
  intros Ht Hsize. unfold next_tag, uintptr_t.
  pose proof (load32_range m (tag + 4)) as Hr.
  pose proof (ALIGN_8_ge (load32 m (tag + 4))) as Ha.
  unfold ALIGN in *.
  set (q := (load32 m (tag + 4) + (8 - 1)) / 8) in *.
  destruct Hsize as [H0|Hbig].
  - assert (q * 8 = 0) by lia.
    replace (tag + q * 8) with tag by lia. now apply u32_small.
  - assert (q * 8 = 2 ^ 32) by lia.
    replace (tag + q * 8) with (tag + 1 * 2 ^ 32) by lia.
    unfold u32, wrap. rewrite Z.mod_add by discriminate.
    now apply Z.mod_small.
Qed.

(** X1. A record below the bound whose kind is not 0 and whose length field
    is 0 (or so large that rounding it up to 8 wraps around) leaves [tag]
    where it is at line 161: the walk comes back to the same record and
    never ends, whatever the fuel. *)
Theorem walk_never_leaves_zero_length_record (m : mem) (end_ tag : Z) :
  0 <= tag < 2 ^ 32 ->
  load32 m tag <> MULTIBOOT_TAG_TYPE_END ->
  tag < end_ ->
  load32 m (tag + 4) = 0 \/ 2 ^ 32 - 8 < load32 m (tag + 4) ->
  (has_kind m MULTIBOOT_TAG_TYPE_MMAP tag = true -> divisible m tag) ->
  forall fuel f s,
    memory s = m -> walk fuel end_ tag f s = OutOfFuel.
Proof.
  intros Ht Hkind Hlt Hsize Hdiv.
  induction fuel as [|fuel IH]; intros f s Hm; [reflexivity|].
  cbn [walk]. rewrite Hm.
  destruct (Z.eqb_spec (load32 m tag) MULTIBOOT_TAG_TYPE_END); [contradiction|].
  destruct (Z.ltb_spec tag end_); [|lia]. cbn [negb andb].
  destruct (dispatch_done tag (visit tag f) s) as (f1 & s1 & E);
    [now rewrite Hm|].
  rewrite E. cbn [bind].
  pose proof (dispatch_memory _ _ _ _ _ E) as Hm1.
  rewrite Hm1, Hm, (next_tag_stalls m tag Ht Hsize).
  apply IH. congruence.
Qed.

(** On the stream whose one record has length 0, a thousand steps are not
    enough. *)
Lemma walk_never_leaves_zero_length_record_witness :
  walk 1000 (walk_end stalled_memory example_mb2i) (walk_start example_mb2i)
    (initial_frame example_image) (boot_machine stalled_memory) = OutOfFuel.
Proof.
  replace (walk_start example_mb2i) with 0x10008 by (vm_compute; reflexivity).
  apply (walk_never_leaves_zero_length_record stalled_memory
           (walk_end stalled_memory example_mb2i) 0x10008).
  - lia.
  - vm_compute. discriminate.
  - vm_compute. reflexivity.
  - left. vm_compute. reflexivity.
  - vm_compute. discriminate.
  - reflexivity.
Defined.

(** ** What the loop body runs on *)

Lemma records_below_bound (m : mem) (end_ tag : Z) (ps : list Z) (last : Z) :
  records m end_ tag ps last ->
  Forall (fun p => p < end_ /\ load32 m p <> MULTIBOOT_TAG_TYPE_END) ps /\
  (load32 m last = MULTIBOOT_TAG_TYPE_END \/ end_ <= last).
Proof.
  induction 1 as [tag Hstop|tag ps last Hkind Hlt Hrec [IH1 IH2]].
  - split; [constructor|exact Hstop].
  - split; [constructor; [split; assumption|exact IH1]|exact IH2].
Qed.

(** X2. A walk that ends has run the loop body only on records that begin
    below [end] and whose kind is not 0, and it has stopped at the first
    position where the kind is 0 or [end] is reached; it has written
    nothing to memory. *)
Theorem walk_body_runs_below_bound (fuel : nat) (end_ tag : Z) (f f' : frame)
  (s s' : machine) (last : Z) :
  walk fuel end_ tag f s = Done (last, f', s') ->
  exists ps,
    visited f' = visited f ++ ps /\
    Forall (fun p => p < end_ /\
                     load32 (memory s) p <> MULTIBOOT_TAG_TYPE_END) ps /\
    (load32 (memory s) last = MULTIBOOT_TAG_TYPE_END \/ end_ <= last) /\
    memory s' = memory s /\ pml4 s' = pml4 s.
Proof.
  intros H. apply walk_done_records in H. destruct H as (ps & Hrec & _ & Hd).
  exists ps. apply records_below_bound in Hrec. destruct Hrec as [H1 H2].
  apply dispatch_all_keeps in Hd. destruct Hd as (K1 & K2 & K3 & _).
  repeat split; assumption.
Qed.

Lemma walk_body_runs_below_bound_witness :
  exists ps,
    ps = [0x10008; 0x10048; 0x10078; 0x100A8] /\
    Forall (fun p => p < walk_end full_memory example_mb2i /\
                     load32 full_memory p <> MULTIBOOT_TAG_TYPE_END) ps.
Proof.
  destruct (walk 5 (walk_end full_memory example_mb2i)
              (walk_start example_mb2i) (initial_frame example_image)
              (boot_machine full_memory)) as [[[last f'] s']| | |] eqn:E.
  - destruct (walk_body_runs_below_bound _ _ _ _ _ _ _ _ E)
      as (ps & Hv & Hall & _).
    exists ps. split; [|exact Hall].
    assert (Hw : walked (walk 5 (walk_end full_memory example_mb2i)
                           (walk_start example_mb2i)
                           (initial_frame example_image)
                           (boot_machine full_memory)) =
                 Some (0x100B8, [0x10008; 0x10048; 0x10078; 0x100A8],
                       mkARC_BootMeta 0 0 0 0x102800 0x200000 0x100000
                         0x40000 0 0 0 0 0x100B0))
      by (vm_compute; reflexivity).
    rewrite E in Hw. cbn in Hw, Hv. congruence.
  - assert (Hw : walked (walk 5 (walk_end full_memory example_mb2i)
                           (walk_start example_mb2i)
                           (initial_frame example_image)
                           (boot_machine full_memory)) <> None)
      by (vm_compute; discriminate).
    rewrite E in Hw. now contradiction Hw.
  - assert (Hw : walked (walk 5 (walk_end full_memory example_mb2i)
                           (walk_start example_mb2i)
                           (initial_frame example_image)
                           (boot_machine full_memory)) <> None)
      by (vm_compute; discriminate).
    rewrite E in Hw. now contradiction Hw.
  - assert (Hw : walked (walk 5 (walk_end full_memory example_mb2i)
                           (walk_start example_mb2i)
                           (initial_frame example_image)
                           (boot_machine full_memory)) <> None)
      by (vm_compute; discriminate).
    rewrite E in Hw. now contradiction Hw.
Defined.

(** * The shape of every run *)

(** ** Outcomes of the loop body and of the walk *)

Lemma dispatch_outcomes (tag : Z) (f : frame) (s : machine) :
  match dispatch tag f s with
  | Done _ => True
  | Hang _ => False
  | DivideError s' => s' = s
  | OutOfFuel => False
  end.
Proof.
  unfold dispatch, case_mmap. repeat break_if; exact I || reflexivity.
Qed.

(** A walk never hangs, and one that divides by zero stops in the state the
    records before the faulting one left. *)
Lemma walk_outcomes (fuel : nat) :
  forall end_ tag f s,
    match walk fuel end_ tag f s with
    | Done _ => True
    | Hang _ => False
    | DivideError s' => exists ps f1, dispatch_all ps f s = Done (f1, s')
    | OutOfFuel => True
    end.
Proof.
  induction fuel as [|fuel IH]; intros end_ tag f s; [exact I|].
  cbn [walk]. destruct (_ && _); [|exact I].
  pose proof (dispatch_outcomes tag (visit tag f) s) as Hd.
  destruct (dispatch tag (visit tag f) s) as [[f1 s1]|s1|s1|] eqn:E;
    cbn [bind]; try contradiction.
  - specialize (IH end_ (next_tag (memory s1) tag) f1 s1).
    destruct (walk fuel end_ (next_tag (memory s1) tag) f1 s1)
      as [x|s2|s2|]; auto.
    destruct IH as (ps & f2 & Hps). exists (tag :: ps), f2.
    cbn [dispatch_all]. now rewrite E.
  - subst s1. exists [], f. reflexivity.
Qed.

(** ** Outcomes of the two loops of the direct map *)

Lemma map_region_outcomes (co : Collaborators) (e : multiboot_mmap_entry)
  (fuel : nat) :
  forall j s,
    match map_region fuel co e j s with
    | Done s' => exists new, calls s' = calls s ++ new /\ Forall mapped new
    | Hang s' =>
        exists new pm vaddr paddr,
          calls s' = calls s ++ new ++ [Call_map_page pm vaddr paddr 1 0] /\
          Forall mapped new /\ pml4 s' = 0
    | DivideError _ => False
    | OutOfFuel => True
    end.
Proof.
  induction fuel as [|fuel IH]; intros j s; [exact I|].
  cbn [map_region]. destruct (j <? e_len e).
  - set (linear := u64 (e_addr e + j)).
    set (vaddr := u64 (linear + ARC_HHDM_VADDR s)).
    set (ret := map_page co (calls s) (pml4 s) vaddr linear 1).
    destruct (Z.eqb_spec ret 0) as [Hz|Hnz].
    + exists [], (pml4 s), vaddr, linear. cbn. rewrite Hz.
      repeat split; constructor.
    + set (s1 := with_pml4 ret _).
      specialize (IH (u64 (j + 0x1000)) s1).
      destruct (map_region fuel co e (u64 (j + 0x1000)) s1) as [s2|s2| |];
        auto.
      * destruct IH as (new & Hc & Hm).
        exists (Call_map_page (pml4 s) vaddr linear 1 ret :: new).
        split; [rewrite Hc; subst s1; cbn; now rewrite <- app_assoc|].
        constructor; [split; [reflexivity|exact Hnz]|exact Hm].
      * destruct IH as (new & pm & v & a & Hc & Hm & Hp).
        exists (Call_map_page (pml4 s) vaddr linear 1 ret :: new), pm, v, a.
        split; [rewrite Hc; subst s1; cbn; now rewrite <- app_assoc|].
        split; [|exact Hp].
        constructor; [split; [reflexivity|exact Hnz]|exact Hm].
  - exists []. split; [now rewrite app_nil_r|constructor].
Qed.

Lemma hhdm_entries_outcomes (co : Collaborators) (fuel : nat)
  (mmap mmap_entries : Z) (idx : list Z) :
  forall s,
    match hhdm_entries fuel co mmap mmap_entries idx s with
    | Done s' =>
        (exists new, calls s' = calls s ++ new /\ Forall mapped new) /\
        _boot_meta s' = _boot_meta s /\ mb2_boot_info s' = mb2_boot_info s
    | Hang s' =>
        (exists new pm vaddr paddr,
            calls s' = calls s ++ new ++ [Call_map_page pm vaddr paddr 1 0] /\
            Forall mapped new /\ pml4 s' = 0) /\
        _boot_meta s' = _boot_meta s /\ mb2_boot_info s' = mb2_boot_info s
    | DivideError _ => False
    | OutOfFuel => True
    end.
Proof.
  induction idx as [|i idx IH]; intros s.
  - cbn. repeat split. exists []. split; [now rewrite app_nil_r|constructor].
  - cbn [hhdm_entries].
    set (e := load_mmap_entry (memory s) mmap i).
    set (s1 := with_memory _ s).
    pose proof (map_region_outcomes co e fuel 0 s1) as Hr.
    pose proof (map_region_keeps co e fuel 0 s1) as Hk.
    destruct (map_region fuel co e 0 s1) as [s2|s2|s2|]; cbn [bind]; auto.
    + destruct (Hk s2 (or_introl eq_refl)) as (_ & Hmeta & Hinfo).
      change (_boot_meta s1) with (_boot_meta s) in Hmeta.
      change (mb2_boot_info s1) with (mb2_boot_info s) in Hinfo.
      destruct Hr as (new1 & Hc1 & Hm1).
      specialize (IH s2).
      destruct (hhdm_entries fuel co mmap mmap_entries idx s2) as [s3|s3|s3|];
        auto.
      * destruct IH as ((new2 & Hc2 & Hm2) & Hmeta2 & Hinfo2).
        split; [|split; congruence].
        exists (new1 ++ new2). split; [|now apply Forall_app].
        rewrite Hc2, Hc1. subst s1. cbn. now rewrite app_assoc.
      * destruct IH as ((new2 & pm & v & a & Hc2 & Hm2 & Hp) & Hmeta2 & Hinfo2).
        split; [|split; congruence].
        exists (new1 ++ new2), pm, v, a.
        split; [|split; [now apply Forall_app|exact Hp]].
        rewrite Hc2, Hc1. subst s1. cbn. now rewrite <- !app_assoc.
    + destruct (Hk s2 (or_intror eq_refl)) as (_ & Hmeta & Hinfo).
      change (_boot_meta s1) with (_boot_meta s) in Hmeta.
      change (mb2_boot_info s1) with (mb2_boot_info s) in Hinfo.
      split; [exact Hr|]. split; assumption.
Qed.

(** ** How a run of [read_mb2i] decomposes *)

Lemma bootstrap_outcomes (co : Collaborators) (img : Image) (fuel : nat)
  (f : frame) (s : machine) :
  let p := fst (prepare co f s) in
  let first := [Call_init_pmm (mmap f) (uintptr_t (bootstrap_end f));
                Call_Arc_ListContiguousAlloc (arc_mmap_pages (entries f)) p] in
  match bootstrap co img fuel f s with
  | Done (r, s') =>
      r = 0 /\
      exists new s1,
        s' = publish_boot_info img s1 /\
        hhdm_entries fuel co (mmap f) p (int_range (entries f))
          (snd (prepare co f s)) = Done s1 /\
        calls s' = calls s ++ first ++ new /\ Forall mapped new /\
        _boot_meta s1 = _boot_meta (snd (prepare co f s)) /\
        mb2_boot_info s' = mb2_boot_info s
  | Hang s' =>
      exists new pm vaddr paddr,
        calls s' = calls s ++ first ++ new ++ [Call_map_page pm vaddr paddr 1 0] /\
        Forall mapped new /\ pml4 s' = 0 /\
        _boot_meta s' = _boot_meta (snd (prepare co f s)) /\
        mb2_boot_info s' = mb2_boot_info s
  | DivideError _ => False
  | OutOfFuel => True
  end.
Proof.
  intros p first. unfold bootstrap.
  rewrite (surjective_pairing (prepare co f s)). fold p.
  pose proof (hhdm_entries_outcomes co fuel (mmap f) p
                (int_range (entries f)) (snd (prepare co f s))) as Hh.
  assert (Hc : calls (snd (prepare co f s)) = calls s ++ first).
  { cbn. now rewrite <- app_assoc. }
  cbn [snd fst].
  destruct (hhdm_entries fuel co (mmap f) p (int_range (entries f))
              (snd (prepare co f s))) as [s1|s1|s1|] eqn:E1;
    cbn [bind]; auto.
  - destruct Hh as ((new & Hn & Hm) & Hmeta & Hinfo).
    split; [reflexivity|]. exists new, s1.
    split; [reflexivity|]. split; [reflexivity|].
    split; [change (calls (publish_boot_info img s1)) with (calls s1);
            rewrite Hn, Hc; now rewrite <- app_assoc|].
    split; [exact Hm|]. split; [exact Hmeta|].
    change (mb2_boot_info (publish_boot_info img s1)) with (mb2_boot_info s1).
    rewrite Hinfo. reflexivity.
  - destruct Hh as ((new & pm & v & a & Hn & Hm & Hp) & Hmeta & Hinfo).
    exists new, pm, v, a.
    split; [rewrite Hn, Hc; now rewrite <- !app_assoc|].
    split; [exact Hm|]. split; [exact Hp|]. split; [exact Hmeta|].
    rewrite Hinfo. reflexivity.
Qed.

(** Every run that does not end in the walk is the walk over some records
    followed by lines 167-202. *)
Lemma read_mb2i_cases (co : Collaborators) (img : Image) (fuel : nat)
  (mb2i : Z) (s : machine) :
  let s0 := with_mb2_boot_info
              (mkARC_MB2BootInfo (uintptr_t mb2i) (fb (mb2_boot_info s))) s in
  match read_mb2i co img fuel mb2i s with
  | Done (r, s') =>
      exists ps f1 sw,
        dispatch_all ps (initial_frame img) s0 = Done (f1, sw) /\
        bootstrap co img fuel f1 sw = Done (r, s')
  | Hang s' =>
      exists ps f1 sw,
        dispatch_all ps (initial_frame img) s0 = Done (f1, sw) /\
        bootstrap co img fuel f1 sw = Hang s'
  | DivideError s' =>
      exists ps f1, dispatch_all ps (initial_frame img) s0 = Done (f1, s')
  | OutOfFuel => True
  end.
Proof.
  intros s0. unfold read_mb2i. fold s0.
  pose proof (walk_outcomes fuel (walk_end (memory s0) mb2i)
                (walk_start mb2i) (initial_frame img) s0) as Hw.
  destruct (walk fuel (walk_end (memory s0) mb2i) (walk_start mb2i)
              (initial_frame img) s0) as [[[last f1] sw]|sw|sw|] eqn:E;
    cbn [bind]; try contradiction; auto.
  apply walk_done_records in E. destruct E as (ps & _ & _ & Hd).
  pose proof (bootstrap_outcomes co img fuel f1 sw) as Hb.
  destruct (bootstrap co img fuel f1 sw) as [[r s']|s'|s'|] eqn:Eb;
    try contradiction; auto.
  - exists ps, f1, sw. split; [exact Hd|exact Eb].
  - exists ps, f1, sw. split; [exact Hd|exact Eb].
Qed.

(** ** What the records leave alone and what they add up to *)

Lemma dispatch_untouched (tag : Z) (f f' : frame) (s s' : machine) :
  dispatch tag f s = Done (f', s') ->
  boot_proc (_boot_meta s') = boot_proc (_boot_meta s) /\
  pmm_state (_boot_meta s') = pmm_state (_boot_meta s) /\
  state (_boot_meta s') = state (_boot_meta s) /\
  hhdm_vaddr (_boot_meta s') = hhdm_vaddr (_boot_meta s) /\
  arc_mmap (_boot_meta s') = arc_mmap (_boot_meta s) /\
  arc_mmap_len (_boot_meta s') = arc_mmap_len (_boot_meta s).
Proof.
  intros H.
  dispatch_cases H;
    cbn [_boot_meta with_boot_meta with_mb2_boot_info record_call];
    try after_mmap; repeat split; reflexivity.
Qed.

Lemma dispatch_all_untouched (ps : list Z) :
  forall f s f' s',
    dispatch_all ps f s = Done (f', s') ->
    boot_proc (_boot_meta s') = boot_proc (_boot_meta s) /\
    pmm_state (_boot_meta s') = pmm_state (_boot_meta s) /\
    state (_boot_meta s') = state (_boot_meta s) /\
    hhdm_vaddr (_boot_meta s') = hhdm_vaddr (_boot_meta s) /\
    arc_mmap (_boot_meta s') = arc_mmap (_boot_meta s) /\
    arc_mmap_len (_boot_meta s') = arc_mmap_len (_boot_meta s).
Proof.
  induction ps as [|p ps IH]; intros f s f' s' H.
  - inversion H; subst. repeat split; reflexivity.
  - cbn [dispatch_all] in H.
    destruct (dispatch p (visit p f) s) as [[f1 s1]| | |] eqn:E;
      cbn [bind] in H; try discriminate.
    apply dispatch_untouched in E. apply IH in H.
    destruct E as (E1 & E2 & E3 & E4 & E5 & E6).
    destruct H as (H1 & H2 & H3 & H4 & H5 & H6).
    repeat split; congruence.
Qed.

Lemma dispatch_bootstrap_end (tag : Z) (f f' : frame) (s s' : machine) :
  dispatch tag f s = Done (f', s') ->
  bootstrap_end f' =
  if has_kind (memory s) MULTIBOOT_TAG_TYPE_MODULE tag
  then Z.max (bootstrap_end f) (load32 (memory s) (tag + 12))
  else bootstrap_end f.
Proof.
  intros H. unfold has_kind.
  dispatch_cases H;
    cbn [_boot_meta with_boot_meta with_mb2_boot_info record_call
         mmap entries bootstrap_end];
    name_eqs;
    repeat match goal with
      | H : load32 _ tag = _ |- _ => rewrite H
      end; cbn [Z.eqb Pos.eqb]; try reflexivity;
    repeat match goal with
      | |- context [load32 ?m tag =? ?k] =>
          destruct (Z.eqb_spec (load32 m tag) k); try contradiction
      end; try reflexivity;
    repeat match goal with
      | H : (_ <? _) = true |- _ => apply Z.ltb_lt in H
      | H : (_ <? _) = false |- _ => apply Z.ltb_ge in H
      end; lia.
Qed.

Lemma dispatch_all_bootstrap_end (ps : list Z) :
  forall f s f' s',
    dispatch_all ps f s = Done (f', s') ->
    bootstrap_end f' =
    fold_left Z.max
      (map (fun t => load32 (memory s) (t + 12)) (module_records (memory s) ps))
      (bootstrap_end f).
Proof.
  induction ps as [|p ps IH]; intros f s f' s' H.
  - inversion H; subst. reflexivity.
  - cbn [dispatch_all] in H.
    destruct (dispatch p (visit p f) s) as [[f1 s1]| | |] eqn:E;
      cbn [bind] in H; try discriminate.
    apply IH in H. rewrite H, (dispatch_bootstrap_end _ _ _ _ _ E).
    rewrite (dispatch_memory _ _ _ _ _ E).
    unfold module_records. cbn [filter bootstrap_end visit].
    destruct (has_kind (memory s) MULTIBOOT_TAG_TYPE_MODULE p); reflexivity.
Qed.

Lemma dispatch_terminal (tag : Z) (f f' : frame) (s s' : machine) :
  dispatch tag f s = Done (f', s') ->
  (calls s', fb (mb2_boot_info s')) =
  if has_kind (memory s) MULTIBOOT_TAG_TYPE_FRAMEBUFFER tag
  then (calls s ++ [terminal_call (memory s) tag], tag)
  else (calls s, fb (mb2_boot_info s)).
Proof.
  intros H. unfold has_kind, terminal_call.
  dispatch_cases H;
    cbn [_boot_meta with_boot_meta with_mb2_boot_info record_call
         calls mb2_boot_info fb memory];
    name_eqs;
    repeat match goal with
      | H : load32 _ tag = _ |- _ => rewrite H
      end; cbn [Z.eqb Pos.eqb]; try reflexivity;
    repeat match goal with
      | |- context [load32 ?m tag =? ?k] =>
          destruct (Z.eqb_spec (load32 m tag) k); try contradiction
      end; reflexivity.
Qed.

Lemma dispatch_all_terminal (ps : list Z) :
  forall f s f' s',
    dispatch_all ps f s = Done (f', s') ->
    calls s' = calls s ++
               map (terminal_call (memory s)) (framebuffer_records (memory s) ps) /\
    fb (mb2_boot_info s') =
      match last_of (framebuffer_records (memory s) ps) with
      | Some t => t
      | None => fb (mb2_boot_info s)
      end.
Proof.
  induction ps as [|p ps IH]; intros f s f' s' H.
  - inversion H; subst. cbn. now rewrite app_nil_r.
  - cbn [dispatch_all] in H.
    destruct (dispatch p (visit p f) s) as [[f1 s1]| | |] eqn:E;
      cbn [bind] in H; try discriminate.
    apply IH in H. destruct H as [Hc Hf].
    pose proof (dispatch_terminal _ _ _ _ _ E) as Ht.
    rewrite (dispatch_memory _ _ _ _ _ E) in Hc, Hf.
    unfold framebuffer_records in *. cbn [filter].
    destruct (has_kind (memory s) MULTIBOOT_TAG_TYPE_FRAMEBUFFER p);
      injection Ht as Hc1 Hf1; rewrite Hc, Hf, Hc1.
    + cbn [map]. rewrite last_of_cons, <- app_assoc. split; [reflexivity|].
      destruct (last_of _); [reflexivity|exact Hf1].
    + split; [reflexivity|]. destruct (last_of _); [reflexivity|exact Hf1].
Qed.

(** ** The calls a run makes *)

(** X3. Whatever the stream, the collaborators and the fuel: a run that
    returns has returned 0 and has called, in this order, [Arc_SetTerm]
    (during the walk only), [init_pmm] once, [Arc_ListContiguousAlloc]
    once, then [map_page] with the flag 1, every call of which succeeded.
    A run that hangs has made the same calls and then one more [map_page],
    which returned [NULL]: nothing else reaches [ARC_HANG], not even a
    [NULL] from the allocator.  A run that divides by zero has called
    neither the allocator nor the page mapper. *)
Theorem collaborators_called_in_order (co : Collaborators) (img : Image)
  (fuel : nat) (mb2i : Z) (s : machine) :
  match read_mb2i co img fuel mb2i s with
  | Done (r, s') =>
      r = 0 /\
      exists terminal raw footprint pages buffer maps,
        calls s' = calls s ++ terminal ++
                   [Call_init_pmm raw footprint;
                    Call_Arc_ListContiguousAlloc pages buffer] ++ maps /\
        Forall is_terminal_call terminal /\ Forall mapped maps
  | Hang s' =>
      exists terminal raw footprint pages buffer maps pm vaddr paddr,
        calls s' = calls s ++ terminal ++
                   [Call_init_pmm raw footprint;
                    Call_Arc_ListContiguousAlloc pages buffer] ++ maps ++
                   [Call_map_page pm vaddr paddr 1 0] /\
        Forall is_terminal_call terminal /\ Forall mapped maps /\
        pml4 s' = 0
  | DivideError s' =>
      exists terminal,
        calls s' = calls s ++ terminal /\ Forall is_terminal_call terminal
  | OutOfFuel => True
  end.
Proof.
  pose proof (read_mb2i_cases co img fuel mb2i s) as H. cbv zeta in H.
  destruct (read_mb2i co img fuel mb2i s) as [[r s']|s'|s'|]; auto.
  - destruct H as (ps & f1 & sw & Hd & Hb).
    pose proof (bootstrap_outcomes co img fuel f1 sw) as Ho.
    rewrite Hb in Ho. cbv zeta in Ho.
    destruct Ho as (Hr & new & s1 & _ & _ & Hc & Hm & _).
    apply dispatch_all_boot_info in Hd. destruct Hd as (_ & l & Hl & Ht).
    split; [exact Hr|]. eexists l, _, _, _, _, new.
    split; [|split; assumption].
    rewrite Hc, Hl. cbn [calls with_mb2_boot_info].
    rewrite <- !app_assoc. reflexivity.
  - destruct H as (ps & f1 & sw & Hd & Hb).
    pose proof (bootstrap_outcomes co img fuel f1 sw) as Ho.
    rewrite Hb in Ho. cbv zeta in Ho.
    destruct Ho as (new & pm & v & a & Hc & Hm & Hp & _).
    apply dispatch_all_boot_info in Hd. destruct Hd as (_ & l & Hl & Ht).
    eexists l, _, _, _, _, new, pm, v, a.
    split; [|repeat split; assumption].
    rewrite Hc, Hl. cbn [calls with_mb2_boot_info].
    rewrite <- !app_assoc. reflexivity.
  - destruct H as (ps & f1 & Hd).
    apply dispatch_all_boot_info in Hd. destruct Hd as (_ & l & Hl & Ht).
    exists l. split; assumption.
Qed.

(** ** The fields a run publishes *)

(** X4. A run that returns has recorded the address of the information
    structure in [mb2_boot_info.mbi_phys] and published [boot_info] (the
    address of [mb2_boot_info]), [hhdm_vaddr] and [arc_mmap] (what the
    allocator returned).  A run that hangs has published [hhdm_vaddr] and
    [arc_mmap] as well, since lines 173-177 precede the loop, but not
    [boot_info], and it leaves the page-table root [NULL]. *)
Theorem fields_published (co : Collaborators) (img : Image)
  (fuel : nat) (mb2i : Z) (s : machine) :
  match read_mb2i co img fuel mb2i s with
  | Done (_, s') =>
      mbi_phys (mb2_boot_info s') = uintptr_t mb2i /\
      boot_info (_boot_meta s') = uintptr_t (addr_mb2_boot_info img) /\
      hhdm_vaddr (_boot_meta s') = HHDM_VADDR /\
      exists pages buffer,
        In (Call_Arc_ListContiguousAlloc pages buffer) (calls s') /\
        arc_mmap (_boot_meta s') = uintptr_t buffer
  | Hang s' =>
      mbi_phys (mb2_boot_info s') = uintptr_t mb2i /\
      boot_info (_boot_meta s') = boot_info (_boot_meta s) /\
      hhdm_vaddr (_boot_meta s') = HHDM_VADDR /\
      pml4 s' = 0 /\
      exists pages buffer,
        In (Call_Arc_ListContiguousAlloc pages buffer) (calls s') /\
        arc_mmap (_boot_meta s') = uintptr_t buffer
  | _ => True
  end.
Proof.
  pose proof (read_mb2i_cases co img fuel mb2i s) as H. cbv zeta in H.
  destruct (read_mb2i co img fuel mb2i s) as [[r s']|s'|s'|]; auto.
  - destruct H as (ps & f1 & sw & Hd & Hb).
    pose proof (bootstrap_outcomes co img fuel f1 sw) as Ho.
    rewrite Hb in Ho. cbv zeta in Ho.
    destruct Ho as (Hr & new & s1 & Hs' & _ & Hc & _ & Hmeta & Hinfo).
    destruct (dispatch_all_keeps _ _ _ _ _ Hd) as (_ & _ & _ & K4 & _).
    split; [rewrite Hinfo, K4; reflexivity|].
    subst s'. cbn [_boot_meta publish_boot_info with_boot_meta set_boot_info
                   boot_info hhdm_vaddr arc_mmap].
    split; [reflexivity|]. rewrite Hmeta.
    split; [reflexivity|].
    eexists _, _. split; [|reflexivity].
    change (calls (publish_boot_info img s1)) with (calls s1) in Hc.
    cbn [calls publish_boot_info with_boot_meta]. rewrite Hc.
    apply in_or_app. right. apply in_or_app. left. right. left. reflexivity.
  - destruct H as (ps & f1 & sw & Hd & Hb).
    pose proof (bootstrap_outcomes co img fuel f1 sw) as Ho.
    rewrite Hb in Ho. cbv zeta in Ho.
    destruct Ho as (new & pm & v & a & Hc & _ & Hp & Hmeta & Hinfo).
    destruct (dispatch_all_keeps _ _ _ _ _ Hd) as (_ & _ & _ & K4 & _).
    destruct (dispatch_all_boot_info _ _ _ _ _ Hd) as (B1 & _).
    split; [rewrite Hinfo, K4; reflexivity|].
    rewrite Hmeta.
    split; [cbn; exact B1|]. split; [reflexivity|]. split; [exact Hp|].
    eexists _, _. split; [|reflexivity].
    rewrite Hc.
    apply in_or_app. right. apply in_or_app. left. right. left. reflexivity.
Qed.

(** X5. No run writes [boot_proc], [pmm_state] or [state]: in whatever
    state a run stops, the three fields are as they were. *)
Theorem fields_never_written (co : Collaborators) (img : Image)
  (fuel : nat) (mb2i : Z) (s : machine) :
  let same (s' : machine) :=
    boot_proc (_boot_meta s') = boot_proc (_boot_meta s) /\
    pmm_state (_boot_meta s') = pmm_state (_boot_meta s) /\
    state (_boot_meta s') = state (_boot_meta s) in
  match read_mb2i co img fuel mb2i s with
  | Done (_, s') => same s'
  | Hang s' => same s'
  | DivideError s' => same s'
  | OutOfFuel => True
  end.
Proof.
  intros same.
  pose proof (read_mb2i_cases co img fuel mb2i s) as H. cbv zeta in H.
  destruct (read_mb2i co img fuel mb2i s) as [[r s']|s'|s'|]; auto.
  - destruct H as (ps & f1 & sw & Hd & Hb).
    pose proof (bootstrap_outcomes co img fuel f1 sw) as Ho.
    rewrite Hb in Ho. cbv zeta in Ho.
    destruct Ho as (Hr & new & s1 & Hs' & _ & _ & _ & Hmeta & _).
    destruct (dispatch_all_untouched _ _ _ _ _ Hd) as (U1 & U2 & U3 & _).
    subst s' same. cbn [_boot_meta publish_boot_info with_boot_meta
                        set_boot_info boot_proc pmm_state state].
    rewrite Hmeta. cbn. repeat split; assumption.
  - destruct H as (ps & f1 & sw & Hd & Hb).
    pose proof (bootstrap_outcomes co img fuel f1 sw) as Ho.
    rewrite Hb in Ho. cbv zeta in Ho.
    destruct Ho as (new & pm & v & a & _ & _ & _ & Hmeta & _).
    destruct (dispatch_all_untouched _ _ _ _ _ Hd) as (U1 & U2 & U3 & _).
    subst same. cbv beta. rewrite Hmeta. cbn. repeat split; assumption.
  - destruct H as (ps & f1 & Hd).
    destruct (dispatch_all_untouched _ _ _ _ _ Hd) as (U1 & U2 & U3 & _).
    subst same. cbv beta. repeat split; assumption.
Qed.

(** * Further properties, record kind by record kind *)

(** ** Modules and the end of the bootstrapper *)

Lemma fold_max_range (l : list Z) :
  forall a, 0 <= a < 2 ^ 32 -> Forall (fun x => 0 <= x < 2 ^ 32) l ->
            0 <= fold_left Z.max l a < 2 ^ 32.
Proof.
  induction l as [|x l IH]; intros a Ha Hl; [exact Ha|].
  inversion Hl; subst. cbn. apply IH; [lia|assumption].
Qed.

Lemma read_mb2i_walked (co : Collaborators) (img : Image) (fuel : nat)
  (mb2i : Z) (s : machine) (ps : list Z) (last : Z) :
  let m := memory s in
  let s0 := with_mb2_boot_info
              (mkARC_MB2BootInfo (uintptr_t mb2i) (fb (mb2_boot_info s))) s in
  records m (walk_end m mb2i) (walk_start mb2i) ps last ->
  Forall (divisible m) (mmap_records m ps) ->
  (length ps < fuel)%nat ->
  exists f' sw,
    dispatch_all ps (initial_frame img) s0 = Done (f', sw) /\
    read_mb2i co img fuel mb2i s = bootstrap co img fuel f' sw.
Proof.
  intros m s0 Hrec Hdiv Hfuel. unfold read_mb2i. fold s0.
  destruct (dispatch_all_done ps (initial_frame img) s0) as (f' & sw & Hd);
    [exact Hdiv|].
  change (memory s0) with m.
  rewrite (walk_records _ _ _ _ _ Hrec) by (auto; lia).
  rewrite Hd. cbn [bind]. exists f', sw. split; reflexivity.
Qed.

(** X6. The footprint handed to the allocator is the largest of the
    link-time end of the bootstrapper and the [mod_end] of every module
    record of the stream, named or not: whenever the run gets past the
    walk, [init_pmm] has been called with the memory map the walk found and
    with that address. *)
Theorem init_pmm_gets_the_footprint (co : Collaborators) (img : Image)
  (fuel : nat) (mb2i : Z) (s : machine) (ps : list Z) (last : Z) :
  let m := memory s in
  let image_end := uintptr_t (__BOOTSTRAP_END__ img) in
  let footprint :=
    fold_left Z.max (map (fun t => load32 m (t + 12)) (module_records m ps))
      image_end in
  records m (walk_end m mb2i) (walk_start mb2i) ps last ->
  Forall (divisible m) (mmap_records m ps) ->
  (length ps < fuel)%nat ->
  image_end <= footprint /\
  (forall t, In t (module_records m ps) -> load32 m (t + 12) <= footprint) /\
  match read_mb2i co img fuel mb2i s with
  | Done (_, s') =>
      In (Call_init_pmm (found_mmap m ps) footprint) (calls s')
  | Hang s' =>
      In (Call_init_pmm (found_mmap m ps) footprint) (calls s')
  | DivideError _ => False
  | OutOfFuel => True
  end.
Proof.
  intros m image_end footprint Hrec Hdiv Hfuel.
  split; [apply fold_max_ge|].
  split.
  { intros t Ht. apply fold_max_upper. apply in_map_iff. now exists t. }
  destruct (read_mb2i_walked co img fuel mb2i s ps last Hrec Hdiv Hfuel)
    as (f' & sw & Hd & Hrun).
  rewrite Hrun.
  pose proof (dispatch_all_bootstrap_end _ _ _ _ _ Hd) as Hbe.
  pose proof (dispatch_all_found _ _ _ _ _ Hd) as Hfound.
  cbn [memory with_mb2_boot_info bootstrap_end initial_frame mmap entries]
    in Hbe, Hfound.
  fold m image_end in Hbe. fold footprint in Hbe.
  assert (Hraw : mmap f' = found_mmap m ps).
  { unfold found_mmap. fold m in Hfound.
    destruct (last_of (mmap_records m ps)); now inversion Hfound. }
  assert (Hu : uintptr_t (bootstrap_end f') = footprint).
  { rewrite Hbe. unfold uintptr_t. apply u32_small.
    subst footprint. apply fold_max_range.
    - subst image_end. apply u32_range.
    - apply Forall_forall. intros x Hx. apply in_map_iff in Hx.
      destruct Hx as (t & <- & _). apply load32_range. }
  pose proof (bootstrap_outcomes co img fuel f' sw) as Ho. cbv zeta in Ho.
  rewrite Hraw, Hu in Ho.
  destruct (bootstrap co img fuel f' sw) as [[r s']|s'|s'|]; auto.
  - destruct Ho as (_ & new & s1 & _ & _ & Hc & _).
    rewrite Hc. apply in_or_app. right. left. reflexivity.
  - destruct Ho as (new & pm & v & a & Hc & _).
    rewrite Hc. apply in_or_app. right. left. reflexivity.
Qed.

Lemma full_records :
  records full_memory (walk_end full_memory example_mb2i)
    (walk_start example_mb2i) [0x10008; 0x10048; 0x10078; 0x100A8] 0x100B8.
Proof. solve_records. Qed.

Lemma full_divisible :
  Forall (divisible full_memory)
    (mmap_records full_memory [0x10008; 0x10048; 0x10078; 0x100A8]).
Proof. solve_forall. vm_compute. discriminate. Qed.

(** On the stream with modules ending at [0x300000] and at [0x140000] and
    an image ending at [0x180000], the footprint is [0x300000]. *)
Lemma init_pmm_gets_the_footprint_witness :
  In (Call_init_pmm 0x10008 0x300000)
    (match read_mb2i (steady 0x500000) example_image 5 example_mb2i
             (boot_machine full_memory) with
     | Done (_, s') => calls s'
     | _ => []
     end).
Proof.
  pose proof (init_pmm_gets_the_footprint (steady 0x500000) example_image 5
                example_mb2i (boot_machine full_memory)
                [0x10008; 0x10048; 0x10078; 0x100A8] 0x100B8
                full_records full_divisible) as H.
  cbv zeta in H. destruct H as (_ & _ & H); [cbn; lia|].
  assert (Hr : returned (read_mb2i (steady 0x500000) example_image 5
                           example_mb2i (boot_machine full_memory)) = Some 0)
    by (vm_compute; reflexivity).
  destruct (read_mb2i (steady 0x500000) example_image 5 example_mb2i
              (boot_machine full_memory)) as [[r s']|s'|s'|];
    try discriminate Hr.
  replace 0x10008 with (found_mmap full_memory
                          [0x10008; 0x10048; 0x10078; 0x100A8])
    by (vm_compute; reflexivity).
  replace 0x300000 with
    (fold_left Z.max
       (map (fun t => load32 full_memory (t + 12))
          (module_records full_memory [0x10008; 0x10048; 0x10078; 0x100A8]))
       (uintptr_t (__BOOTSTRAP_END__ example_image)))
    by (vm_compute; reflexivity).
  exact H.
Defined.

(** ** The framebuffer *)

(** X7. The walk calls [Arc_SetTerm] once for every framebuffer record, in
    the order of the stream, with the address (cut to 32 bits), the width,
    the height and the pitch of that record, and makes no other call;
    [mb2_boot_info.fb] ends as the address of the last framebuffer
    record. *)
Theorem terminal_set_per_framebuffer_record
  (m : mem) (end_ tag : Z) (ps : list Z) (last : Z) (f : frame) (s : machine) :
  records m end_ tag ps last ->
  memory s = m ->
  Forall (divisible m) (mmap_records m ps) ->
  exists f' s',
    walk (S (length ps)) end_ tag f s = Done (last, f', s') /\
    calls s' = calls s ++ map (terminal_call m) (framebuffer_records m ps) /\
    fb (mb2_boot_info s') =
      match last_of (framebuffer_records m ps) with
      | Some t => t
      | None => fb (mb2_boot_info s)
      end.
Proof.
  intros Hrec Hm Hdiv.
  destruct (dispatch_all_done ps f s) as (f' & s' & Hd);
    [now rewrite Hm|].
  exists f', s'. split.
  - rewrite (walk_records _ _ _ _ _ Hrec) by (auto; lia). now rewrite Hd.
  - rewrite <- Hm. now apply dispatch_all_terminal with (f := f) (f' := f').
Qed.

Lemma terminal_set_per_framebuffer_record_witness :
  exists f' s',
    walk 4 (walk_end framebuffer_memory example_mb2i) (walk_start example_mb2i)
      (initial_frame example_image) (boot_machine framebuffer_memory)
    = Done (0x10048, f', s') /\
    calls s' = [Call_Arc_SetTerm 0xFD000000 1024 768 4096] /\
    fb (mb2_boot_info s') = 0x10018.
Proof.
  destruct (terminal_set_per_framebuffer_record framebuffer_memory
              (walk_end framebuffer_memory example_mb2i)
              (walk_start example_mb2i) [0x10008; 0x10018; 0x10038] 0x10048
              (initial_frame example_image) (boot_machine framebuffer_memory))
    as (f' & s' & Hw & Hc & Hf).
  - solve_records.
  - reflexivity.
  - solve_forall.
  - exists f', s'. split; [exact Hw|]. split.
    + rewrite Hc. vm_compute. reflexivity.
    + rewrite Hf. vm_compute. reflexivity.
Defined.

(** ** Records that change nothing *)

Lemma dispatch_passive (tag : Z) (f : frame) (s : machine) :
  acts (memory s) tag = false -> dispatch tag f s = Done (f, s).
Proof.
  unfold acts, writes_rsdp, has_kind. intros H.
  repeat (apply orb_false_iff in H; destruct H as [H ?]).
  repeat match goal with
    | H : _ || _ = false |- _ => apply orb_false_iff in H; destruct H
    end.
  unfold dispatch.
  repeat match goal with
    | H : (_ =? _) = false |- _ => rewrite H; clear H
    end.
  repeat break_if; reflexivity.
Qed.

(** X8. Records of the loader name, of the basic memory information and of
    any kind the switch does not list are stepped over.  When the records
    the loop condition holds at are finitely many, each of such a kind, the
    walk ends at the position behind them and leaves every global, the
    memory and the locals as they were, and calls nothing.  (A record of
    such a kind with a length field of 0 has no such finite chain: the
    walk stays on it.) *)
Theorem passive_records_change_nothing
  (m : mem) (end_ tag : Z) (ps : list Z) (last : Z) (f : frame) (s : machine) :
  records m end_ tag ps last ->
  memory s = m ->
  Forall (fun p => acts m p = false) ps ->
  walk (S (length ps)) end_ tag f s =
  Done (last, mkFrame (mmap f) (bootstrap_end f) (entries f) (visited f ++ ps), s).
Proof.
  intros Hrec Hm Hpass.
  rewrite (walk_records _ _ _ _ _ Hrec) by (auto; lia).
  clear Hrec. revert f. induction ps as [|p ps IH]; intros f.
  - cbn. rewrite app_nil_r. now destruct f.
  - inversion Hpass; subst. cbn [dispatch_all].
    rewrite dispatch_passive by assumption. cbn [bind].
    rewrite IH by assumption. cbn. now rewrite <- app_assoc.
Qed.

Lemma passive_records_change_nothing_witness :
  walk 4 (walk_end passive_memory example_mb2i) (walk_start example_mb2i)
    (initial_frame example_image) (boot_machine passive_memory) =
  Done (0x10038,
        mkFrame 0 0x180000 0 [0x10008; 0x10018; 0x10028],
        boot_machine passive_memory).
Proof.
  apply (passive_records_change_nothing passive_memory
           (walk_end passive_memory example_mb2i) (walk_start example_mb2i)
           [0x10008; 0x10018; 0x10028] 0x10038
           (initial_frame example_image) (boot_machine passive_memory)).
  - solve_records.
  - reflexivity.
  - solve_forall; vm_compute; reflexivity.
Defined.

(** * Further properties of the direct map *)

(** ** The highest address and the map that is handed on *)

Lemma last_of_in (l : list Z) (t : Z) : last_of l = Some t -> In t l.
Proof.
  unfold last_of. intros H. apply in_rev.
  destruct (rev l) as [|x r]; [discriminate|].
  inversion H; subst. now left.
Qed.

(** X10. After a run that returns, [highest_address] is at least the end
    ([addr + len], in 64 bits) of every entry of the memory map that
    [arc_mmap_len] counts and the normalized map is copied from. *)
Theorem highest_address_bounds_the_memory_map (co : Collaborators)
  (img : Image) (fuel : nat) (mb2i : Z) (s : machine) (ps : list Z) (last : Z) :
  let m := memory s in
  records m (walk_end m mb2i) (walk_start mb2i) ps last ->
  Forall (divisible m) (mmap_records m ps) ->
  (length ps < fuel)%nat ->
  match read_mb2i co img fuel mb2i s with
  | Done (_, s') =>
      arc_mmap_len (_boot_meta s') = found_entries m ps /\
      forall i,
        0 <= i < arc_mmap_len (_boot_meta s') ->
        entry_end (load_mmap_entry m (found_mmap m ps) i)
          <= highest_address (_boot_meta s')
  | _ => True
  end.
Proof.
  intros m Hrec Hdiv Hfuel.
  destruct (read_mb2i_walked co img fuel mb2i s ps last Hrec Hdiv Hfuel)
    as (f' & sw & Hd & Hrun).
  rewrite Hrun.
  pose proof (dispatch_all_highest _ _ _ _ _ Hd) as Hh.
  pose proof (dispatch_all_found _ _ _ _ _ Hd) as Hfound.
  cbn [memory with_mb2_boot_info mmap entries initial_frame] in Hh, Hfound.
  fold m in Hh, Hfound.
  pose proof (bootstrap_outcomes co img fuel f' sw) as Ho. cbv zeta in Ho.
  destruct (bootstrap co img fuel f' sw) as [[r s']|s'|s'|]; auto.
  destruct Ho as (_ & new & s1 & Hs' & _ & _ & _ & Hmeta & _).
  subst s'.
  cbn [_boot_meta publish_boot_info with_boot_meta set_boot_info
       arc_mmap_len highest_address].
  rewrite Hmeta.
  cbn [prepare snd _boot_meta with_boot_meta with_memory record_call
       set_hhdm_vaddr set_arc_mmap_len set_arc_mmap arc_mmap_len
       highest_address].
  rewrite Hh. unfold found_entries, found_mmap.
  destruct (last_of (mmap_records m ps)) as [t|] eqn:Hl;
    injection Hfound as Hraw Hn; rewrite Hn.
  - split; [reflexivity|]. intros i Hi.
    apply fold_max_upper. apply in_map.
    unfold all_raw_entries. apply in_flat_map. exists t.
    split; [now apply last_of_in|].
    unfold raw_entries. apply in_map. now apply in_int_range.
  - split; [reflexivity|]. intros i Hi. lia.
Qed.

Lemma highest_address_bounds_the_memory_map_witness :
  match read_mb2i (steady 0x500000) example_image 5 example_mb2i
          (boot_machine full_memory) with
  | Done (_, s') => 0x102800 <= highest_address (_boot_meta s')
  | _ => True
  end.
Proof.
  pose proof (highest_address_bounds_the_memory_map (steady 0x500000)
                example_image 5 example_mb2i (boot_machine full_memory)
                [0x10008; 0x10048; 0x10078; 0x100A8] 0x100B8
                full_records full_divisible) as H.
  cbv zeta in H.
  destruct (read_mb2i (steady 0x500000) example_image 5 example_mb2i
              (boot_machine full_memory)) as [[r s']|s'|s'|]; auto.
  destruct H as [Hlen H]; [cbn; lia|].
  specialize (H 0).
  replace (entry_end
             (load_mmap_entry (memory (boot_machine full_memory))
                (found_mmap (memory (boot_machine full_memory))
                   [0x10008; 0x10048; 0x10078; 0x100A8]) 0))
    with 0x102800 in H by (vm_compute; reflexivity).
  apply H. rewrite Hlen. vm_compute. split; [discriminate|reflexivity].
Defined.

(** ** Copies stay in their slots *)

Lemma copy_entries_outside (mmap p n : Z) (idx : list Z) :
  forall m x,
    Forall (fun i => 0 <= i < n) idx ->
    x < p \/ p + sizeof_ARC_MMap * n <= x ->
    copy_entries m mmap p idx x = m x.
Proof.
  induction idx as [|i idx IH]; intros m x Hidx Hx; [reflexivity|].
  inversion Hidx; subst. cbn [copy_entries].
  rewrite IH by assumption.
  apply store_ARC_MMap_outside.
  unfold arc_mmap_slot, sizeof_ARC_MMap in *. lia.
Qed.

(** ** A region within a page of the top of the address space *)

Lemma map_region_wraps (co : Collaborators) (e : multiboot_mmap_entry) :
  never_fails co ->
  2 ^ 64 - 0x1000 < e_len e ->
  forall fuel k s,
    0 <= k < 2 ^ 52 ->
    map_region fuel co e (0x1000 * k) s = OutOfFuel.
Proof.
  intros Hnf Hlen. induction fuel as [|fuel IH]; intros k s Hk; [reflexivity|].
  cbn [map_region].
  destruct (Z.ltb_spec (0x1000 * k) (e_len e)); [|lia].
  match goal with
  | |- context [map_page co ?cs ?pm ?v ?a 1] =>
      pose proof (Hnf cs pm v a 1) as Hret;
      destruct (Z.eqb_spec (map_page co cs pm v a 1) 0); [contradiction|]
  end.
  destruct (Z.eq_dec k (2 ^ 52 - 1)) as [->|Hne].
  - replace (u64 (0x1000 * (2 ^ 52 - 1) + 0x1000)) with (0x1000 * 0)
      by (vm_compute; reflexivity).
    apply IH. lia.
  - replace (u64 (0x1000 * k + 0x1000)) with (0x1000 * (k + 1))
      by (rewrite u64_small; lia).
    apply IH. lia.
Qed.

(** X12. For a region whose length is within a page of [2 ^ 64], [j <
    entry.len] holds for every multiple of [0x1000] that [j] can be, and
    [j += 0x1000] wraps to 0: with a page mapper that never fails the loop
    of line 189 does not end, whatever the fuel. *)
Theorem region_near_the_top_is_mapped_forever (co : Collaborators)
  (e : multiboot_mmap_entry) :
  never_fails co ->
  2 ^ 64 - 0x1000 < e_len e ->
  forall fuel s, map_region fuel co e 0 s = OutOfFuel.
Proof.
  intros Hnf Hlen fuel s.
  change 0 with (0x1000 * 0) at 1. apply map_region_wraps; auto. lia.
Qed.

Lemma region_near_the_top_is_mapped_forever_witness :
  map_region 1000 (steady 0x500000) whole_space 0
    (boot_machine small_map_memory) = OutOfFuel.
Proof.
  apply (region_near_the_top_is_mapped_forever (steady 0x500000) whole_space).
  - apply steady_never_fails.
  - vm_compute. reflexivity.
Defined.

(** ** The address macros *)

Lemma u32_add_sub (a b : Z) : u32 (u32 (u32 a + u32 b) - u32 b) = u32 a.
Proof.
  unfold u32, wrap.
  rewrite Zminus_mod_idemp_l.
  replace (a mod 2 ^ 32 + b mod 2 ^ 32 - b mod 2 ^ 32) with (a mod 2 ^ 32)
    by lia.
  apply Z.mod_mod. discriminate.
Qed.

Lemma u32_sub_add (a b : Z) : u32 (u32 (u32 a - u32 b) + u32 b) = u32 a.
Proof.
  unfold u32, wrap.
  rewrite Zplus_mod_idemp_l.
  replace (a mod 2 ^ 32 - b mod 2 ^ 32 + b mod 2 ^ 32) with (a mod 2 ^ 32)
    by lia.
  apply Z.mod_mod. discriminate.
Qed.

(** X13. [ARC_TO_HHDM_PHYS] undoes [ARC_PHYS_TO_HHDM] and the other way
    round, whatever [hhdm_vaddr] holds and even when the sum wraps: each
    composition gives back its argument as a [uintptr_t]. *)
Theorem hhdm_macros_are_inverse (s : machine) (a : Z) :
  ARC_TO_HHDM_PHYS s (ARC_PHYS_TO_HHDM s a) = uintptr_t a /\
  ARC_PHYS_TO_HHDM s (ARC_TO_HHDM_PHYS s a) = uintptr_t a.
Proof.
  unfold ARC_TO_HHDM_PHYS, ARC_PHYS_TO_HHDM, uintptr_t.
  rewrite (u32_small (u32 (u32 a + u32 (ARC_HHDM_VADDR s))))
    by apply u32_range.
  rewrite (u32_small (u32 (u32 a - u32 (ARC_HHDM_VADDR s))))
    by apply u32_range.
  split; [apply u32_add_sub|apply u32_sub_add].
Qed.

(** ** Slots of the packed structure *)

(** X15. The three stores of lines 183-185 into a slot of the packed
    20-byte [struct ARC_MMap] do not overwrite one another, and a slot is
    not touched by the stores into another slot: a slot reads back as the
    entry stored in it, with the kind as an [int]. *)
Theorem slot_reads_back_what_was_stored (m : mem) (p i j : Z)
  (e e' : multiboot_mmap_entry) :
  in_u64 (e_addr e) -> in_u64 (e_len e) -> i <> j ->
  let m1 := store_ARC_MMap m (arc_mmap_slot p i) (normalized e) in
  let m2 := store_ARC_MMap m1 (arc_mmap_slot p j) (normalized e') in
  load_ARC_MMap m1 (arc_mmap_slot p i) = normalized e /\
  load_ARC_MMap m2 (arc_mmap_slot p i) = normalized e.
Proof.
  intros Ha Hl Hij m1 m2.
  assert (H1 : load_ARC_MMap m1 (arc_mmap_slot p i) = normalized e)
    by now apply load_store_ARC_MMap.
  split; [exact H1|]. rewrite <- H1.
  apply load_ARC_MMap_ext. intros x Hx. subst m2.
  apply store_ARC_MMap_outside.
  unfold arc_mmap_slot, sizeof_ARC_MMap in *. lia.
Qed.

Lemma slot_reads_back_what_was_stored_witness :
  load_ARC_MMap
    (store_ARC_MMap
       (store_ARC_MMap small_map_memory (arc_mmap_slot 0x500000 1)
          (normalized (mk_mmap_entry 0x100000 0x2800 1)))
       (arc_mmap_slot 0x500000 0) (normalized whole_space))
    (arc_mmap_slot 0x500000 1) =
  normalized (mk_mmap_entry 0x100000 0x2800 1).
Proof.
  apply (slot_reads_back_what_was_stored small_map_memory 0x500000 1 0
           (mk_mmap_entry 0x100000 0x2800 1) whole_space).
  - vm_compute. split; [discriminate|reflexivity].
  - vm_compute. split; [discriminate|reflexivity].
  - discriminate.
Defined.

(** ** Adding and subtracting the base *)

Lemma u64_add_sub (a b : Z) : u64 (u64 (u64 a + b) - b) = u64 a.
Proof.
  unfold u64, wrap. rewrite Zminus_mod_idemp_l.
  replace (a mod 2 ^ 64 + b - b) with (a mod 2 ^ 64) by lia.
  apply Z.mod_mod. discriminate.
Qed.

(** ** Alignment of the records *)

Lemma u32_mod_8 (x : Z) : u32 x mod 8 = x mod 8.
Proof.
  unfold u32, wrap. apply Z.mod_mod_divide.
  exists (2 ^ 29). reflexivity.
Qed.

Lemma next_tag_mod_8 (m : mem) (tag : Z) : next_tag m tag mod 8 = tag mod 8.
Proof.
  unfold next_tag, ALIGN, uintptr_t. rewrite u32_mod_8.
  apply Z.mod_add. lia.
Qed.

(** X17. Line 161 advances by a multiple of 8, and the 32-bit wrap keeps
    that: every record the loop body runs on, and the position the walk
    stops at, is at a multiple of 8 from the address handed to the
    function, whatever the length fields hold. *)
Theorem records_keep_the_alignment (m : mem) (end_ mb2i : Z) (ps : list Z)
  (last : Z) :
  records m end_ (walk_start mb2i) ps last ->
  Forall (fun p => p mod 8 = mb2i mod 8) ps /\ last mod 8 = mb2i mod 8.
Proof.
  assert (H0 : walk_start mb2i mod 8 = mb2i mod 8).
  { unfold walk_start, uintptr_t. rewrite u32_mod_8.
    replace (mb2i + 8) with (mb2i + 1 * 8) by lia. apply Z.mod_add. lia. }
  revert H0. generalize (walk_start mb2i). intros tag H0 Hrec.
  induction Hrec as [tag _|tag ps last _ _ _ IH].
  - split; [constructor|exact H0].
  - destruct IH as [IH1 IH2]; [now rewrite next_tag_mod_8|].
    split; [constructor; assumption|exact IH2].
Qed.

Lemma records_keep_the_alignment_witness :
  Forall (fun p => p mod 8 = example_mb2i mod 8)
    [0x10008; 0x10048; 0x10078; 0x100A8] /\
  0x100B8 mod 8 = example_mb2i mod 8.
Proof.
  apply (records_keep_the_alignment full_memory
           (walk_end full_memory example_mb2i)).
  exact full_records.
Defined.

(** * The direct map, request by request *)

(** ** Serving requests *)

Lemma serve_app (co : Collaborators) (l1 l2 : list (Z * Z * Z)) :
  forall cs root,
    serve co (l1 ++ l2) cs root =
    match serve co l1 cs root with
    | (cs1, Some root1) => serve co l2 cs1 root1
    | (cs1, None) => (cs1, None)
    end.
Proof.
  induction l1 as [|[[v a] fl] l1 IH]; intros cs root; [reflexivity|].
  cbn [app serve].
  destruct (map_page co cs root v a fl =? 0); [reflexivity|apply IH].
Qed.

Lemma serve_success (co : Collaborators) (reqs : list (Z * Z * Z)) :
  forall cs root cs' final,
    serve co reqs cs root = (cs', Some final) ->
    exists maps,
      cs' = cs ++ maps /\ map_requests maps = reqs /\ chained root maps final.
Proof.
  induction reqs as [|[[v a] fl] reqs IH]; intros cs root cs' final H.
  - cbn in H. injection H as <- <-. exists [].
    rewrite app_nil_r. repeat split.
  - cbn [serve] in H.
    destruct (Z.eqb_spec (map_page co cs root v a fl) 0) as [Hz|Hnz];
      [discriminate|].
    apply IH in H. destruct H as (maps & -> & Hreq & Hch).
    exists (Call_map_page root v a fl (map_page co cs root v a fl) :: maps).
    split; [now rewrite <- app_assoc|]. split.
    + unfold map_requests in *. cbn [flat_map request_of app].
      now rewrite Hreq.
    + cbn [chained]. repeat split; assumption.
Qed.

Lemma serve_failure (co : Collaborators) (reqs : list (Z * Z * Z)) :
  forall cs root cs',
    serve co reqs cs root = (cs', None) ->
    exists (k : nat) maps pml4 vaddr paddr flag,
      (k < length reqs)%nat /\
      cs' = cs ++ maps ++ [Call_map_page pml4 vaddr paddr flag 0] /\
      map_requests maps = firstn k reqs /\
      nth_error reqs k = Some (vaddr, paddr, flag) /\
      chained root maps pml4.
Proof.
  induction reqs as [|[[v a] fl] reqs IH]; intros cs root cs' H.
  - cbn in H. discriminate.
  - cbn [serve] in H.
    destruct (Z.eqb_spec (map_page co cs root v a fl) 0) as [Hz|Hnz].
    + injection H as H. subst cs'. rewrite Hz.
      exists 0%nat, [], root, v, a, fl.
      repeat split. cbn. lia.
    + apply IH in H.
      destruct H as (k & maps & pm & v' & a' & fl' & Hk & -> & Hreq & Hn & Hch).
      exists (S k),
        (Call_map_page root v a fl (map_page co cs root v a fl) :: maps),
        pm, v', a', fl'.
      split; [cbn; lia|]. split; [now rewrite <- app_assoc|].
      split; [|split; [exact Hn|cbn [chained]; repeat split; assumption]].
      unfold map_requests in *. cbn [flat_map request_of app firstn].
      now rewrite Hreq.
Qed.

Lemma in_map_requests (cs : list call) (vaddr paddr flag : Z) :
  In (vaddr, paddr, flag) (map_requests cs) ->
  exists root ret, In (Call_map_page root vaddr paddr flag ret) cs.
Proof.
  unfold map_requests. intros H. apply in_flat_map in H.
  destruct H as (c & Hc & Hin).
  destruct c; cbn in Hin; try contradiction.
  destruct Hin as [Hin|[]]. injection Hin as <- <- <-. eauto.
Qed.

Lemma chained_succeeded (maps : list call) :
  forall root final pml4 vaddr paddr flag ret,
    chained root maps final ->
    In (Call_map_page pml4 vaddr paddr flag ret) maps -> ret <> 0.
Proof.
  induction maps as [|c maps IH]; intros root final pm v a fl ret Hch Hin;
    [contradiction|].
  destruct c; cbn [chained] in Hch; try contradiction.
  destruct Hch as (_ & Hnz & Hch). destruct Hin as [Hin|Hin].
  - injection Hin as _ _ _ _ <-. exact Hnz.
  - eapply IH; eassumption.
Qed.

(** ** The two loops *)

(** The inner loop over a region that the loop ends on makes the requests
    of the steps that are left, one after the other, and stops at the first
    that fails. *)
Lemma map_region_serve (co : Collaborators) (e : multiboot_mmap_entry)
  (n : nat) :
  forall (k0 : Z) (s : machine) (fuel : nat),
    0 <= k0 ->
    e_len e <= 2 ^ 64 - 0x1000 ->
    page_steps (e_len e) = k0 + Z.of_nat n ->
    (n < fuel)%nat ->
    map_region fuel co e (0x1000 * k0) s =
    after_serve s (memory s)
      (serve co (map (page_request (ARC_HHDM_VADDR s) e) (steps_from k0 n))
         (calls s) (pml4 s)).
Proof.
  induction n as [|n IH]; intros k0 s fuel Hk0 Hlen Hsteps Hfuel.
  - destruct fuel as [|fuel]; [lia|]. cbn [map_region].
    apply page_steps_done in Hsteps.
    destruct (Z.ltb_spec (0x1000 * k0) (e_len e)); [lia|].
    destruct s; reflexivity.
  - destruct fuel as [|fuel]; [lia|]. cbn [map_region].
    assert (Hmore : 0x1000 * k0 < e_len e) by (apply page_steps_more; lia).
    destruct (Z.ltb_spec (0x1000 * k0) (e_len e)); [|lia].
    rewrite steps_from_succ. cbn [map]. unfold page_request at 1.
    cbn [serve].
    set (linear := u64 (e_addr e + 0x1000 * k0)).
    set (vaddr := u64 (linear + ARC_HHDM_VADDR s)).
    set (ret := map_page co (calls s) (pml4 s) vaddr linear 1).
    destruct (Z.eqb_spec ret 0) as [Hz|Hnz].
    + rewrite Hz. reflexivity.
    + replace (u64 (0x1000 * k0 + 0x1000)) with (0x1000 * (k0 + 1)).
      2:{ rewrite u64_small; [lia|].
          pose proof (page_steps_more (e_len e) k0). lia. }
      rewrite IH by lia. reflexivity.
Qed.

(** The outer loop over regions it ends on, with the buffer apart from the
    raw map: the requests of the regions in the order of [idx], stopping at
    the first that fails; when none fails the memory holds the copies. *)
Lemma hhdm_entries_serve (co : Collaborators) (fuel : nat) (m0 : mem)
  (mmap p n : Z) (idx : list Z) :
  forall (s : machine),
    let all := flat_map (fun i => region_requests (ARC_HHDM_VADDR s)
                                    (load_mmap_entry m0 mmap i)) idx in
    Forall (fun i => 0 <= i < n) idx ->
    apart p mmap n ->
    agree (mmap + sizeof_multiboot_tag_mmap)
      (mmap + sizeof_multiboot_tag_mmap + sizeof_multiboot_mmap_entry * n)
      m0 (memory s) ->
    (forall i, 0 <= i < n ->
               e_len (load_mmap_entry m0 mmap i) <= 2 ^ 64 - 0x1000 /\
               (Z.to_nat (page_steps (e_len (load_mmap_entry m0 mmap i))) < fuel)%nat) ->
    exists m',
      hhdm_entries fuel co mmap p idx s =
        after_serve s m' (serve co all (calls s) (pml4 s)) /\
      (served co all (calls s) (pml4 s) = true ->
       m' = copy_entries (memory s) mmap p idx).
Proof.
  induction idx as [|i idx IH]; intros s all Hidx Hap Hag Hlen.
  - exists (memory s). subst all. cbn.
    split; [destruct s; reflexivity|reflexivity].
  - inversion Hidx as [|? ? Hi Hidx']; subst.
    destruct (Hlen i Hi) as [Hle Hfu].
    assert (He : load_mmap_entry (memory s) mmap i = load_mmap_entry m0 mmap i).
    { apply load_mmap_entry_ext with (n := n); [|exact Hi].
      intros x Hx. symmetry. now apply Hag. }
    set (e := load_mmap_entry m0 mmap i) in *.
    set (s1 := with_memory
                 (store_ARC_MMap (memory s) (arc_mmap_slot p i) (normalized e))
                 s).
    assert (Hnn : 0 <= page_steps (e_len e)).
    { apply page_steps_nonneg. apply load64_range. }
    pose proof (map_region_serve co e (Z.to_nat (page_steps (e_len e))) 0 s1
                  fuel) as Hr.
    change (0x1000 * 0) with 0 in Hr.
    change (map (page_request (ARC_HHDM_VADDR s1) e)
              (steps_from 0 (Z.to_nat (page_steps (e_len e)))))
      with (region_requests (ARC_HHDM_VADDR s) e) in Hr.
    change (calls s1) with (calls s) in Hr.
    change (pml4 s1) with (pml4 s) in Hr.
    specialize (Hr ltac:(lia) Hle ltac:(lia) Hfu).
    assert (Hrun : hhdm_entries fuel co mmap p (i :: idx) s =
                   do s2 <- map_region fuel co e 0 s1 ;
                   hhdm_entries fuel co mmap p idx s2).
    { cbn [hhdm_entries]. rewrite He. reflexivity. }
    rewrite Hrun, Hr. clear Hrun.
    assert (Hcopy : copy_entries (memory s) mmap p (i :: idx) =
                    copy_entries (memory s1) mmap p idx).
    { cbn [copy_entries]. rewrite He. reflexivity. }
    rewrite Hcopy. clear Hcopy.
    subst all. cbn [flat_map]. fold e. unfold served. rewrite serve_app.
    set (rest := flat_map _ idx).
    destruct (serve co (region_requests (ARC_HHDM_VADDR s) e) (calls s) (pml4 s))
      as [cs1 [root1|]] eqn:E1; cbn [after_serve bind].
    + set (s2 := mkMachine (memory s1) (_boot_meta s1) (mb2_boot_info s1)
                   root1 cs1).
      destruct (IH s2) as (m' & Hrun & Hmem).
      * exact Hidx'.
      * exact Hap.
      * subst s2 s1. cbn [memory with_memory].
        now apply store_slot_agree.
      * exact Hlen.
      * exists m'. split; [rewrite Hrun; reflexivity|].
        intros Hs. apply Hmem. exact Hs.
    + exists (memory s1). split; [reflexivity|]. cbn. discriminate.
Qed.

(** ** From the call of [read_mb2i] to the requests *)

(** Lines 167-202 on a memory map whose regions the inner loop ends on and
    whose buffer lies apart from it. *)
Lemma bootstrap_serve (co : Collaborators) (img : Image) (fuel : nat)
  (f : frame) (s : machine) :
  let m := memory s in
  let p := fst (prepare co f s) in
  let sB := snd (prepare co f s) in
  let all := all_requests m (mmap f) (entries f) in
  entries f < 2 ^ 31 ->
  apart p (mmap f) (entries f) ->
  mappable m (mmap f) (entries f) ->
  (forall i, 0 <= i < entries f ->
     (Z.to_nat (page_steps (e_len (load_mmap_entry m (mmap f) i))) < fuel)%nat) ->
  exists m',
    bootstrap co img fuel f s =
      (do s1 <- after_serve sB m' (serve co all (calls sB) (pml4 s)) ;
       Done (0, publish_boot_info img s1)) /\
    (served co all (calls sB) (pml4 s) = true ->
     m' = copy_entries (memory sB) (mmap f) p (int_range (entries f))).
Proof.
  intros m p sB all Hn Hap Hmap Hfuel.
  destruct (hhdm_entries_serve co fuel m (mmap f) p (entries f)
              (int_range (entries f)) sB) as (m' & Hrun & Hmem).
  - apply Forall_forall. intros i. apply in_int_range.
  - exact Hap.
  - subst sB. now apply prepare_agree.
  - intros i Hi. split; [now apply Hmap|now apply Hfuel].
  - exists m'. split; [|exact Hmem].
    unfold bootstrap. rewrite (surjective_pairing (prepare co f s)).
    fold p. fold sB. rewrite Hrun. reflexivity.
Qed.

(** What the walk over the records [ps] hands to lines 167-202. *)
Lemma read_mb2i_walk_summary (co : Collaborators) (img : Image) (fuel : nat)
  (mb2i : Z) (s : machine) (ps : list Z) (last : Z) :
  let m := memory s in
  records m (walk_end m mb2i) (walk_start mb2i) ps last ->
  Forall (divisible m) (mmap_records m ps) ->
  (length ps < fuel)%nat ->
  exists f' sw,
    read_mb2i co img fuel mb2i s = bootstrap co img fuel f' sw /\
    memory sw = m /\ pml4 sw = pml4 s /\
    mmap f' = found_mmap m ps /\ entries f' = found_entries m ps /\
    boot_info (_boot_meta sw) = boot_info (_boot_meta s) /\
    fst (prepare co f' sw) = buffer_of co img s ps /\
    calls (snd (prepare co f' sw)) = calls_before_map co img s ps.
Proof.
  intros m Hrec Hdiv Hfuel.
  destruct (read_mb2i_walked co img fuel mb2i s ps last Hrec Hdiv Hfuel)
    as (f' & sw & Hd & Hrun).
  destruct (dispatch_all_keeps _ _ _ _ _ Hd) as (K1 & K2 & _).
  pose proof (dispatch_all_found _ _ _ _ _ Hd) as Hf.
  pose proof (dispatch_all_bootstrap_end _ _ _ _ _ Hd) as Hbe.
  destruct (dispatch_all_terminal _ _ _ _ _ Hd) as (Hc & _).
  destruct (dispatch_all_boot_info _ _ _ _ _ Hd) as (Hbi & _).
  cbn [memory with_mb2_boot_info pml4 calls _boot_meta initial_frame
       mmap entries bootstrap_end] in K1, K2, Hf, Hbe, Hc, Hbi.
  fold m in K1, Hf, Hbe, Hc.
  assert (Hraw : mmap f' = found_mmap m ps /\ entries f' = found_entries m ps).
  { unfold found_mmap, found_entries.
    destruct (last_of (mmap_records m ps)); injection Hf as -> ->;
      split; reflexivity. }
  destruct Hraw as [Hraw Hent].
  assert (Hp : fst (prepare co f' sw) = buffer_of co img s ps).
  { unfold buffer_of, calls_before_alloc, footprint.
    cbn [prepare fst record_call calls]. fold m.
    rewrite Hc, Hraw, Hent, Hbe, <- app_assoc. reflexivity. }
  exists f', sw. repeat split; try assumption.
  unfold calls_before_map. rewrite <- Hp.
  unfold calls_before_alloc, footprint.
  cbn [prepare fst snd record_call calls with_memory with_boot_meta]. fold m.
  rewrite Hc, Hraw, Hent, Hbe, <- !app_assoc. reflexivity.
Qed.

(** A run of [read_mb2i] whose walk ends, over regions the inner loop ends
    on and with the buffer apart from the raw map: the direct map puts its
    requests to the page mapper one after the other and stops at the first
    that fails. *)
Lemma read_mb2i_serve (co : Collaborators) (img : Image) (fuel : nat)
  (mb2i : Z) (s : machine) (ps : list Z) (last : Z) :
  let m := memory s in
  let raw := found_mmap m ps in
  let n := found_entries m ps in
  let buffer := buffer_of co img s ps in
  let before := calls_before_map co img s ps in
  records m (walk_end m mb2i) (walk_start mb2i) ps last ->
  Forall (divisible m) (mmap_records m ps) ->
  apart buffer raw n ->
  mappable m raw n ->
  enough_fuel m raw n ps fuel ->
  exists f' sw m',
    read_mb2i co img fuel mb2i s =
      (do s1 <- after_serve (snd (prepare co f' sw)) m'
                  (serve co (all_requests m raw n) before (pml4 s)) ;
       Done (0, publish_boot_info img s1)) /\
    boot_info (_boot_meta sw) = boot_info (_boot_meta s).
Proof.
  intros m raw n buffer before Hrec Hdiv Hap Hmap [Hf1 Hf2].
  destruct (read_mb2i_walk_summary co img fuel mb2i s ps last Hrec Hdiv Hf1)
    as (f' & sw & Hrun & Hm & Hroot & Hraw & Hent & Hbi & Hp & Hc).
  fold m in Hm, Hraw, Hent. fold raw in Hraw. fold n in Hent.
  destruct (bootstrap_serve co img fuel f' sw) as (m' & Hb & _).
  - rewrite Hent. apply found_entries_bound.
  - now rewrite Hp, Hraw, Hent.
  - now rewrite Hm, Hraw, Hent.
  - rewrite Hm, Hraw, Hent. exact Hf2.
  - exists f', sw, m'. split; [|exact Hbi].
    rewrite Hrun, Hb, Hm, Hraw, Hent, Hc, Hroot. reflexivity.
Qed.

Lemma all_requests_flag (m : mem) (raw n : Z) (vaddr paddr flag : Z) :
  In (vaddr, paddr, flag) (all_requests m raw n) -> flag = 1.
Proof.
  unfold all_requests. intros H. apply in_flat_map in H.
  destruct H as (i & _ & H). unfold region_requests in H.
  apply in_map_iff in H. destruct H as (k & Hk & _).
  unfold page_request in Hk. congruence.
Qed.

(** ** Claims about the direct map and the normalized map *)

(** C3. When the page mapper fails none of the requests put to it,
    [read_mb2i] returns, and the [map_page] calls it has made are exactly
    those of the regions in the order of the raw map, one every 4096 bytes
    from the region's base, each with the flag 1 and the virtual address
    that is the physical address plus the direct map base.  Each call was
    made with the root the one before returned, the first with [pml4] as
    the call of [read_mb2i] found it, and [pml4] ends as the root the last
    one returned.  For every raw entry [i] and every offset [o] into its
    region ([0 <= o < len]) one of the calls mapped the page at [addr +
    floor(o / 4096) * 4096], so that a length which is not a multiple of
    4096 still gets its last partial page. *)
Theorem direct_map_covers_every_region (co : Collaborators) (img : Image)
  (fuel : nat) (mb2i : Z) (s : machine) (ps : list Z) (last : Z) :
  let m := memory s in
  let raw := found_mmap m ps in
  let n := found_entries m ps in
  let all := all_requests m raw n in
  records m (walk_end m mb2i) (walk_start mb2i) ps last ->
  Forall (divisible m) (mmap_records m ps) ->
  apart (buffer_of co img s ps) raw n ->
  mappable m raw n ->
  enough_fuel m raw n ps fuel ->
  served co all (calls_before_map co img s ps) (pml4 s) = true ->
  exists s' maps,
    read_mb2i co img fuel mb2i s = Done (0, s') /\
    hhdm_vaddr (_boot_meta s') = HHDM_VADDR /\
    calls s' = calls_before_map co img s ps ++ maps /\
    map_requests maps = all /\
    chained (pml4 s) maps (pml4 s') /\
    (forall i o,
        0 <= i < n ->
        let e := load_mmap_entry m raw i in
        0 <= o < e_len e ->
        let physical := u64 (e_addr e + o / 4096 * 4096) in
        exists root ret,
          In (Call_map_page root (u64 (physical + HHDM_VADDR)) physical 1 ret)
            maps /\
          ret <> 0) /\
    (forall e, length (region_requests HHDM_VADDR e) =
               Z.to_nat ((e_len e + 4095) / 4096)).
Proof.
  intros m raw n all Hrec Hdiv Hap Hmap Hfuel Hs.
  destruct (read_mb2i_serve co img fuel mb2i s ps last Hrec Hdiv Hap Hmap Hfuel)
    as (f' & sw & m' & Hrun & _).
  fold m raw n in Hrun. fold all in Hrun.
  unfold served in Hs.
  destruct (serve co all (calls_before_map co img s ps) (pml4 s))
    as [cs' [final|]] eqn:E; [|discriminate].
  cbn [after_serve bind] in Hrun.
  apply serve_success in E. destruct E as (maps & -> & Hreq & Hch).
  eexists _, maps. split; [exact Hrun|].
  split; [reflexivity|]. split; [reflexivity|]. split; [exact Hreq|].
  split; [exact Hch|]. split.
  - intros i o Hi e Ho physical.
    assert (Hin : In (u64 (physical + HHDM_VADDR), physical, 1)
                    (map_requests maps)).
    { rewrite Hreq. unfold all, all_requests. apply in_flat_map. exists i.
      split; [now apply in_int_range|].
      fold e. unfold region_requests. apply in_map_iff.
      exists (o / 4096). split.
      - unfold page_request. subst physical.
        replace (0x1000 * (o / 4096)) with (o / 4096 * 4096) by lia.
        reflexivity.
      - apply in_int_range. split; [apply Z.div_pos; lia|].
        unfold page_steps. apply Z.div_lt_upper_bound; [lia|].
        pose proof (Z.mul_div_le o 4096 eq_refl).
        pose proof (Z.mod_pos_bound (e_len e + 0xFFF) 0x1000 eq_refl).
        pose proof (Z.div_mod (e_len e + 0xFFF) 0x1000). lia. }
    apply in_map_requests in Hin. destruct Hin as (root & ret & Hin).
    exists root, ret. split; [exact Hin|].
    eapply chained_succeeded; eassumption.
  - intros e. apply region_requests_length.
Qed.

(** C4. After [read_mb2i] has returned, [arc_mmap] is the buffer the
    allocator handed out, [arc_mmap_len] is the number of raw entries, and
    slot [i] of the buffer holds the base, the length and the kind of raw
    entry [i], for every [i]: no entry is left out, none is moved.  And
    [read_mb2i] does return when the page mapper fails none of the requests
    put to it. *)
Theorem normalized_map_copies_raw_map (co : Collaborators) (img : Image)
  (fuel : nat) (mb2i : Z) (s : machine) (ps : list Z) (last : Z) :
  let m := memory s in
  let raw := found_mmap m ps in
  let n := found_entries m ps in
  let mmap_entries := buffer_of co img s ps in
  records m (walk_end m mb2i) (walk_start mb2i) ps last ->
  Forall (divisible m) (mmap_records m ps) ->
  apart mmap_entries raw n ->
  (length ps < fuel)%nat ->
  (forall r s',
      read_mb2i co img fuel mb2i s = Done (r, s') ->
      arc_mmap (_boot_meta s') = uintptr_t mmap_entries /\
      arc_mmap_len (_boot_meta s') = n /\
      forall i,
        0 <= i < n ->
        let e := load_mmap_entry m raw i in
        let slot := load_ARC_MMap (memory s') (arc_mmap_slot mmap_entries i) in
        base slot = e_addr e /\ len slot = e_len e /\
        type slot = int (e_type e)) /\
  (mappable m raw n ->
   enough_fuel m raw n ps fuel ->
   served co (all_requests m raw n) (calls_before_map co img s ps) (pml4 s)
     = true ->
   exists s', read_mb2i co img fuel mb2i s = Done (0, s')).
Proof.
  intros m raw n mmap_entries Hrec Hdiv Hap Hfuel. split.
  - intros r s' Hdone.
    destruct (read_mb2i_walk_summary co img fuel mb2i s ps last Hrec Hdiv Hfuel)
      as (f' & sw & Hrun & Hm & _ & Hraw & Hent & _ & Hp & _).
    fold m in Hm, Hraw, Hent. fold raw in Hraw. fold n in Hent.
    fold mmap_entries in Hp.
    rewrite Hrun in Hdone.
    pose proof (bootstrap_outcomes co img fuel f' sw) as Ho. cbv zeta in Ho.
    rewrite Hdone in Ho.
    destruct Ho as (_ & new & s1 & Hs' & Hloop & _ & _ & Hmeta & _).
    assert (A1 : arc_mmap (_boot_meta (snd (prepare co f' sw))) =
                 uintptr_t (fst (prepare co f' sw))) by reflexivity.
    assert (A2 : arc_mmap_len (_boot_meta (snd (prepare co f' sw))) =
                 entries f') by reflexivity.
    subst s'.
    cbn [publish_boot_info _boot_meta with_boot_meta set_boot_info
         arc_mmap arc_mmap_len memory].
    rewrite Hmeta, A1, A2, Hp, Hent.
    split; [reflexivity|]. split; [reflexivity|].
    intros i Hi.
    assert (Hslot : load_ARC_MMap (memory s1) (arc_mmap_slot mmap_entries i) =
                    normalized (load_mmap_entry m raw i)).
    { rewrite (hhdm_entries_memory _ _ _ _ _ _ _ Hloop).
      rewrite Hp, Hraw, Hent, int_range_steps.
      destruct (copy_entries_spec m raw mmap_entries n (Z.to_nat n) 0
                  (memory (snd (prepare co f' sw)))) as [_ Hin].
      - exact Hap.
      - lia.
      - lia.
      - rewrite <- Hm, <- Hraw, <- Hent. apply prepare_agree.
        + rewrite Hent. apply found_entries_bound.
        + now rewrite Hp, Hraw, Hent.
      - apply Hin. lia. }
    rewrite Hslot. repeat split; reflexivity.
  - intros Hmap Hf Hs.
    destruct (read_mb2i_serve co img fuel mb2i s ps last Hrec Hdiv Hap Hmap Hf)
      as (f' & sw & m' & Hrun & _).
    fold m raw n in Hrun. unfold served in Hs.
    destruct (serve co (all_requests m raw n) (calls_before_map co img s ps)
                (pml4 s)) as [cs' [final|]]; [|discriminate].
    cbn [after_serve bind] in Hrun. eexists. exact Hrun.
Qed.

(** C8. If the page mapper returns [NULL] on one of the requests put to it,
    whichever it is, [read_mb2i] does not return: it reaches [ARC_HANG].
    The failed request is the last call made, the requests before it are
    those of the direct map up to it and they succeeded, each made with the
    root the one before returned; no request follows, [pml4] is left
    [NULL], and [boot_info], which line 200 would publish, keeps its
    value. *)
Theorem map_page_failure_halts (co : Collaborators) (img : Image)
  (fuel : nat) (mb2i : Z) (s : machine) (ps : list Z) (last : Z) :
  let m := memory s in
  let raw := found_mmap m ps in
  let n := found_entries m ps in
  let all := all_requests m raw n in
  records m (walk_end m mb2i) (walk_start mb2i) ps last ->
  Forall (divisible m) (mmap_records m ps) ->
  apart (buffer_of co img s ps) raw n ->
  mappable m raw n ->
  enough_fuel m raw n ps fuel ->
  served co all (calls_before_map co img s ps) (pml4 s) = false ->
  exists s' (k : nat) maps root vaddr paddr,
    read_mb2i co img fuel mb2i s = Hang s' /\
    (k < length all)%nat /\
    nth_error all k = Some (vaddr, paddr, 1) /\
    calls s' = calls_before_map co img s ps ++ maps ++
               [Call_map_page root vaddr paddr 1 0] /\
    map_requests maps = firstn k all /\
    chained (pml4 s) maps root /\
    pml4 s' = 0 /\
    boot_info (_boot_meta s') = boot_info (_boot_meta s).
Proof.
  intros m raw n all Hrec Hdiv Hap Hmap Hfuel Hs.
  destruct (read_mb2i_serve co img fuel mb2i s ps last Hrec Hdiv Hap Hmap Hfuel)
    as (f' & sw & m' & Hrun & Hbi).
  fold m raw n in Hrun. fold all in Hrun.
  unfold served in Hs.
  destruct (serve co all (calls_before_map co img s ps) (pml4 s))
    as [cs' [final|]] eqn:E; [discriminate|].
  cbn [after_serve bind] in Hrun.
  apply serve_failure in E.
  destruct E as (k & maps & root & v & a & fl & Hk & -> & Hreq & Hnth & Hch).
  assert (Hfl : fl = 1).
  { apply nth_error_In in Hnth. now apply all_requests_flag in Hnth. }
  subst fl.
  eexists _, k, maps, root, v, a.
  split; [exact Hrun|]. repeat split; try assumption.
Qed.

Lemma small_map_apart (co : Collaborators) :
  Arc_ListContiguousAlloc co = (fun _ _ => 0x500000) ->
  apart (buffer_of co example_image (boot_machine small_map_memory) [0x10008])
    (found_mmap small_map_memory [0x10008])
    (found_entries small_map_memory [0x10008]).
Proof.
  intros H. unfold buffer_of. rewrite H. unfold apart. right.
  vm_compute. discriminate.
Qed.

(** On the small map, with a page mapper that answers each request with a
    new root: after the two calls that set up the allocator, three requests
    for the two and a half pages at [0x100000], then one for the page at
    0, each made with the root the one before returned. *)
Lemma direct_map_covers_every_region_witness :
  exists s',
    read_mb2i (growing 0x500000) example_image 4 example_mb2i
      (boot_machine small_map_memory) = Done (0, s') /\
    calls s' =
    [Call_init_pmm 0x10008 0x180000;
     Call_Arc_ListContiguousAlloc 0 0x500000;
     Call_map_page 0x1000 (HHDM_VADDR + 0x100000) 0x100000 1 0x2000;
     Call_map_page 0x2000 (HHDM_VADDR + 0x101000) 0x101000 1 0x3000;
     Call_map_page 0x3000 (HHDM_VADDR + 0x102000) 0x102000 1 0x4000;
     Call_map_page 0x4000 HHDM_VADDR 0 1 0x5000] /\
    pml4 s' = 0x5000.
Proof.
  destruct (direct_map_covers_every_region (growing 0x500000) example_image 4
              example_mb2i (boot_machine small_map_memory) [0x10008] 0x10048
              small_map_records small_map_divisible
              (small_map_apart (growing 0x500000) eq_refl)
              small_map_mappable small_map_fuel)
    as (s' & maps & Hrun & _ & Hcalls & Hreq & Hch & _).
  - vm_compute. reflexivity.
  - assert (Hc :
      final_calls (read_mb2i (growing 0x500000) example_image 4 example_mb2i
                     (boot_machine small_map_memory)) =
      Some [Call_init_pmm 0x10008 0x180000;
            Call_Arc_ListContiguousAlloc 0 0x500000;
            Call_map_page 0x1000 (HHDM_VADDR + 0x100000) 0x100000 1 0x2000;
            Call_map_page 0x2000 (HHDM_VADDR + 0x101000) 0x101000 1 0x3000;
            Call_map_page 0x3000 (HHDM_VADDR + 0x102000) 0x102000 1 0x4000;
            Call_map_page 0x4000 HHDM_VADDR 0 1 0x5000])
      by (vm_compute; reflexivity).
    assert (Hr :
      final_root (read_mb2i (growing 0x500000) example_image 4 example_mb2i
                    (boot_machine small_map_memory)) = Some 0x5000)
      by (vm_compute; reflexivity).
    rewrite Hrun in Hc, Hr. cbn [final_calls final_root] in Hc, Hr.
    injection Hc as Hc. injection Hr as Hr.
    exists s'. split; [exact Hrun|]. split; [exact Hc|exact Hr].
Defined.

(** On the small map: both slots hold their raw entry. *)
Lemma normalized_map_copies_raw_map_witness :
  exists s',
    read_mb2i (steady 0x500000) example_image 4 example_mb2i
      (boot_machine small_map_memory) = Done (0, s') /\
    arc_mmap (_boot_meta s') = 0x500000 /\
    arc_mmap_len (_boot_meta s') = 2 /\
    load_ARC_MMap (memory s') (arc_mmap_slot 0x500000 0) =
      mkARC_MMap 1 0x100000 0x2800 /\
    load_ARC_MMap (memory s') (arc_mmap_slot 0x500000 1) =
      mkARC_MMap 2 0 0x1000.
Proof.
  destruct (normalized_map_copies_raw_map (steady 0x500000) example_image 4
              example_mb2i (boot_machine small_map_memory) [0x10008] 0x10048
              small_map_records small_map_divisible
              (small_map_apart (steady 0x500000) eq_refl))
    as (Hcopy & Hret).
  - cbn. lia.
  - destruct (Hret small_map_mappable small_map_fuel) as (s' & Hrun);
      [vm_compute; reflexivity|].
    destruct (Hcopy 0 s' Hrun) as (Hbuf & Hlen & Hslots).
    replace (buffer_of (steady 0x500000) example_image
               (boot_machine small_map_memory) [0x10008])
      with 0x500000 in Hbuf, Hslots by (vm_compute; reflexivity).
    exists s'. split; [exact Hrun|]. split; [exact Hbuf|].
    split; [rewrite Hlen; vm_compute; reflexivity|].
    split.
    + destruct (Hslots 0) as (Hb & Hl & Ht); [vm_compute; split; congruence|].
      destruct (load_ARC_MMap (memory s') (arc_mmap_slot 0x500000 0))
        as [t b l].
      cbn [base len type] in Hb, Hl, Ht. rewrite Hb, Hl, Ht.
      vm_compute. reflexivity.
    + destruct (Hslots 1) as (Hb & Hl & Ht); [vm_compute; split; congruence|].
      destruct (load_ARC_MMap (memory s') (arc_mmap_slot 0x500000 1))
        as [t b l].
      cbn [base len type] in Hb, Hl, Ht. rewrite Hb, Hl, Ht.
      vm_compute. reflexivity.
Defined.

(** On the small map, with a mapper that fails the request for the page at
    [0x101000]: the run hangs after two requests, the second made with the
    root the first returned. *)
Lemma map_page_failure_halts_witness :
  exists s',
    read_mb2i (picky 0x500000 0x101000) example_image 4 example_mb2i
      (boot_machine small_map_memory) = Hang s' /\
    calls s' =
    [Call_init_pmm 0x10008 0x180000;
     Call_Arc_ListContiguousAlloc 0 0x500000;
     Call_map_page 0x1000 (HHDM_VADDR + 0x100000) 0x100000 1 0x2000;
     Call_map_page 0x2000 (HHDM_VADDR + 0x101000) 0x101000 1 0] /\
    pml4 s' = 0 /\
    boot_info (_boot_meta s') = 0.
Proof.
  destruct (map_page_failure_halts (picky 0x500000 0x101000) example_image 4
              example_mb2i (boot_machine small_map_memory) [0x10008] 0x10048
              small_map_records small_map_divisible
              (small_map_apart (picky 0x500000 0x101000) eq_refl)
              small_map_mappable small_map_fuel)
    as (s' & k & maps & root & v & a & Hrun & _ & _ & _ & _ & _ & Hroot & Hbi).
  - vm_compute. reflexivity.
  - assert (Hcalls :
      hung_calls (read_mb2i (picky 0x500000 0x101000) example_image 4
                    example_mb2i (boot_machine small_map_memory)) =
      Some [Call_init_pmm 0x10008 0x180000;
            Call_Arc_ListContiguousAlloc 0 0x500000;
            Call_map_page 0x1000 (HHDM_VADDR + 0x100000) 0x100000 1 0x2000;
            Call_map_page 0x2000 (HHDM_VADDR + 0x101000) 0x101000 1 0])
      by (vm_compute; reflexivity).
    rewrite Hrun in Hcalls. cbn [hung_calls] in Hcalls.
    injection Hcalls as Hcalls.
    exists s'. split; [exact Hrun|]. split; [exact Hcalls|].
    split; [exact Hroot|exact Hbi].
Defined.

(** ** A stream without a memory map whose walk does not end *)

Lemma stalled_walk_runs_out (fuel : nat) :
  forall f s,
    memory s = stalled_memory ->
    walk fuel (walk_end stalled_memory example_mb2i) 0x10008 f s = OutOfFuel.
Proof.
  induction fuel as [|fuel IH]; intros f s Hm; [reflexivity|].
  cbn [walk]. rewrite Hm.
  replace (negb (load32 stalled_memory 0x10008 =? MULTIBOOT_TAG_TYPE_END) &&
           (0x10008 <? walk_end stalled_memory example_mb2i))
    with true by (vm_compute; reflexivity).
  rewrite dispatch_passive by (rewrite Hm; vm_compute; reflexivity).
  cbn [bind]. rewrite Hm.
  replace (next_tag stalled_memory 0x10008) with 0x10008
    by (vm_compute; reflexivity).
  apply IH. exact Hm.
Qed.

(** C10 as it was stated fails on the stream whose one record, a command
    line, has a length field of 0: the record is no memory map, line 161
    leaves the walk on it, so that no other record is ever looked at, and
    [read_mb2i] does not complete, whatever the collaborators. *)
Theorem no_memory_map_may_never_complete :
  has_kind stalled_memory MULTIBOOT_TAG_TYPE_MMAP (walk_start example_mb2i)
    = false /\
  next_tag stalled_memory (walk_start example_mb2i) = walk_start example_mb2i /\
  forall co img fuel,
    read_mb2i co img fuel example_mb2i (boot_machine stalled_memory)
    = OutOfFuel.
Proof.
  split; [vm_compute; reflexivity|]. split; [vm_compute; reflexivity|].
  intros co img fuel. unfold read_mb2i.
  replace (walk_start example_mb2i) with 0x10008 by (vm_compute; reflexivity).
  cbn [memory with_mb2_boot_info boot_machine].
  rewrite stalled_walk_runs_out by reflexivity. reflexivity.
Qed.

(** * Further properties, with the casts and the wrap-around *)

(** ** The ACPI root pointer, in general *)

Lemma pointer_to_u64_low (p : Z) : 0 <= p < 2 ^ 31 -> pointer_to_u64 p = p.
Proof.
  intros H. unfold pointer_to_u64, uintptr_t.
  rewrite int_u32, int_small by lia. apply u64_small. lia.
Qed.

Lemma pointer_to_u64_high (p : Z) :
  2 ^ 31 <= p < 2 ^ 32 -> pointer_to_u64 p = p + (2 ^ 64 - 2 ^ 32).
Proof.
  intros H. unfold pointer_to_u64, uintptr_t. rewrite int_u32.
  unfold int. rewrite u32_small by lia.
  destruct (Z.ltb_spec p (2 ^ 31)); [lia|].
  unfold u64, wrap.
  replace (p - 2 ^ 32) with (p + (2 ^ 64 - 2 ^ 32) + (-1) * 2 ^ 64) by lia.
  rewrite Z.mod_add by discriminate. apply Z.mod_small. lia.
Qed.

(** X9. After a run that gets past the walk, returning or hanging, [rsdp]
    is what the cast of line 157 makes of the address 8 bytes past the last
    record of the stream that is an old or new ACPI record or a
    load-base-address record; with no such record it is what it was before
    the call, and nothing after the walk writes it.  The cast widens a
    32-bit pointer to 64 bits with its sign: an address below 2 GiB is
    kept, an address from 2 GiB on gets its upper 32 bits set. *)
Theorem rsdp_is_set_by_the_last_record (co : Collaborators) (img : Image)
  (fuel : nat) (mb2i : Z) (s : machine) (ps : list Z) (last : Z) :
  let m := memory s in
  let root :=
    match last_of (filter (writes_rsdp m) ps) with
    | Some t => pointer_to_u64 (t + 8)
    | None => rsdp (_boot_meta s)
    end in
  records m (walk_end m mb2i) (walk_start mb2i) ps last ->
  Forall (divisible m) (mmap_records m ps) ->
  (length ps < fuel)%nat ->
  match read_mb2i co img fuel mb2i s with
  | Done (_, s') => rsdp (_boot_meta s') = root
  | Hang s' => rsdp (_boot_meta s') = root
  | DivideError _ => False
  | OutOfFuel => True
  end /\
  (forall p, 0 <= p < 2 ^ 31 -> pointer_to_u64 p = p) /\
  (forall p, 2 ^ 31 <= p < 2 ^ 32 ->
             pointer_to_u64 p = p + 0xFFFFFFFF00000000).
Proof.
  intros m root Hrec Hdiv Hfuel.
  split; [|split; [exact pointer_to_u64_low|exact pointer_to_u64_high]].
  destruct (read_mb2i_walked co img fuel mb2i s ps last Hrec Hdiv Hfuel)
    as (f' & sw & Hd & Hrun).
  rewrite Hrun.
  assert (Hr : rsdp (_boot_meta sw) = root).
  { apply (last_writer (fun _ s => rsdp (_boot_meta s))
             (writes_rsdp m) (fun t => pointer_to_u64 (t + 8)) m) in Hd; auto.
    intros p f0 s0 f1 s1 Hm0 H. rewrite <- Hm0.
    now apply dispatch_rsdp with (f := f0) (f' := f1). }
  pose proof (bootstrap_outcomes co img fuel f' sw) as Ho. cbv zeta in Ho.
  destruct (bootstrap co img fuel f' sw) as [[r s']|s'|s'|]; auto.
  - destruct Ho as (_ & new & s1 & Hs' & _ & _ & _ & Hmeta & _).
    subst s'.
    cbn [_boot_meta publish_boot_info with_boot_meta set_boot_info rsdp].
    rewrite Hmeta. exact Hr.
  - destruct Ho as (new & pm & v & a & _ & _ & _ & Hmeta & _).
    rewrite Hmeta. exact Hr.
Qed.

Lemma high_acpi_records :
  records high_acpi_memory (walk_end high_acpi_memory high_mb2i)
    (walk_start high_mb2i) [0x90000008] 0x90000018.
Proof. solve_records. Qed.

(** On the stream at [0x90000000] whose ACPI record is at [0x90000008]. *)
Lemma rsdp_is_set_by_the_last_record_witness :
  option_map rsdp
    (final_meta (read_mb2i (steady 0x500000) example_image 2 high_mb2i
                   (boot_machine high_acpi_memory)))
  = Some 0xFFFFFFFF90000010.
Proof.
  destruct (rsdp_is_set_by_the_last_record (steady 0x500000)
              example_image 2 high_mb2i (boot_machine high_acpi_memory)
              [0x90000008] 0x90000018 high_acpi_records) as (H & _).
  - solve_forall.
  - cbn. lia.
  - assert (Hret : returned (read_mb2i (steady 0x500000) example_image 2
                               high_mb2i (boot_machine high_acpi_memory))
                   = Some 0) by (vm_compute; reflexivity).
    destruct (read_mb2i (steady 0x500000) example_image 2 high_mb2i
                (boot_machine high_acpi_memory)) as [[r s']|s'|s'|];
      try discriminate Hret.
    cbn [final_meta option_map]. rewrite H.
    vm_compute. reflexivity.
Defined.

(** ** The size of the buffer *)

Lemma arc_mmap_pages_range (n : Z) : 0 <= arc_mmap_pages n < 2 ^ 20.
Proof.
  unfold arc_mmap_pages, size_t.
  pose proof (u32_range (u32 n * u32 sizeof_ARC_MMap)) as Hr.
  replace (u32 0x1000) with 0x1000 by (vm_compute; reflexivity).
  assert (Hq : 0 <= u32 (u32 n * u32 sizeof_ARC_MMap) / 0x1000 < 2 ^ 20).
  { split; [apply Z.div_pos; lia|apply Z.div_lt_upper_bound; lia]. }
  rewrite int_small by lia. exact Hq.
Qed.

(** X14. For an entry count that is not negative, line 169 rounds down: the
    pages asked for never cover more than the [20 * entries] bytes the
    slots take, and for fewer than 205 entries no page at all is asked for.
    For a negative count, as a memory-map record shorter than its header
    gives, the unsigned product wraps: down to -204 entries, 1048575 pages
    are asked for. *)
Theorem buffer_request_rounds_down (n : Z) :
  - 2 ^ 31 <= n < 2 ^ 31 ->
  0 <= arc_mmap_pages n < 2 ^ 20 /\
  (0 <= n -> 0x1000 * arc_mmap_pages n <= 20 * n) /\
  (0 <= n -> 20 * n < 2 ^ 32 -> arc_mmap_pages n = 20 * n / 0x1000) /\
  (0 <= n < 205 -> arc_mmap_pages n = 0) /\
  (- 205 < n < 0 -> arc_mmap_pages n = 1048575).
Proof.
  intros Hn. split; [apply arc_mmap_pages_range|].
  split; [|split; [|split]].
  - intros H0. destruct (arc_mmap_pages_floor n) as [_ [_ Hle]]; [lia|].
    pose proof (Z.mul_div_le (n * 20) 0x1000 eq_refl). lia.
  - intros H0 Hs. destruct (arc_mmap_pages_floor n) as [He _]; [lia|].
    rewrite He, u32_small by lia. f_equal. lia.
  - intros H0. destruct (arc_mmap_pages_floor n) as [He _]; [lia|].
    rewrite He, u32_small by lia. apply Z.div_small. lia.
  - intros Hneg. unfold arc_mmap_pages, size_t, sizeof_ARC_MMap.
    assert (H1 : u32 n = n + 2 ^ 32).
    { unfold u32, wrap. symmetry.
      apply (Z.mod_unique n (2 ^ 32) (-1)); lia. }
    rewrite H1.
    replace (u32 20) with 20 by (vm_compute; reflexivity).
    replace (u32 0x1000) with 0x1000 by (vm_compute; reflexivity).
    assert (H2 : u32 ((n + 2 ^ 32) * 20) = 20 * n + 2 ^ 32).
    { unfold u32, wrap. symmetry.
      apply (Z.mod_unique _ (2 ^ 32) 19); lia. }
    rewrite H2.
    assert (H3 : (20 * n + 2 ^ 32) / 0x1000 = 1048575).
    { symmetry. apply (Z.div_unique _ 0x1000 1048575 (20 * n + 0x1000)); lia. }
    rewrite H3. apply int_small. lia.
Qed.

Lemma buffer_request_rounds_down_witness :
  arc_mmap_pages 204 = 0 /\ arc_mmap_pages 205 = 1 /\
  arc_mmap_pages (-4) = 1048575.
Proof.
  destruct (buffer_request_rounds_down 204) as (_ & _ & _ & H & _); [lia|].
  split; [apply H; lia|].
  destruct (buffer_request_rounds_down 205) as (_ & _ & H' & _); [lia|].
  split; [rewrite H' by lia; reflexivity|].
  destruct (buffer_request_rounds_down (-4)) as (_ & _ & _ & _ & H''); [lia|].
  apply H''. lia.
Defined.

(** ** Where the run writes *)

(** X11. A run that returns has written to memory only from the address the
    allocator returned on, over the larger of two lengths: the [20 *
    entries] bytes of the slots and the byte count line 171 passes to
    [memset], which is the page count.  Outside that range every byte is as
    it was, the stream included when it lies outside.  For an entry count
    that is not negative the range is the [20 * entries] bytes of the
    slots; for a negative count nothing is copied, and what [memset] clears
    is all that is written. *)
Theorem writes_stay_in_the_buffer (co : Collaborators) (img : Image)
  (fuel : nat) (mb2i : Z) (s : machine) (ps : list Z) (last : Z) :
  let m := memory s in
  let n := found_entries m ps in
  let buffer := buffer_of co img s ps in
  let cleared := size_t (arc_mmap_pages n) in
  records m (walk_end m mb2i) (walk_start mb2i) ps last ->
  Forall (divisible m) (mmap_records m ps) ->
  (length ps < fuel)%nat ->
  (0 <= n -> Z.max (20 * n) cleared = 20 * n) /\
  (n < 0 -> Z.max (20 * n) cleared = cleared) /\
  match read_mb2i co img fuel mb2i s with
  | Done (_, s') =>
      forall x,
        x < buffer \/ buffer + Z.max (20 * n) cleared <= x ->
        memory s' x = m x
  | _ => True
  end.
Proof.
  intros m n buffer cleared Hrec Hdiv Hfuel.
  assert (Hcl : cleared = arc_mmap_pages n).
  { subst cleared. unfold size_t. apply u32_small.
    pose proof (arc_mmap_pages_range n). lia. }
  pose proof (arc_mmap_pages_range n) as Hpr.
  split; [|split].
  - intros H0. rewrite Hcl.
    destruct (arc_mmap_pages_floor n) as [_ [_ Hle]];
      [split; [exact H0|apply found_entries_bound]|].
    assert (n * 20 / 0x1000 <= n * 20) by (apply Z.div_le_upper_bound; lia).
    lia.
  - intros Hneg. rewrite Hcl. lia.
  - destruct (read_mb2i_walk_summary co img fuel mb2i s ps last Hrec Hdiv Hfuel)
      as (f' & sw & Hrun & Hm & _ & Hraw & Hent & _ & Hp & _).
    fold m in Hm, Hraw, Hent. fold n in Hent. fold buffer in Hp.
    rewrite Hrun.
    pose proof (bootstrap_outcomes co img fuel f' sw) as Ho. cbv zeta in Ho.
    destruct (bootstrap co img fuel f' sw) as [[r s']|s'|s'|]; auto.
    destruct Ho as (_ & new & s1 & Hs' & Hloop & _).
    intros x Hx. subst s'.
    change (memory (publish_boot_info img s1)) with (memory s1).
    rewrite (hhdm_entries_memory _ _ _ _ _ _ _ Hloop).
    rewrite copy_entries_outside with (n := n).
    + assert (Hmem : memory (snd (prepare co f' sw)) =
                     memset (memory sw) (fst (prepare co f' sw)) 0
                       (size_t (arc_mmap_pages (entries f'))))
        by reflexivity.
      rewrite Hmem, Hp, Hent, Hm. apply memset_outside.
      fold cleared. lia.
    + rewrite Hent. apply Forall_forall. intros i. apply in_int_range.
    + rewrite Hp. unfold sizeof_ARC_MMap. lia.
Qed.

Lemma short_map_records :
  records short_map_memory (walk_end short_map_memory example_mb2i)
    (walk_start example_mb2i) [0x10008] 0x10018.
Proof. solve_records. Qed.

Lemma short_map_divisible :
  Forall (divisible short_map_memory) (mmap_records short_map_memory [0x10008]).
Proof. solve_forall. vm_compute. discriminate. Qed.

(** On the memory map whose length field is 12, with the buffer at
    [0x500000]: the entry count is -4, and the first byte of the record is
    still the kind 6 after the run. *)
Lemma writes_stay_in_the_buffer_witness :
  found_entries short_map_memory [0x10008] = (-4) /\
  final_byte 0x10008
    (read_mb2i (steady 0x500000) example_image 4 example_mb2i
       (boot_machine short_map_memory)) = Some 6.
Proof.
  split; [vm_compute; reflexivity|].
  destruct (writes_stay_in_the_buffer (steady 0x500000) example_image 4
              example_mb2i (boot_machine short_map_memory) [0x10008] 0x10018
              short_map_records short_map_divisible) as (_ & _ & H).
  - cbn. lia.
  - assert (Hret : returned (read_mb2i (steady 0x500000) example_image 4
                               example_mb2i (boot_machine short_map_memory))
                   = Some 0) by (vm_compute; reflexivity).
    destruct (read_mb2i (steady 0x500000) example_image 4 example_mb2i
                (boot_machine short_map_memory)) as [[r s']|s'|s'|];
      try discriminate Hret.
    cbn [final_byte]. unfold load8. rewrite H.
    + vm_compute. reflexivity.
    + left. vm_compute. reflexivity.
Defined.

(** ** The shape of a request *)

Lemma map_region_offsets (co : Collaborators) (e : multiboot_mmap_entry)
  (fuel : nat) :
  forall j s s',
    map_region fuel co e j s = Done s' \/ map_region fuel co e j s = Hang s' ->
    exists new,
      calls s' = calls s ++ new /\ Forall (offset_by (ARC_HHDM_VADDR s)) new.
Proof.
  induction fuel as [|fuel IH]; intros j s s' H;
    [destruct H; discriminate|].
  cbn [map_region] in H. destruct (j <? e_len e).
  - set (linear := u64 (e_addr e + j)) in H.
    set (vaddr := u64 (linear + ARC_HHDM_VADDR s)) in H.
    set (ret := map_page co (calls s) (pml4 s) vaddr linear 1) in H.
    assert (Hoff : offset_by (ARC_HHDM_VADDR s)
                     (Call_map_page (pml4 s) vaddr linear 1 ret)).
    { cbn [offset_by]. split; [reflexivity|].
      split; [apply u64_range|]. split; [reflexivity|].
      apply u64_add_sub. }
    destruct (ret =? 0).
    + destruct H as [H|H]; [discriminate|]. injection H as <-.
      eexists. split; [reflexivity|]. constructor; [exact Hoff|constructor].
    + apply IH in H. destruct H as (new & Hc & Hall).
      exists (Call_map_page (pml4 s) vaddr linear 1 ret :: new).
      split; [rewrite Hc; cbn; now rewrite <- app_assoc|].
      constructor; [exact Hoff|exact Hall].
  - destruct H as [H|H]; [|discriminate]. injection H as <-.
    exists []. split; [now rewrite app_nil_r|constructor].
Qed.

Lemma hhdm_entries_offsets (co : Collaborators) (fuel : nat)
  (mmap mmap_entries : Z) (idx : list Z) :
  forall s s',
    hhdm_entries fuel co mmap mmap_entries idx s = Done s' \/
    hhdm_entries fuel co mmap mmap_entries idx s = Hang s' ->
    exists new,
      calls s' = calls s ++ new /\ Forall (offset_by (ARC_HHDM_VADDR s)) new.
Proof.
  induction idx as [|i idx IH]; intros s s' H.
  - destruct H as [H|H]; [|discriminate]. injection H as <-.
    exists []. split; [now rewrite app_nil_r|constructor].
  - cbn [hhdm_entries] in H.
    set (e := load_mmap_entry (memory s) mmap i) in H.
    set (s1 := with_memory _ s) in H.
    pose proof (map_region_offsets co e fuel 0 s1) as Hr.
    pose proof (map_region_keeps co e fuel 0 s1) as Hk.
    destruct (map_region fuel co e 0 s1) as [s2|s2|s2|]; cbn [bind] in H.
    + destruct (Hr s2 (or_introl eq_refl)) as (new1 & Hc1 & Hall1).
      destruct (Hk s2 (or_introl eq_refl)) as (_ & Hmeta & _).
      apply IH in H. destruct H as (new2 & Hc2 & Hall2).
      exists (new1 ++ new2). split.
      * rewrite Hc2, Hc1. cbn. now rewrite app_assoc.
      * apply Forall_app. split; [exact Hall1|].
        unfold ARC_HHDM_VADDR in *. rewrite Hmeta in Hall2. exact Hall2.
    + destruct H as [H|H]; [discriminate|]. injection H as <-.
      destruct (Hr s2 (or_intror eq_refl)) as (new1 & Hc1 & Hall1).
      exists new1. split; [exact Hc1|exact Hall1].
    + destruct H; discriminate.
    + destruct H; discriminate.
Qed.

(** X16. In every run that returns or hangs, each [map_page] call made
    after the allocator was set up, the failing one included, carries the
    flag 1 and a virtual address that is its physical address plus
    [0xFFFFC00000000000] in 64 bits, so that subtracting the base from the
    virtual address gives the physical address back. *)
Theorem requests_are_offset_by_the_base (co : Collaborators) (img : Image)
  (fuel : nat) (mb2i : Z) (s : machine) :
  let shape (s' : machine) :=
    exists terminal raw footprint pages buffer maps,
      calls s' = calls s ++ terminal ++
                 [Call_init_pmm raw footprint;
                  Call_Arc_ListContiguousAlloc pages buffer] ++ maps /\
      Forall is_terminal_call terminal /\
      Forall (offset_by HHDM_VADDR) maps in
  match read_mb2i co img fuel mb2i s with
  | Done (_, s') => shape s'
  | Hang s' => shape s'
  | _ => True
  end.
Proof.
  intros shape.
  assert (Hboot : forall f sw s',
             bootstrap co img fuel f sw = Done (0, s') \/
             bootstrap co img fuel f sw = Hang s' ->
             exists maps,
               calls s' = calls sw ++
                 [Call_init_pmm (mmap f) (uintptr_t (bootstrap_end f));
                  Call_Arc_ListContiguousAlloc (arc_mmap_pages (entries f))
                    (fst (prepare co f sw))] ++ maps /\
               Forall (offset_by HHDM_VADDR) maps).
  { intros f sw s' H. unfold bootstrap in H.
    rewrite (surjective_pairing (prepare co f sw)) in H.
    pose proof (hhdm_entries_offsets co fuel (mmap f) (fst (prepare co f sw))
                  (int_range (entries f)) (snd (prepare co f sw))) as Hh.
    destruct (hhdm_entries fuel co (mmap f) (fst (prepare co f sw))
                (int_range (entries f)) (snd (prepare co f sw)))
      as [s1|s1|s1|]; cbn [bind] in H.
    - destruct H as [H|H]; [|discriminate]. injection H as <-.
      destruct (Hh s1 (or_introl eq_refl)) as (maps & Hc & Hall).
      exists maps. split; [|exact Hall].
      change (calls (publish_boot_info img s1)) with (calls s1).
      rewrite Hc. cbn. now rewrite <- !app_assoc.
    - destruct H as [H|H]; [discriminate|]. injection H as <-.
      destruct (Hh s1 (or_intror eq_refl)) as (maps & Hc & Hall).
      exists maps. split; [|exact Hall].
      rewrite Hc. cbn. now rewrite <- !app_assoc.
    - destruct H; discriminate.
    - destruct H; discriminate. }
  pose proof (read_mb2i_cases co img fuel mb2i s) as H. cbv zeta in H.
  destruct (read_mb2i co img fuel mb2i s) as [[r s']|s'|s'|]; auto.
  - destruct H as (ps & f1 & sw & Hd & Hb).
    pose proof (bootstrap_outcomes co img fuel f1 sw) as Ho.
    rewrite Hb in Ho. cbv zeta in Ho. destruct Ho as (-> & _).
    apply dispatch_all_boot_info in Hd. destruct Hd as (_ & l & Hl & Ht).
    destruct (Hboot f1 sw s' (or_introl Hb)) as (maps & Hc & Hall).
    exists l. eexists _, _, _, _, maps.
    split; [|split; assumption].
    rewrite Hc, Hl. cbn [calls with_mb2_boot_info].
    rewrite <- !app_assoc. reflexivity.
  - destruct H as (ps & f1 & sw & Hd & Hb).
    apply dispatch_all_boot_info in Hd. destruct Hd as (_ & l & Hl & Ht).
    destruct (Hboot f1 sw s' (or_intror Hb)) as (maps & Hc & Hall).
    exists l. eexists _, _, _, _, maps.
    split; [|split; assumption].
    rewrite Hc, Hl. cbn [calls with_mb2_boot_info].
    rewrite <- !app_assoc. reflexivity.
Qed.

(** ** A bound that wraps *)

(** X18. When eight times the declared length carries the bound of line 52
    past the top of the 32-bit address space, so that it wraps to an
    address not above the first record, the loop body does not run,
    whatever the stream holds: [read_mb2i] goes on as over an empty stream.
    It hands [NULL] and the link-time end to [init_pmm], asks for 0 pages,
    publishes an [arc_mmap_len] of 0, maps nothing and returns 0. *)
Theorem wrapped_bound_skips_the_stream (co : Collaborators) (img : Image)
  (fuel : nat) (mb2i : Z) (s : machine) :
  walk_end (memory s) mb2i <= walk_start mb2i ->
  exists s',
    read_mb2i co img (S fuel) mb2i s = Done (0, s') /\
    calls s' = calls_before_map co img s [] /\
    calls_before_alloc img s [] =
      calls s ++ [Call_init_pmm 0 (uintptr_t (__BOOTSTRAP_END__ img))] /\
    arc_mmap_len (_boot_meta s') = 0 /\
    highest_address (_boot_meta s') = highest_address (_boot_meta s) /\
    rsdp (_boot_meta s') = rsdp (_boot_meta s) /\
    pml4 s' = pml4 s /\
    forall x, memory s' x = memory s x.
Proof.
  intros Hw.
  pose proof (read_mb2i_walked co img (S fuel) mb2i s [] (walk_start mb2i))
    as Hwalked.
  cbv zeta in Hwalked.
  destruct Hwalked as (f2 & s2 & Hd & Hrun);
    [apply records_stop; right; exact Hw|constructor|cbn; lia|].
  cbn [dispatch_all] in Hd. injection Hd as <- <-.
  rewrite Hrun. unfold bootstrap.
  rewrite (surjective_pairing (prepare co _ _)).
  change (int_range (entries (initial_frame img))) with (@nil Z).
  cbn [hhdm_entries bind].
  eexists. split; [reflexivity|].
  split.
  { change (calls (publish_boot_info img ?x)) with (calls x).
    unfold calls_before_map, buffer_of, calls_before_alloc, footprint.
    cbn. rewrite <- !app_assoc. cbn.
    unfold uintptr_t. rewrite (u32_small (u32 _)) by apply u32_range.
    reflexivity. }
  split.
  { unfold calls_before_alloc, footprint. cbn.
    unfold uintptr_t. rewrite (u32_small (u32 _)) by apply u32_range.
    reflexivity. }
  repeat split.
  intros x. cbn. apply memset_outside. change (arc_mmap_pages 0) with 0.
  replace (size_t 0) with 0 by reflexivity. lia.
Qed.

(** On the small map placed at [0xFFFFFF00]: the bound wraps to [0x180] and
    the memory map is not seen. *)
Lemma wrapped_bound_skips_the_stream_witness :
  load32 top_memory (walk_start top_mb2i) = MULTIBOOT_TAG_TYPE_MMAP /\
  walk_end top_memory top_mb2i = 0x180 /\
  exists s',
    read_mb2i (steady 0x500000) example_image 1 top_mb2i
      (boot_machine top_memory) = Done (0, s') /\
    calls s' = [Call_init_pmm 0 0x180000;
                Call_Arc_ListContiguousAlloc 0 0x500000] /\
    arc_mmap_len (_boot_meta s') = 0.
Proof.
  split; [vm_compute; reflexivity|]. split; [vm_compute; reflexivity|].
  destruct (wrapped_bound_skips_the_stream (steady 0x500000) example_image 0
              top_mb2i (boot_machine top_memory))
    as (s' & Hrun & Hcalls & _ & Hlen & _).
  - vm_compute. discriminate.
  - exists s'. split; [exact Hrun|]. split; [|exact Hlen].
    rewrite Hcalls. vm_compute. reflexivity.
Defined.
